(** * Text-Fabric: section/structure addressing, text rendering and the
      search window of the TF service

    A shallow embedding of

    - [tf/server/data.py]   ([batchAround], [exposed_search]),
    - [tf/applib/search.py] ([runSearch], [runSearchCondensed]),
    - [tf/core/text.py]     (class [Text]: [sectionTuple], the structure
      navigation methods and [text]),

    followed by the properties of these functions.

    Python integers are [Z]; tuples and lists are [list]; dictionaries are
    [gmap]; Python sets are [gset]; [None] is the [None] of an [option];
    a raised exception is the [Raise] of [pyres]. *)

From Stdlib Require Import ZArith Lia Ascii String.
From stdpp Require Import gmap strings list sorting pretty.

Open Scope Z_scope.

(** ** Python primitives used by the three files *)

Inductive pyExn :=
  | IndexError
  | KeyError
  | AttributeError
  | TypeError
  | RecursionError.

Inductive pyres (A : Type) :=
  | Ok (a : A)
  | Raise (e : pyExn).
Arguments Ok {A} a.
Arguments Raise {A} e.

Definition pyres_bind {A B} (x : pyres A) (f : A → pyres B) : pyres B :=
  match x with
  | Ok a => f a
  | Raise e => Raise e
  end.

Definition pyres_map {A B} (f : A → B) (x : pyres A) : pyres B :=
  pyres_bind x (λ a, Ok (f a)).

#[global] Instance pyres_ret : MRet pyres := λ A a, Ok a.
#[global] Instance pyres_mbind : MBind pyres := λ A B f x, pyres_bind x f.

(** [d[k]] for a dictionary: a missing key raises [KeyError]. *)
Definition py_getitem `{Countable K} {V} (d : gmap K V) (k : K) : pyres V :=
  match d !! k with
  | Some v => Ok v
  | None => Raise KeyError
  end.

(** [l[i]] for a list or tuple: a negative index counts from the end, an
    index out of range raises [IndexError]. *)
Definition py_index {A} (l : list A) (i : Z) : pyres A :=
  let j := if decide (i < 0) then i + Z.of_nat (length l) else i in
  if decide (j < 0) then Raise IndexError
  else match l !! Z.to_nat j with
       | Some x => Ok x
       | None => Raise IndexError
       end.

(** One bound of a slice [l[lo:hi]]: negative bounds count from the end and
    every bound is clipped to the list. *)
Definition py_slice_bound (len i : Z) : Z :=
  if decide (i < 0) then Z.max (i + len) 0 else Z.min i len.

(** [l[lo:hi]] *)
Definition py_slice {A} (l : list A) (lo hi : Z) : list A :=
  let len := Z.of_nat (length l) in
  let lo' := py_slice_bound len lo in
  let hi' := py_slice_bound len hi in
  take (Z.to_nat (hi' - lo')) (drop (Z.to_nat lo') l).

(** [enumerate(l)], with the index as a Python integer. *)
Definition py_enumerate {A} (l : list A) : list (Z * A) :=
  imap (λ i x, (Z.of_nat i, x)) l.

(** [sorted(s)] for a set of integers. *)
Definition py_sorted_set (s : gset Z) : list Z :=
  merge_sort Z.le (elements s).

(** [s.split(sep)] for a one-character separator. *)
Fixpoint py_split (sep : Ascii.ascii) (s : string) : list string :=
  match s with
  | EmptyString => [EmptyString]
  | String c s' =>
      if decide (c = sep) then EmptyString :: py_split sep s'
      else match py_split sep s' with
           | [] => [String c EmptyString]
           | w :: ws => String c w :: ws
           end
  end.

(** Truth value of a string: only the empty string is false. *)
Definition str_truthy (s : string) : bool := negb (bool_decide (s = EmptyString)).

(** ** tf/server/data.py *)

(** [int((batch + 1) / 2)]: the quotient is computed in floating point and
    truncated towards zero; it is exact as long as [batch + 1] is below
    2^53, which is the range modelled here. *)
Definition halfBatchOf (batch : Z) : Z := Z.quot (batch + 1) 2.

Definition batchAround (nResults position batch : Z) : Z * Z :=
  let halfBatch := halfBatchOf batch in
  let left := Z.min (Z.max (position - halfBatch) 1) nResults in
  let right := Z.max (Z.min (position + halfBatch) nResults) 1 in
  let discrepancy := batch - (right - left + 1) in
  let right := if decide (discrepancy ≠ 0) then right + discrepancy else right in
  let right := if decide (right > nResults) then nResults else right in
  (left, right).

(** A result row: an index and a tuple of nodes. *)
Abbreviation resultRow := (Z * list Z)%type.

Section Service.
(** What [exposed_search] takes from modules that are not part of the
    sources: [int] and [str.strip] of Python, [runSearch],
    [runSearchCondensed] and [compose] of [tf.apphelpers], and the cache
    that the service shares between its requests. The two search functions
    are called for a pair (results, messages); those of
    [tf/applib/search.py] below return a triple. *)
Context {Cache Table Options : Type}.
Variable py_int : string → string + Z.  (* [inl msg]: raises, [str(e) = msg] *)
Variable py_strip : string → string.
Variable apphelpers_runSearch :
  string → Cache → (list (list Z) * string) * Cache.
Variable apphelpers_runSearchCondensed :
  string → Cache → string → (list (list Z) * string) * Cache.
Variable compose :
  list resultRow → Z → Z → gset Z → bool → string → Options → Table.

(** [tuple(int(n) for n in t.strip().split(','))] *)
Fixpoint parseInts (ws : list string) : string + list Z :=
  match ws with
  | [] => inr []
  | w :: ws' =>
      match py_int w with
      | inl msg => inl msg
      | inr n =>
          match parseInts ws' with
          | inl msg => inl msg
          | inr ns => inr (n :: ns)
          end
      end
  end.

Definition parseTupleLine (t : string) : string + list Z :=
  parseInts (py_split ","%char (py_strip t)).

(** The generator of lines 80-89, consumed by [tuple]: the first line that
    fails to parse raises. *)
Fixpoint parseTupleLines (its : list (Z * string)) : string + list resultRow :=
  match its with
  | [] => inr []
  | (i, t) :: its' =>
      if str_truthy t then
        match parseTupleLine t with
        | inl msg => inl msg
        | inr ns =>
            match parseTupleLines its' with
            | inl msg => inl msg
            | inr rows => inr ((- i - 1, ns) :: rows)
            end
        end
      else parseTupleLines its'
  end.

(** Lines 75-92: the literal tuples and their message. *)
Definition literalTuples (tuples : string) : list resultRow * string :=
  if str_truthy tuples then
    let tupleLines := py_split "010"%char tuples in
    match parseTupleLines (py_enumerate tupleLines) with
    | inr rows => (rows, EmptyString)
    | inl msg => ([], msg)
    end
  else ([], EmptyString).

(** Lines 94-105: the results of the query and its messages. *)
Definition queryPart (query : string) (condensed : bool) (condenseType : string)
    (cache : Cache) : (list (list Z) * string) * Cache :=
  if str_truthy query then
    let '((queryResults, queryMessages), cache') :=
      if condensed && str_truthy condenseType
      then apphelpers_runSearchCondensed query cache condenseType
      else apphelpers_runSearch query cache in
    let queryResults := if str_truthy queryMessages then [] else queryResults in
    ((queryResults, queryMessages), cache')
  else (([], EmptyString), cache).

(** [tuple((n, queryResults[n - 1]) for n in sorted(s))] *)
Fixpoint lookupRows (queryResults : list (list Z)) (ns : list Z) : pyres (list resultRow) :=
  match ns with
  | [] => Ok []
  | n :: ns' =>
      pyres_bind (py_index queryResults (n - 1)) (λ r,
      pyres_bind (lookupRows queryResults ns') (λ rows,
      Ok ((n, r) :: rows)))
  end.

(** Lines 107-122: the window and the merged rows. *)
Definition assembleResults (tupleResults : list resultRow)
    (queryResults : list (list Z)) (opened : gset Z) (position batch : Z)
    : pyres (list resultRow * Z * Z) :=
  let total := Z.of_nat (length tupleResults) + Z.of_nat (length queryResults) in
  let '(start, end_) := batchAround total position batch in
  let selectedResults := py_slice queryResults (start - 1) end_ in
  let before := filter (λ n, n > 0 ∧ n < start) opened in
  let after := filter (λ n, n > end_ ∧ n ≤ Z.of_nat (length queryResults)) opened in
  pyres_bind (lookupRows queryResults (py_sorted_set before)) (λ beforeResults,
  pyres_bind (lookupRows queryResults (py_sorted_set after)) (λ afterResults,
  Ok (tupleResults ++ beforeResults
        ++ map (λ '(i, r), (i + start, r)) (py_enumerate selectedResults)
        ++ afterResults,
      start, total))).

Definition exposed_search (query tuples : string) (condensed : bool)
    (condenseType : string) (batch position : Z) (opened : gset Z)
    (options : Options) (cache : Cache)
    : pyres (Table * string * string * Z * Z) * Cache :=
  let '(tupleResults, tupleMessages) := literalTuples tuples in
  let '((queryResults, queryMessages), cache') :=
    queryPart query condensed condenseType cache in
  (pyres_map
     (λ '(allResults, start, total),
        (compose allResults start position opened condensed condenseType options,
         tupleMessages, queryMessages, start, total))
     (assembleResults tupleResults queryResults opened position batch),
   cache').
End Service.

(** ** tf/applib/search.py *)

(** Tuples of nodes compare as Python tuples do: lexicographically, a proper
    prefix first. *)
Fixpoint tuple_leb (a b : list Z) : bool :=
  match a, b with
  | [], _ => true
  | _ :: _, [] => false
  | x :: a', y :: b' =>
      if decide (x < y) then true
      else if decide (x = y) then tuple_leb a' b'
      else false
  end.

Definition tuple_le (a b : list Z) : Prop := Is_true (tuple_leb a b).

#[global] Instance tuple_le_dec a b : Decision (tuple_le a b) := _.

Definition string_le (a b : string) : Prop := Is_true (String.leb a b).

#[global] Instance string_le_dec a b : Decision (string_le a b) := _.

(** The executed query [exe]: for every query node its type and its feature
    conditions ([qnodes]), and [nodeMap]. *)
Record SearchExe := {
  qnodes : list (string * gmap string string);
  nodeMap : gmap Z (gset string);
}.

Abbreviation featureUsage := (list (Z * list string)).
(** The keys [(query, False)] and [(query, True, condenseType)] of the
    cache. *)
Abbreviation cacheKey := (string * bool * option string)%type.
Abbreviation cacheValue := (list (list Z) * string * featureUsage)%type.

(** The app as [runSearch] sees it. [plainSearch] is [api.S.search], the
    query engine, which is not part of the sources; [S_exe] is [S.exe]. *)
Record App (Sets : Type) := {
  sets : option Sets;
  S_exe : option SearchExe;
  plainSearch : string → option Sets → list (list Z) * string * option SearchExe;
}.
Arguments sets {Sets} _.
Arguments S_exe {Sets} _.
Arguments plainSearch {Sets} _ _ _.

(** The cache (a dictionary that [runSearch] updates in place) and the
    queries handed to the engine so far, most recent last. *)
Record SearchState := {
  cache : gmap cacheKey cacheValue;
  engineCalls : list string;
}.

(** Lines 144-151. *)
Definition featuresOf (exe sExe : option SearchExe) : featureUsage :=
  match exe with
  | Some e =>
      let nodeMap := from_option nodeMap ∅ sExe in
      map (λ '(i, q),
             (i, merge_sort string_le
                   (elements (dom (q.2) ∪ default ∅ (nodeMap !! i)))))
          (py_enumerate (qnodes e))
  | None => []
  end.

Section Search.
Context {Sets : Type}.

Definition runSearch (app : App Sets) (query : string) (st : SearchState)
    : cacheValue * SearchState :=
  let cacheKey := (query, false, None) in
  match cache st !! cacheKey with
  | Some v => (v, st)
  | None =>
      let '(queryResults, messages, exe) := plainSearch app query (sets app) in
      let features := featuresOf exe (S_exe app) in
      let queryResults := merge_sort tuple_le queryResults in
      let v := (queryResults, messages, features) in
      (v, {| cache := <[cacheKey := v]> (cache st);
             engineCalls := engineCalls st ++ [query] |})
  end.

(** [condense] of [tf/applib/condense.py], which is not part of the
    sources. *)
Variable condense : list (list Z) → string → list (list Z).

Definition runSearchCondensed (app : App Sets) (query : string)
    (st : SearchState) (condenseType : string) : cacheValue * SearchState :=
  let cacheKey := (query, true, Some condenseType) in
  match cache st !! cacheKey with
  | Some v => (v, st)
  | None =>
      let '((queryResults, messages, features), st') := runSearch app query st in
      let queryResults := condense queryResults condenseType in
      let v := (queryResults, messages, features) in
      (v, {| cache := <[cacheKey := v]> (cache st');
             engineCalls := engineCalls st' |})
  end.
End Search.

(** ** tf/core/text.py *)

Definition DEFAULT_FORMAT : string := "text-orig-full".
Definition SEP : Ascii.ascii := "-"%char.
Definition TYPE_FMT_SEP : Ascii.ascii := "#"%char.

(** A feature value is an integer or a string. *)
Abbreviation featureValue := (Z + string)%type.

(** A heading: the pairs (node type, feature value) of a structural node
    and its ancestors. *)
Abbreviation heading := (list (string * featureValue)).

(** Keyword arguments handed through to the formatting function. *)
Abbreviation kwargs := (gmap string string).

(** What a format does with a node: the closure [g] built by
    [_compileFormat], or the [func] argument of [text]. *)
Abbreviation repFunc := (Z → kwargs → pyres string).

(** The lines of the trace that [text] writes when [explain] is passed. The
    text of the source interpolates the formatting closure itself, so a
    line is kept as the values it is made of. *)
Inductive explainLine :=
  | ExplCall (single : bool) (nNodes : nat) (fmtTarget : option (string * string))
             (descend : option bool) (func : bool)
  | ExplNode (nType : string) (node : Z)
  | ExplTarget (downType : string) (descendTrue formatTarget noExpansion : bool)
  | ExplExpansion (xnodes : list Z) (downType : option string) (nType : string)
  | ExplFormatting (explicit : bool) (fmt : string) (overridden undefined : bool)
  | ExplMaterial
  | ExplAdds (nType : string) (n : Z) (rep : string).

(** The messages sent to [api.error]. *)
Inductive diag :=
  | StructureNotConfigured               (* structure types are not configured *)
  | NotStructureType (n : Z) (nType : string)
  | NoNodeWithHeading (head : heading)
  | UndefinedFormat (fmt : string)
  | DefaultFormatNotDefined
  | Explain (line : explainLine).

(** A method of [Text] that reports: it reads the messages sent so far and
    gives a value or raises, together with the messages so far. *)
Definition M (A : Type) : Type := list diag → pyres A * list diag.

#[global] Instance M_ret : MRet M := λ A a log, (Ok a, log).
#[global] Instance M_bind : MBind M := λ A B f m log,
  match m log with
  | (Ok a, log') => f a log'
  | (Raise e, log') => (Raise e, log')
  end.

Definition error (d : diag) : M unit := λ log, (Ok tt, log ++ [d]).
Definition raise {A} (e : pyExn) : M A := λ log, (Raise e, log).
Definition lift {A} (r : pyres A) : M A := λ log, (r, log).
Definition when (b : bool) (m : M unit) : M unit := if b then m else mret tt.

Fixpoint mapM {A B} (f : A → M B) (l : list A) : M (list B) :=
  match l with
  | [] => mret []
  | x :: l' => y ← f x; ys ← mapM f l'; mret (y :: ys)
  end.

(** The parts of the TF API that [Text] reads: [F.otype] ([v], [slotType],
    [maxSlot], [all]), [E.oslots.data], [L.u], [L.d] and the data of the
    features, [Fs(ft).data]. *)
Record Api := {
  fOtype : Z → string;
  slotType : string;
  maxSlot : Z;
  otypeAll : list string;
  eoslots : list (list Z);
  L_u : Z → string → list Z;
  L_d : Z → string → list Z;
  Fs : string → gmap Z featureValue;
}.

(** The attributes of a [Text] object that the methods below read. The six
    maps of the structure are [None] when no structure is configured
    (lines 81-90). *)
Record Text := {
  api : Api;
  sectionTypes : list string;
  structureTypeSet : gset string;
  hdFromNd : option (gmap Z heading);
  ndFromHd : option (gmap heading Z);
  hdMult : option (gmap heading (list Z));
  hdTop : option (list Z);
  hdUp : option (gmap Z Z);
  hdDown : option (gmap Z (list Z));
  defaultFormats : gmap string string;
  _xformats : gmap string repFunc;
  _xdTypes : gmap string string;
}.

(** *** Sections *)

(** A member of a section tuple: a node, the empty string or [None]. *)
Inductive secVal :=
  | SecNode (n : Z)
  | SecEmpty
  | SecNone.

(** [r1[0] if r1 else d] *)
Definition firstOr (l : list Z) (d : secVal) : secVal :=
  match l with
  | x :: _ => SecNode x
  | [] => d
  end.

Definition sectionTuple (T : Text) (n : Z) (lastSlot fillup : bool)
    : pyres (list secVal) :=
  let sTypes := sectionTypes T in
  let lsTypes := length sTypes in
  if decide (lsTypes = 0%nat) then Ok [] else
  let A := api T in
  let nType := fOtype A n in
  r ← (if decide (nType = slotType A) then Ok n
       else slots ← py_index (eoslots A) (n - maxSlot A - 1);
            py_index slots (if lastSlot then -1 else 0));
  s0 ← py_index sTypes 0;
  if decide (nType = s0) then
    if fillup then
      s1 ← py_index sTypes 1;
      let r1 := firstOr (L_u A r s1) SecEmpty in
      if decide (2 < lsTypes)%nat then
        s2 ← py_index sTypes 2;
        let r2 := firstOr (L_u A r s2) SecEmpty in
        Ok [SecNode n; r1; r2]
      else Ok [SecNode n; r1]
    else Ok [SecNode n]
  else
    let r0 := firstOr (L_u A r s0) SecNone in
    s1 ← py_index sTypes 1;
    if decide (nType = s1) then
      if fillup && bool_decide (2 < lsTypes)%nat then
        s2 ← py_index sTypes 2;
        let r2 := firstOr (L_u A r s2) SecEmpty in
        Ok [r0; SecNode n; r2]
      else Ok [r0; SecNode n]
    else
      let r1 := firstOr (L_u A r s1) SecEmpty in
      if decide (lsTypes < 3)%nat then Ok [r0; r1] else
      s2 ← py_index sTypes 2;
      if decide (nType = s2) then Ok [r0; r1; SecNode n] else
      let r2 := firstOr (L_u A r s2) SecEmpty in
      Ok [r0; r1; r2].

(** *** Structure *)

Definition top (T : Text) : M (option (list Z)) :=
  match hdTop T with
  | None => error StructureNotConfigured;; mret None
  | Some hdTop => mret (Some hdTop)
  end.

Definition up (T : Text) (n : Z) : M (option Z) :=
  match hdUp T with
  | None => error StructureNotConfigured;; mret None
  | Some hdUp =>
      let nType := fOtype (api T) n in
      if decide (nType ∈ structureTypeSet T) then mret (hdUp !! n)
      else error (NotStructureType n nType);; mret None
  end.

Definition down (T : Text) (n : Z) : M (option (list Z)) :=
  match hdDown T with
  | None => error StructureNotConfigured;; mret None
  | Some hdDown =>
      let nType := fOtype (api T) n in
      if decide (nType ∈ structureTypeSet T) then mret (Some (default [] (hdDown !! n)))
      else error (NotStructureType n nType);; mret None
  end.

Definition headingFromNode (T : Text) (n : Z) : M (option heading) :=
  match hdFromNd T with
  | None => error StructureNotConfigured;; mret None
  | Some hdFromNd =>
      let nType := fOtype (api T) n in
      if decide (nType ∈ structureTypeSet T) then mret (hdFromNd !! n)
      else error (NotStructureType n nType);; mret None
  end.

(** Lines 606-612. When [ndFromHd] is [None] the message is sent and the
    method goes on to [ndFromHd.get], which [None] does not have. *)
Definition nodeFromHeading (T : Text) (head : heading) : M (option Z) :=
  match ndFromHd T with
  | None => error StructureNotConfigured;; raise AttributeError
  | Some ndFromHd =>
      let n := ndFromHd !! head in
      when (bool_decide (n = None)) (error (NoNodeWithHeading head));;
      mret n
  end.

(** The value of [structure]: [None], the tuple of the structures of the
    top nodes, or a node with the structures of its children. *)
#[warnings="-register-all"]
Inductive pyStructure :=
  | StructNone
  | StructTuple (items : list pyStructure)
  | StructNode (node : Z) (children : list pyStructure).

(** [iter(x)] where [x] is a tuple or [None]. *)
Definition py_iter {A} (x : option (list A)) : M (list A) :=
  match x with
  | Some l => mret l
  | None => raise TypeError
  end.

(** [structure] calls itself for every child; [depth] is the number of
    nested calls that the interpreter still allows. *)
Fixpoint structure (depth : nat) (T : Text) (node : option Z) : M pyStructure :=
  match hdTop T with
  | None => error StructureNotConfigured;; mret StructNone
  | Some _ =>
      match depth with
      | O => raise RecursionError
      | S depth' =>
          match node with
          | None =>
              tops ← (top T ≫= py_iter);
              items ← mapM (λ t, structure depth' T (Some t)) tops;
              mret (StructTuple items)
          | Some node =>
              let nType := fOtype (api T) node in
              if decide (nType ∈ structureTypeSet T) then
                ds ← (down T node ≫= py_iter);
                children ← mapM (λ d, structure depth' T (Some d)) ds;
                mret (StructNode node children)
              else error (NotStructureType node nType);; mret StructNone
          end
      end
  end.

(** *** Text formats *)

(** [s.split(sep, maxsplit=1)] when it gives two parts. *)
Fixpoint py_split1 (sep : Ascii.ascii) (s : string) : option (string * string) :=
  match s with
  | EmptyString => None
  | String c s' =>
      if decide (c = sep) then Some (EmptyString, s')
      else '(a, b) ← py_split1 sep s'; Some (String c a, b)
  end.

(** [s.rsplit(sep, maxsplit=1)] when it gives two parts. *)
Fixpoint py_rsplit1 (sep : Ascii.ascii) (s : string) : option (string * string) :=
  match s with
  | EmptyString => None
  | String c s' =>
      match py_rsplit1 sep s' with
      | Some (a, b) => Some (String c a, b)
      | None => if decide (c = sep) then Some (EmptyString, s') else None
      end
  end.

Definition splitFormat (A : Api) (tpl : string) : string * string :=
  match py_split1 TYPE_FMT_SEP tpl with
  | Some (descendType, tpl') =>
      if decide (descendType ∈ otypeAll A) then (descendType, tpl')
      else (slotType A, tpl)
  | None => (slotType A, tpl)
  end.

Definition splitDefaultFormat (A : Api) (tpl : string) : option string :=
  match py_rsplit1 SEP tpl with
  | Some (tp, rest) =>
      if decide (rest = "default"%string ∧ tp ∈ otypeAll A) then Some tp else None
  | None => None
  end.

(** Truth value of a feature value: [0] and the empty string are false. *)
Definition value_truthy (v : featureValue) : bool :=
  match v with
  | inl z => negb (bool_decide (z = 0))
  | inr s => str_truthy s
  end.

(** A reference to features in a format: the features to try, in order, and
    the default. *)
Abbreviation featureRef := (list string * string)%type.

Definition _makeFunc (A : Api) (feat : list string) (default : string)
    : Z → featureValue :=
  match feat with
  | [ft] => λ n, from_option id (inr default) (Fs A ft !! n)
  | [ft1; ft2] =>
      λ n, from_option id (from_option id (inr default) (Fs A ft2 !! n)) (Fs A ft1 !! n)
  | _ =>
      λ n, match list_find is_Some ((λ ft, Fs A ft !! n) <$> feat) with
           | Some (_, Some v) => if value_truthy v then v else inr default
           | _ => inr default
           end
  end.

Section Formats.
(** [str.format] with positional arguments, and the two [replace] calls of
    line 941 that turn the escapes for newline and tab into the
    characters. *)
Variable py_format : string → list featureValue → pyres string.
Variable unescape : string → string.

Definition _compileFormat (A : Api) (rtpl : string) (feats : list featureRef)
    : repFunc :=
  let replaceFuncs := map (λ '(feat, default), _makeFunc A feat default) feats in
  λ n _, py_format rtpl (map (λ replaceFunc, replaceFunc n) replaceFuncs).

(** One round of the loop of [_compileFormats]. Line 938 tests the truth
    value of [defaultType]: [None] and the empty string, the name of a node
    type that is empty, both count as false. *)
Definition compileStep (T : Text) (item : string * (string * list featureRef))
    : Text :=
  let '(fmt, (rtpl, feats)) := item in
  let A := api T in
  let defaultFormats :=
    match splitDefaultFormat A fmt with
    | Some defaultType =>
        if str_truthy defaultType then <[defaultType := fmt]> (defaultFormats T)
        else defaultFormats T
    | None => defaultFormats T
    end in
  let '(descendType, rtpl) := splitFormat A rtpl in
  let tpl := unescape rtpl in
  {| api := A;
     sectionTypes := sectionTypes T;
     structureTypeSet := structureTypeSet T;
     hdFromNd := hdFromNd T;
     ndFromHd := ndFromHd T;
     hdMult := hdMult T;
     hdTop := hdTop T;
     hdUp := hdUp T;
     hdDown := hdDown T;
     defaultFormats := defaultFormats;
     _xformats := <[fmt := _compileFormat A tpl feats]> (_xformats T);
     _xdTypes := <[fmt := descendType]> (_xdTypes T) |}.

(** [sorted(cformats.items())] *)
Definition sortedItems {V} (d : gmap string V) : list (string * V) :=
  merge_sort (λ a b, string_le a.1 b.1) (map_to_list d).

(** [_compileFormats]: the tables [_xformats] and [_xdTypes] start empty;
    [defaultFormats] is the one that [__init__] has set up (empty). *)
Definition _compileFormats (T : Text)
    (cformats : gmap string (string * list featureRef)) : Text :=
  foldl compileStep
    {| api := api T;
       sectionTypes := sectionTypes T;
       structureTypeSet := structureTypeSet T;
       hdFromNd := hdFromNd T;
       ndFromHd := ndFromHd T;
       hdMult := hdMult T;
       hdTop := hdTop T;
       hdUp := hdUp T;
       hdDown := hdDown T;
       defaultFormats := defaultFormats T;
       _xformats := ∅;
       _xdTypes := ∅ |}
    (sortedItems cformats).
End Formats.

(** *** The method [text] *)

(** The argument [nodes]: a single node (a Python [int]) or an iterable of
    nodes. *)
Inductive nodesArg :=
  | OneNode (n : Z)
  | Nodes (l : list Z).

(** [fmt] where the source tests [if fmt]: [None] and the empty string count
    as not given. *)
Definition givenFmt (fmt : option string) : option string :=
  match fmt with
  | Some f => if str_truthy f then Some f else None
  | None => None
  end.

(** What lines 818-864 settle for one node: the format, by the name under
    which it is found in [_xformats] and as the closure [repf], and the type
    [downType] to descend to. [res_explicit] and [res_formatTarget] only
    serve the trace. *)
Record resolved := {
  res_explicit : bool;
  res_fmt : string;
  res_repf : repFunc;
  res_downType : string;
  res_formatTarget : bool;
}.

(** Lines 818-864. *)
Definition resolveFormat (T : Text) (fmt : option string) (descend : option bool)
    (nType : string) : pyres resolved :=
  match descend with
  | Some true =>
      match givenFmt fmt with
      | Some f =>
          repf ← py_getitem (_xformats T) f;
          downType ← py_getitem (_xdTypes T) f;
          Ok {| res_explicit := true; res_fmt := f; res_repf := repf;
                res_downType := downType; res_formatTarget := true |}
      | None =>
          repf ← py_getitem (_xformats T) DEFAULT_FORMAT;
          downType ← py_getitem (_xdTypes T) DEFAULT_FORMAT;
          Ok {| res_explicit := false; res_fmt := DEFAULT_FORMAT; res_repf := repf;
                res_downType := downType; res_formatTarget := true |}
      end
  | _ =>
      let isNone := bool_decide (descend = None) in
      match givenFmt fmt with
      | Some f =>
          repf ← py_getitem (_xformats T) f;
          downType ← (if isNone then py_getitem (_xdTypes T) f else Ok nType);
          Ok {| res_explicit := true; res_fmt := f; res_repf := repf;
                res_downType := downType; res_formatTarget := isNone |}
      | None =>
          match defaultFormats T !! nType with
          | Some dfmt =>
              repf ← py_getitem (_xformats T) dfmt;
              Ok {| res_explicit := false; res_fmt := dfmt; res_repf := repf;
                    res_downType := nType; res_formatTarget := isNone |}
          | None =>
              repf ← py_getitem (_xformats T) DEFAULT_FORMAT;
              downType ← (if isNone then py_getitem (_xdTypes T) DEFAULT_FORMAT
                          else Ok nType);
              Ok {| res_explicit := false; res_fmt := DEFAULT_FORMAT; res_repf := repf;
                    res_downType := downType; res_formatTarget := isNone |}
          end
      end
  end.

(** Lines 868-871: [downType] becomes [None] when it is the type of the
    node. *)
Definition ownTypeToNone (nType downType : string) : option string :=
  if decide (downType = nType) then None else Some downType.

(** Lines 878-885: the nodes to format in place of the node. *)
Definition expand (T : Text) (node : Z) (downType : option string)
    : pyres (list Z) :=
  let A := api T in
  match downType with
  | Some d =>
      if decide (d = slotType A) then py_index (eoslots A) (node - maxSlot A - 1)
      else if str_truthy d then Ok (L_d A node d)
      else Ok [node]
  | None => Ok [node]
  end.

(** Line 782. *)
Definition rescue (A : Api) : repFunc :=
  λ n _, Ok (fOtype A n +:+ pretty n).

(** Lines 905-909. *)
Fixpoint addMaterial (A : Api) (repf : repFunc) (kw : kwargs) (explain : bool)
    (xnodes : list Z) (material : list string) : M (list string) :=
  match xnodes with
  | [] => mret material
  | n :: xnodes' =>
      rep ← lift (repf n kw);
      when explain (error (Explain (ExplAdds (fOtype A n) n rep)));;
      addMaterial A repf kw explain xnodes' (material ++ [rep])
  end.

(** One round of the loop of lines 814-909. A format and a [func] are
    functions, which count as true, so that [repf] is [Some] of a function
    when line 894 tests it. *)
Definition textNode (T : Text) (fmt : option string) (descend : option bool)
    (func : option repFunc) (explain : bool) (kw : kwargs)
    (node : Z) (state : list string * bool) : M (list string * bool) :=
  let '(material, good) := state in
  let A := api T in
  let nType := fOtype A node in
  when explain (error (Explain (ExplNode nType node)));;
  res ← lift (resolveFormat T fmt descend nType);
  let downType := ownTypeToNone nType (res_downType res) in
  when explain
    (error (Explain (ExplTarget (res_downType res)
                       (bool_decide (descend = Some true))
                       (res_formatTarget res)
                       (bool_decide (downType = None)))));;
  xnodes ← lift (expand T node downType);
  when explain (error (Explain (ExplExpansion xnodes downType nType)));;
  let repf : option repFunc :=
    match func with
    | Some f => Some f
    | None => Some (res_repf res)
    end in
  let '(repf, good, undefined) :=
    match repf with
    | Some g => (g, good, false)
    | None => (rescue A, false, true)
    end in
  when explain
    (error (Explain (ExplFormatting (res_explicit res) (res_fmt res)
                       (bool_decide (is_Some func)) undefined));;
     error (Explain ExplMaterial));;
  material ← addMaterial A repf kw explain xnodes material;
  mret (material, good).

Fixpoint textLoop (T : Text) (fmt : option string) (descend : option bool)
    (func : option repFunc) (explain : bool) (kw : kwargs)
    (nodes : list Z) (state : list string * bool) : M (list string * bool) :=
  match nodes with
  | [] => mret state
  | node :: nodes' =>
      state ← textNode T fmt descend func explain kw node state;
      textLoop T fmt descend func explain kw nodes' state
  end.

(** Lines 797-812: the head of the trace. *)
Definition explainCall (T : Text) (single : bool) (nodes : list Z)
    (fmt : option string) (descend : option bool) (func : option repFunc) : M unit :=
  fmtRep ← lift (match givenFmt fmt with
                 | Some f => d ← py_getitem (_xdTypes T) f; Ok (Some (f, d))
                 | None => Ok None
                 end);
  error (Explain (ExplCall single (length nodes) fmtRep descend
                    (bool_decide (is_Some func)))).

Definition text (T : Text) (nodes : nodesArg) (fmt : option string)
    (descend : option bool) (func : option repFunc) (explain : bool)
    (kw : kwargs) : M string :=
  let undefined :=
    match givenFmt fmt with
    | Some f => if _xformats T !! f is None then Some f else None
    | None => None
    end in
  match undefined with
  | Some f => error (UndefinedFormat f);; mret EmptyString
  | None =>
      let single := if nodes is OneNode _ then true else false in
      let nodes := match nodes with
                   | OneNode n => [n]
                   | Nodes l => l
                   end in
      when explain (explainCall T single nodes fmt descend func);;
      '(material, good) ← textLoop T fmt descend func explain kw nodes ([], true);
      when (negb good) (error DefaultFormatNotDefined);;
      mret (String.concat EmptyString material)
  end.

(** *** The heading maps of the structure *)

(** Modelled from the spec: the construction of the heading maps
    ([C.structure.data], computed by [tf/core/prepare.py], which is not part
    of the sources). The structural nodes are visited in corpus order, each
    with its heading; the node-to-heading map gets every node, the
    heading-to-node map keeps the last node met for a heading, and the
    multiplicity map collects, for every heading met more than once, all the
    nodes that carry it. *)
Record headingIndex := {
  ix_hdFromNd : gmap Z heading;
  ix_ndFromHd : gmap heading Z;
  ix_hdMult : gmap heading (list Z);
}.

Definition headingIndexStep (ix : headingIndex) (item : Z * heading) : headingIndex :=
  let '(n, hd) := item in
  {| ix_hdFromNd := <[n := hd]> (ix_hdFromNd ix);
     ix_ndFromHd := <[hd := n]> (ix_ndFromHd ix);
     ix_hdMult :=
       match ix_ndFromHd ix !! hd with
       | Some m =>
           match ix_hdMult ix !! hd with
           | Some ms => <[hd := ms ++ [n]]> (ix_hdMult ix)
           | None => <[hd := [m; n]]> (ix_hdMult ix)
           end
       | None => ix_hdMult ix
       end |}.

Definition buildHeadingIndex (nodes : list (Z * heading)) : headingIndex :=
  foldl headingIndexStep
    {| ix_hdFromNd := ∅; ix_ndFromHd := ∅; ix_hdMult := ∅ |} nodes.

(** A [Text] whose heading maps are those of an index. *)
Definition withHeadingIndex (T : Text) (ix : headingIndex) : Text :=
  {| api := api T;
     sectionTypes := sectionTypes T;
     structureTypeSet := structureTypeSet T;
     hdFromNd := Some (ix_hdFromNd ix);
     ndFromHd := Some (ix_ndFromHd ix);
     hdMult := Some (ix_hdMult ix);
     hdTop := hdTop T;
     hdUp := hdUp T;
     hdDown := hdDown T;
     defaultFormats := defaultFormats T;
     _xformats := _xformats T;
     _xdTypes := _xdTypes T |}.

(** *** Names of sections *)

(** What [__init__] adds for the sections (lines 99-120), and
    [C.sections.data], the maps from the labels of the second and third
    level to nodes, which [tf/core/prepare.py] computes. *)
Record SectionData := {
  languages : gset string;
  nameFromNode : gmap string (gmap Z featureValue);
  nodeFromName : gmap string (gmap (string * featureValue) Z);
  sectionFeatures : list (gmap Z featureValue);
  sec1 : gmap Z (gmap featureValue Z);
  sec2 : gmap Z (gmap featureValue (gmap featureValue Z));
}.

(** Line 110: [dict(((fOtype(node), name), node) for (node, name) in
    cData.items())]; a later item replaces an earlier one with the same
    key. *)
Definition namesToNodes (A : Api) (items : list (Z * featureValue))
    : gmap (string * featureValue) Z :=
  foldl (λ d '(node, name), <[(fOtype A node, name) := node]> d) ∅ items.

(** One round of the loop of lines 101-112, for a feature with language
    code [code] whose data has the items [items], in the order of the
    dictionary. *)
Definition languageStep (A : Api) (S : SectionData)
    (feature : string * list (Z * featureValue)) : SectionData :=
  let '(code, items) := feature in
  {| languages := {[ code ]} ∪ languages S;
     nameFromNode := <[code := list_to_map items]> (nameFromNode S);
     nodeFromName := <[code := namesToNodes A items]> (nodeFromName S);
     sectionFeatures := sectionFeatures S;
     sec1 := sec1 S;
     sec2 := sec2 S |}.

(** Lines 100-116: nothing is set up unless section types and section
    features are both declared. *)
Definition initSections (T : Text)
    (featsWithLanguage : list (string * list (Z * featureValue)))
    (sectionFeats : list string)
    (sec1 : gmap Z (gmap featureValue Z))
    (sec2 : gmap Z (gmap featureValue (gmap featureValue Z))) : SectionData :=
  let empty := {| languages := ∅; nameFromNode := ∅; nodeFromName := ∅;
                  sectionFeatures := []; sec1 := sec1; sec2 := sec2 |} in
  if bool_decide (length sectionFeats ≠ 0%nat)
     && bool_decide (length (sectionTypes T) ≠ 0%nat)
  then
    let S := foldl (languageStep (api T)) empty featsWithLanguage in
    {| languages := languages S;
       nameFromNode := nameFromNode S;
       nodeFromName := nodeFromName S;
       sectionFeatures := (λ fName, Fs (api T) fName) <$> sectionFeats;
       sec1 := sec1;
       sec2 := sec2 |}
  else empty.

(** [lang] when it is one of [self.languages], else the empty string. *)
Definition languageKey (S : SectionData) (lang : string) : string :=
  if decide (lang ∈ languages S) then lang else EmptyString.

Definition _sec0Name (T : Text) (S : SectionData) (n : Z) (lang : string)
    : pyres featureValue :=
  sec0T ← py_index (sectionTypes T) 0;
  refNode ← (if decide (fOtype (api T) n = sec0T) then Ok n
             else py_index (L_u (api T) n sec0T) 0);
  lookup ← py_getitem (nameFromNode S) (languageKey S lang);
  Ok (default (inr ("not a " +:+ sec0T +:+ " node")) (lookup !! refNode)).

Definition _sec0Node (T : Text) (S : SectionData) (name : featureValue)
    (lang : string) : pyres (option Z) :=
  sec0T ← py_index (sectionTypes T) 0;
  lookup ← py_getitem (nodeFromName S) (languageKey S lang);
  Ok (lookup !! (sec0T, name)).

(** The label of member [i] of a section tuple (lines 267-271). A member
    that is the empty string is no key of a feature, and no node for
    [_sec0Name] to take the type of. *)
Definition sectionLabel (T : Text) (S : SectionData) (lang : string)
    (i : Z) (member : secVal) : pyres (option featureValue) :=
  match member with
  | SecNone => Ok (Some (inr EmptyString))
  | SecNode n =>
      if decide (i = 0) then name ← _sec0Name T S n lang; Ok (Some name)
      else sF ← py_index (sectionFeatures S) i; Ok (sF !! n)
  | SecEmpty =>
      if decide (i = 0) then Raise TypeError
      else sF ← py_index (sectionFeatures S) i; Ok None
  end.

Fixpoint sectionLabels (T : Text) (S : SectionData) (lang : string)
    (members : list (Z * secVal)) : pyres (list (option featureValue)) :=
  match members with
  | [] => Ok []
  | (i, member) :: members' =>
      label ← sectionLabel T S lang i member;
      labels ← sectionLabels T S lang members';
      Ok (label :: labels)
  end.

Definition sectionFromNode (T : Text) (S : SectionData) (n : Z)
    (lastSlot : bool) (lang : string) (fillup : bool)
    : pyres (list (option featureValue)) :=
  sTuple ← sectionTuple T n lastSlot fillup;
  if decide (length sTuple = 0%nat) then Ok []
  else sectionLabels T S lang (py_enumerate sTuple).

Definition nodeFromSection (T : Text) (S : SectionData)
    (section : list featureValue) (lang : string) : pyres (option Z) :=
  if decide (length (sectionTypes T) = 0%nat) then Ok None else
  label0 ← py_index section 0;
  sec0node ← _sec0Node T S label0 lang;
  if decide (length section = 1%nat) then Ok sec0node
  else if decide (length section = 2%nat) then
    label1 ← py_index section 1;
    Ok (chapters ← (sec0node ≫= λ n, sec1 S !! n); chapters !! label1)
  else
    label1 ← py_index section 1;
    label2 ← py_index section 2;
    Ok (chapters ← (sec0node ≫= λ n, sec2 S !! n);
        verses ← chapters !! label1;
        verses !! label2).

(** ** The function [search] of tf/applib/search.py *)

(** What [S.search] hands back: something that can be run through again
    (a list, a tuple, a set), or a generator, which yields its items once:
    [GeneratorOf l] is a generator that still has the items [l] to yield. *)
Inductive pyIterable (A : Type) :=
  | Collection (l : list A)
  | GeneratorOf (l : list A).
Arguments Collection {A} l.
Arguments GeneratorOf {A} l.

(** [list(x)]: the items, and what is left of [x]. *)
Definition py_list {A} (x : pyIterable A) : list A * pyIterable A :=
  match x with
  | Collection l => (l, Collection l)
  | GeneratorOf l => (l, GeneratorOf [])
  end.

(** The keys of the items, as [list.sort] computes them before it sorts:
    the first key that raises ends it. *)
Fixpoint keyed {A K} (key : A → pyres K) (l : list A) : pyres (list (K * A)) :=
  match l with
  | [] => Ok []
  | x :: l' => k ← key x; ks ← keyed key l'; Ok ((k, x) :: ks)
  end.

(** Items with their keys compare by their keys. *)
Definition byKey {A K} (le : relation K) : relation (K * A) :=
  λ a b, le a.1 b.1.

#[global] Instance byKey_dec {A K} (le : relation K) `{!RelDecision le} :
  RelDecision (byKey (A:=A) le) := λ a b, decide_rel le a.1 b.1.

(** [sorted] is stable: items that compare equal keep the order in which
    they came. Sorting is modelled by insertion from the right, where an
    item goes before the first item that is not smaller: before the items
    that compare equal to it, which came after it. *)
Fixpoint insertSorted {A} (R : relation A) `{!RelDecision R} (x : A) (l : list A)
    : list A :=
  match l with
  | [] => [x]
  | y :: l' => if decide (R x y) then x :: y :: l' else y :: insertSorted R x l'
  end.

Definition stableSort {A} (R : relation A) `{!RelDecision R} (l : list A) : list A :=
  foldr (insertSorted R) [] l.

(** The items in the order of their keys. *)
Definition sortByKey {A K} (le : relation K) `{!RelDecision le}
    (ks : list (K * A)) : list A :=
  (stableSort (byKey le) ks).*2.

(** [sorted(x, key=key)]: the items are collected (which uses up a
    generator), the keys are computed, and the items are put in the order
    of their keys. *)
Definition py_sorted_key {A K} (le : relation K) `{!RelDecision le}
    (key : A → pyres K) (x : pyIterable A) : pyres (list A) * pyIterable A :=
  let '(l, x') := py_list x in
  (ks ← keyed key l; Ok (sortByKey le ks), x').

(** The argument [sort]: a false value, [True], or anything else, which is
    used as a key function. *)
Inductive sortArg (K : Type) :=
  | SortOff
  | SortCanonical
  | SortKey (key : list Z → pyres K).
Arguments SortOff {K}.
Arguments SortCanonical {K}.
Arguments SortKey {K} key.

(** What [search] does besides returning: the warning on the console, the
    call of [app.displaySetup], the message for [info] (which is not shown
    when silent), and the silent flag it leaves. *)
Record searchEffects := {
  warned : bool;
  displayed : option featureUsage;
  reported : option string;
  silentAfter : bool;
}.

Section AppSearch.
(** The parts of the app that are not in the sources: the engine [S.search],
    which gives the results and leaves [S.exe], [api.sortKeyTuple] with the
    order of its keys, and the silent flag. The result of a shallow search
    is kept as the engine gives it. *)
Context {Sets K : Type}.
Variable le : relation K.
Context `{!RelDecision le}.
Variable S_search :
  string → option Sets → nat → pyIterable (list Z) * option SearchExe.
Variable sortKeyTuple : list Z → K.

Definition search (query : string) (silent : bool) (sets : option Sets)
    (shallow : nat) (sort : sortArg K) (wasSilent : bool)
    : pyres (pyIterable (list Z)) * searchEffects :=
  let '(results, exe) := S_search query sets shallow in
  let '(results, warned, displayed) :=
    if bool_decide (shallow = 0%nat) then
      let '(results, warned) :=
        match sort with
        | SortOff => (Collection (py_list results).1, false)
        | SortCanonical =>
            (Collection
               (sortByKey le ((λ t, (sortKeyTuple t, t)) <$> (py_list results).1)),
             false)
        | SortKey key =>
            match py_sorted_key le key results with
            | (Ok sortedResults, _) => (Collection sortedResults, false)
            | (Raise _, results') => (Collection (py_list results').1, true)
            end
        end in
      (results, warned,
       match exe with
       | Some _ => Some (featuresOf exe exe)
       | None => None
       end)
    else (results, false, None) in
  let effects nResults :=
    {| warned := warned;
       displayed := displayed;
       reported :=
         if silent then None
         else Some (pretty nResults +:+ " result"
                    +:+ (if decide (nResults = 1%nat) then EmptyString else "s"%string));
       silentAfter := wasSilent |} in
  match results with
  | Collection l => (Ok results, effects (length l))
  | GeneratorOf _ =>
      (Raise TypeError,
       {| warned := warned; displayed := displayed; reported := None;
          silentAfter := wasSilent |})
  end.
End AppSearch.

(** * Properties *)

(** ** The window of [batchAround] *)

(** The number of positions from [left] to [right], both included. *)
Definition windowWidth (w : Z * Z) : Z := w.2 - w.1 + 1.

(** Whatever the discrepancy, the right edge ends as [left + batch - 1],
    cut off at [nResults]. *)
Lemma batchAround_closed_form (n p b : Z) :
  batchAround n p b =
    (Z.min (Z.max (p - halfBatchOf b) 1) n,
     Z.min (Z.min (Z.max (p - halfBatchOf b) 1) n + b - 1) n).
Proof.
  unfold batchAround. cbv zeta.
  repeat case_decide; f_equal; lia.
Qed.

(** C9: with at least one result and a positive batch size, the window of
    [batchAround] lies within the results, whatever the position:
    [1 <= left <= right <= nResults]. *)
Theorem batchAround_within (n p b : Z) :
  0 < n → 0 < b →
  1 ≤ (batchAround n p b).1
  ∧ (batchAround n p b).1 ≤ (batchAround n p b).2
  ∧ (batchAround n p b).2 ≤ n.
Proof.
  intros Hn Hb. rewrite batchAround_closed_form. simpl. lia.
Qed.

Lemma batchAround_within_witness :
  1 ≤ (batchAround 100 50 10).1
  ∧ (batchAround 100 50 10).1 ≤ (batchAround 100 50 10).2
  ∧ (batchAround 100 50 10).2 ≤ 100.
Proof. apply (batchAround_within 100 50 10); lia. Defined.

(** C2, as stated, fails: at the right end of the results the window is cut
    off and not moved to the left, so that position 100 of 100 results with
    batch size 10 gets 6 rows, not 10; and without results the window is
    [(0, 0)], for which [right - left + 1] is 1. *)
Lemma batchAround_width_cut_off :
  batchAround 100 100 10 = (95, 100)
  ∧ windowWidth (batchAround 100 100 10) = 6
  ∧ Z.min 10 100 = 10
  ∧ batchAround 0 1 10 = (0, 0)
  ∧ windowWidth (batchAround 0 1 10) = 1.
Proof. repeat split; reflexivity. Qed.

(** C2, amended: for a positive batch size, the window over [n > 0] results
    has width [min b (n - left + 1)]; this is [min b n] whenever the window
    is not cut off at the right end, that is when
    [p - halfBatch <= max 1 (n - b + 1)]; without results the window is
    [(0, 0)]; and the three examples of the claim hold. *)
Theorem batchAround_width (n p b : Z) :
  0 < b →
  (0 < n →
     windowWidth (batchAround n p b) = Z.min b (n - (batchAround n p b).1 + 1))
  ∧ (0 < n → p - halfBatchOf b ≤ Z.max 1 (n - b + 1) →
     windowWidth (batchAround n p b) = Z.min b n)
  ∧ (n = 0 → batchAround n p b = (0, 0))
  ∧ batchAround 100 50 10 = (45, 54)
  ∧ batchAround 100 3 10 = (1, 10)
  ∧ batchAround 5 3 10 = (1, 5).
Proof.
  intros Hb. rewrite batchAround_closed_form. unfold windowWidth. simpl.
  repeat split; try reflexivity; intros; try lia.
  subst n. f_equal; lia.
Qed.

Lemma batchAround_width_witness :
  (0 < 37 →
     windowWidth (batchAround 37 1 10) = Z.min 10 (37 - (batchAround 37 1 10).1 + 1))
  ∧ (0 < 37 → 1 - halfBatchOf 10 ≤ Z.max 1 (37 - 10 + 1) →
     windowWidth (batchAround 37 1 10) = Z.min 10 37)
  ∧ (37 = 0 → batchAround 37 1 10 = (0, 0))
  ∧ batchAround 100 50 10 = (45, 54)
  ∧ batchAround 100 3 10 = (1, 10)
  ∧ batchAround 5 3 10 = (1, 5).
Proof. apply (batchAround_width 37 1 10). lia. Defined.

(** ** The cache of [runSearch] *)

(** On a miss [runSearch] asks the engine once and stores what it returns:
    the results of the engine in sorted order, its messages, and the
    features. *)
Lemma runSearch_miss {Sets : Type} (app : App Sets) (query : string)
    (st : SearchState) :
  cache st !! (query, false, None) = None →
  let v := (merge_sort tuple_le (plainSearch app query (sets app)).1.1,
            (plainSearch app query (sets app)).1.2,
            featuresOf (plainSearch app query (sets app)).2 (S_exe app)) in
  runSearch app query st
  = (v, {| cache := <[(query, false, None) := v]> (cache st);
           engineCalls := engineCalls st ++ [query] |}).
Proof.
  intros Hmiss v. unfold runSearch. rewrite Hmiss. subst v.
  by destruct (plainSearch app query (sets app)) as [[rs msgs] exe].
Qed.

(** On a hit [runSearch] returns the entry of the cache and changes
    nothing: the engine is not asked. *)
Lemma runSearch_hit {Sets : Type} (app : App Sets) (query : string)
    (st : SearchState) (v : cacheValue) :
  cache st !! (query, false, None) = Some v → runSearch app query st = (v, st).
Proof. intros Hhit. unfold runSearch. by rewrite Hhit. Qed.

(** C5: after a first call of [runSearch] the cache has an entry under the
    key of the query, and that entry is the value the call returned: the
    one that was there before, or, if there was none, the results of the
    engine in sorted order with its messages and the features, for which
    the engine was asked once. A second call with the same query returns
    that entry of the cache; it leaves the cache and the list of the calls
    of the engine as the first call left them: the engine is not asked
    again. *)
Theorem runSearch_twice {Sets : Type} (app : App Sets) (query : string)
    (st : SearchState) :
  let first := runSearch app query st in
  let second := runSearch app query first.2 in
  cache first.2 !! (query, false, None) = Some first.1
  ∧ cache first.2 !! (query, false, None) = Some second.1
  ∧ second.2 = first.2
  ∧ engineCalls second.2 = engineCalls first.2
  ∧ (∀ v, cache st !! (query, false, None) = Some v → first = (v, st))
  ∧ (cache st !! (query, false, None) = None →
     first.1 = (merge_sort tuple_le (plainSearch app query (sets app)).1.1,
                (plainSearch app query (sets app)).1.2,
                featuresOf (plainSearch app query (sets app)).2 (S_exe app))
     ∧ engineCalls first.2 = engineCalls st ++ [query]).
Proof.
  intros first second.
  assert (Hentry : cache first.2 !! (query, false, None) = Some first.1).
  { subst first.
    destruct (cache st !! (query, false, None)) as [v|] eqn:Hhit.
    - by rewrite (runSearch_hit app query st v Hhit).
    - rewrite (runSearch_miss app query st Hhit). simpl.
      by rewrite lookup_insert_eq. }
  assert (Hsecond : second = (first.1, first.2))
    by (subst second; by apply runSearch_hit).
  rewrite Hsecond. simpl.
  split; [done|]. split; [done|]. split; [done|]. split; [done|]. split.
  - intros v Hhit. subst first. by apply runSearch_hit.
  - intros Hmiss. subst first. by rewrite (runSearch_miss app query st Hmiss).
Qed.

(** An engine that reports a problem and yet gives results. *)
Definition complainingApp : App unit := {|
  sets := None;
  S_exe := None;
  plainSearch := λ _ _, ([[3]; [1; 2]], "bad syntax"%string, None);
|}.

Definition emptySearchState : SearchState :=
  {| cache := ∅; engineCalls := [] |}.

(** An engine that reports a problem and gives no results. *)
Definition failingApp : App unit := {|
  sets := None;
  S_exe := None;
  plainSearch := λ _ _, ([], "bad syntax"%string, None);
|}.

(** The searches as the service calls them, for the results and the
    messages. [tf.apphelpers], from which [data.py] takes them, is not part
    of the sources; they are taken to be [runSearch] and
    [runSearchCondensed] of [tf/applib/search.py], of whose value the
    service reads the results and the messages. *)
Definition servedSearch {Sets : Type} (app : App Sets) (query : string)
    (st : SearchState) : (list (list Z) * string) * SearchState :=
  let '((queryResults, messages, _), st') := runSearch app query st in
  ((queryResults, messages), st').

Definition servedSearchCondensed {Sets : Type}
    (condense : list (list Z) → string → list (list Z)) (app : App Sets)
    (query : string) (st : SearchState) (condenseType : string)
    : (list (list Z) * string) * SearchState :=
  let '((queryResults, messages, _), st') :=
    runSearchCondensed condense app query st condenseType in
  ((queryResults, messages), st').

(** C4: when the engine reports diagnostics for a query that is not in the
    cache (plain, nor condensed when the request is for condensed results),
    the query as the service runs it (lines 94-105 of [data.py] over
    [runSearch], plain or condensed) returns no results together with
    those diagnostics, whatever results the engine gave; the engine is
    asked once, and the cache gets an entry under the key of the query,
    with the diagnostics in it; a second identical query gets the same
    answer, the cache and the list of the calls of the engine stay as they
    are: the engine is not asked again. *)
Theorem runQuery_failure {Sets : Type} (app : App Sets)
    (condense : list (list Z) → string → list (list Z))
    (query : string) (condensed : bool) (condenseType : string)
    (st : SearchState) :
  str_truthy query = true →
  cache st !! (query, false, None) = None →
  (condensed && str_truthy condenseType = true →
   cache st !! (query, true, Some condenseType) = None) →
  str_truthy (plainSearch app query (sets app)).1.2 = true →
  let runQuery :=
    queryPart (servedSearch app) (servedSearchCondensed condense app)
      query condensed condenseType in
  let messages := (plainSearch app query (sets app)).1.2 in
  (runQuery st).1 = ([], messages)
  ∧ cache (runQuery st).2 !! (query, false, None)
    = Some (merge_sort tuple_le (plainSearch app query (sets app)).1.1,
            messages,
            featuresOf (plainSearch app query (sets app)).2 (S_exe app))
  ∧ engineCalls (runQuery st).2 = engineCalls st ++ [query]
  ∧ runQuery (runQuery st).2 = (([], messages), (runQuery st).2).
Proof.
  intros Hquery Hmiss HmissC Hmessages runQuery messages.
  pose proof (runSearch_miss app query st Hmiss) as Hrun. cbv zeta in Hrun.
  fold messages in Hrun, Hmessages.
  set (v := (merge_sort tuple_le (plainSearch app query (sets app)).1.1, messages,
             featuresOf (plainSearch app query (sets app)).2 (S_exe app)))
    in Hrun |- *.
  set (st1 := {| cache := <[(query, false, None) := v]> (cache st);
                 engineCalls := engineCalls st ++ [query] |}) in Hrun.
  subst runQuery. unfold queryPart. rewrite Hquery.
  destruct (condensed && str_truthy condenseType) eqn:Hcondensed.
  - specialize (HmissC eq_refl).
    set (vc := (condense v.1.1 condenseType, messages,
                featuresOf (plainSearch app query (sets app)).2 (S_exe app))).
    set (st2 := {| cache := <[(query, true, Some condenseType) := vc]> (cache st1);
                   engineCalls := engineCalls st1 |}).
    assert (Hfirst : servedSearchCondensed condense app query st condenseType
                     = ((condense v.1.1 condenseType, messages), st2)).
    { unfold servedSearchCondensed, runSearchCondensed. by rewrite HmissC, Hrun. }
    assert (Hsecond : servedSearchCondensed condense app query st2 condenseType
                      = ((condense v.1.1 condenseType, messages), st2)).
    { unfold servedSearchCondensed, runSearchCondensed. simpl.
      by rewrite lookup_insert_eq. }
    rewrite Hfirst. simpl. rewrite Hmessages. simpl.
    split; [done|]. split.
    { rewrite lookup_insert_ne by congruence. by rewrite lookup_insert_eq. }
    split; [done|]. by rewrite Hsecond, Hmessages.
  - assert (Hfirst : servedSearch app query st = ((v.1.1, messages), st1)).
    { unfold servedSearch. by rewrite Hrun. }
    assert (Hsecond : servedSearch app query st1 = ((v.1.1, messages), st1)).
    { unfold servedSearch.
      rewrite (runSearch_hit app query st1 v); [done|].
      simpl. by rewrite lookup_insert_eq. }
    rewrite Hfirst. simpl. rewrite Hmessages. simpl.
    split; [done|]. split; [by rewrite lookup_insert_eq|].
    split; [done|]. by rewrite Hsecond, Hmessages.
Qed.

Lemma runQuery_failure_witness :
  let runQuery :=
    queryPart (servedSearch failingApp) (servedSearchCondensed (λ rs _, rs) failingApp)
      "word" false EmptyString in
  (runQuery emptySearchState).1 = ([], "bad syntax"%string)
  ∧ cache (runQuery emptySearchState).2 !! ("word"%string, false, None)
    = Some (merge_sort tuple_le [], "bad syntax"%string, featuresOf None None)
  ∧ engineCalls (runQuery emptySearchState).2 = [] ++ ["word"%string]
  ∧ runQuery (runQuery emptySearchState).2
    = (([], "bad syntax"%string), (runQuery emptySearchState).2).
Proof.
  apply (runQuery_failure failingApp (λ rs _, rs) "word" false EmptyString
           emptySearchState); reflexivity.
Defined.

(** The service empties the results of a query that came with messages,
    after the call; the cache is not touched by that. *)
Lemma queryPart_drops_results {Cache : Type}
    (search : string → Cache → (list (list Z) * string) * Cache)
    (searchCondensed : string → Cache → string → (list (list Z) * string) * Cache)
    (query : string) (cache : Cache) :
  str_truthy query = true →
  str_truthy (search query cache).1.2 = true →
  queryPart search searchCondensed query false EmptyString cache
  = (([], (search query cache).1.2), (search query cache).2).
Proof.
  intros Hq Hm. unfold queryPart. rewrite Hq. simpl.
  destruct (search query cache) as [[rs msgs] c']. simpl in *. by rewrite Hm.
Qed.

(** ** Structure that is not configured *)

(** A [Text] without sections, structure and formats over a corpus of three
    words. *)
Definition bareApi : Api := {|
  fOtype := λ n, if decide (n ≤ 3) then "word"%string else "book"%string;
  slotType := "word";
  maxSlot := 3;
  otypeAll := ["book"; "word"]%string;
  eoslots := [[1; 2; 3]];
  L_u := λ n tp, if decide (n ≤ 3 ∧ tp = "book"%string) then [4] else [];
  L_d := λ n tp, if decide (n = 4 ∧ tp = "word"%string) then [1; 2; 3] else [];
  Fs := λ _, ∅;
|}.

Definition bareText : Text := {|
  api := bareApi;
  sectionTypes := [];
  structureTypeSet := ∅;
  hdFromNd := None;
  ndFromHd := None;
  hdMult := None;
  hdTop := None;
  hdUp := None;
  hdDown := None;
  defaultFormats := ∅;
  _xformats := ∅;
  _xdTypes := ∅;
|}.

(** Without structure, [top], [up], [down], [headingFromNode] and
    [structure] send one message and return [None]. *)
Lemma structure_not_configured (T : Text) (n : Z) (node : option Z)
    (depth : nat) (log : list diag) :
  hdTop T = None → hdUp T = None → hdDown T = None → hdFromNd T = None →
  top T log = (Ok None, log ++ [StructureNotConfigured])
  ∧ up T n log = (Ok None, log ++ [StructureNotConfigured])
  ∧ down T n log = (Ok None, log ++ [StructureNotConfigured])
  ∧ headingFromNode T n log = (Ok None, log ++ [StructureNotConfigured])
  ∧ structure depth T node log = (Ok StructNone, log ++ [StructureNotConfigured]).
Proof.
  intros Htop Hup Hdown Hhd.
  unfold top, up, down, headingFromNode.
  rewrite Htop, Hup, Hdown, Hhd.
  repeat split; try done.
  destruct depth; simpl; by rewrite Htop.
Qed.

(** C3 (the code departs from it): without structure, [nodeFromHeading]
    sends the message and then raises [AttributeError], because it goes on
    to call [get] on the map that is [None]. *)
Theorem nodeFromHeading_not_configured (T : Text) (head : heading)
    (log : list diag) :
  ndFromHd T = None →
  nodeFromHeading T head log
  = (Raise AttributeError, log ++ [StructureNotConfigured]).
Proof. intros Hnone. unfold nodeFromHeading. by rewrite Hnone. Qed.

Lemma nodeFromHeading_not_configured_witness :
  nodeFromHeading bareText [("book"%string, inr "Genesis"%string)] []
  = (Raise AttributeError, [StructureNotConfigured]).
Proof.
  apply (nodeFromHeading_not_configured bareText
           [("book"%string, inr "Genesis"%string)] []).
  reflexivity.
Defined.

(** ** The format that [text] applies *)

(** A corpus of three words and a lexeme (node 4, with the words 1 and 3 as
    its slots); the format [lex-default] is the default format of the
    lexemes. The two formats stand for compiled templates. *)
Definition lexApi : Api := {|
  fOtype := λ n, if decide (n ≤ 3) then "word"%string else "lex"%string;
  slotType := "word";
  maxSlot := 3;
  otypeAll := ["lex"; "word"]%string;
  eoslots := [[1; 3]];
  L_u := λ _ _, [];
  L_d := λ n tp, if decide (n = 4 ∧ tp = "word"%string) then [1; 3] else [];
  Fs := λ _, ∅;
|}.

Definition bareLexText : Text := {|
  api := lexApi;
  sectionTypes := [];
  structureTypeSet := ∅;
  hdFromNd := None;
  ndFromHd := None;
  hdMult := None;
  hdTop := None;
  hdUp := None;
  hdDown := None;
  defaultFormats := ∅;
  _xformats := ∅;
  _xdTypes := ∅;
|}.

Definition lexText : Text := {|
  api := lexApi;
  sectionTypes := [];
  structureTypeSet := ∅;
  hdFromNd := None;
  ndFromHd := None;
  hdMult := None;
  hdTop := None;
  hdUp := None;
  hdDown := None;
  defaultFormats := {[ "lex"%string := "lex-default"%string ]};
  _xformats := {[ "text-orig-full"%string := (λ n _, Ok ("w" +:+ pretty n +:+ " ")) : repFunc;
                  "lex-default"%string := (λ n _, Ok ("LEX" +:+ pretty n)) : repFunc ]};
  _xdTypes := {[ "text-orig-full"%string := "word"%string;
                 "lex-default"%string := "lex"%string ]};
|}.

(** The tables of [lexText] are those that [_compileFormats] makes of the
    declared formats [text-orig-full = {g}] and [lex-default = lex#{voc}]. *)
Definition lexFormats : gmap string (string * list featureRef) :=
  {[ "text-orig-full"%string := ("{g}"%string, [(["g"%string], EmptyString)]);
     "lex-default"%string := ("lex#{voc}"%string, [(["voc"%string], EmptyString)]) ]}.

Example compiled_lexFormats :
  let T := _compileFormats (λ tpl _, Ok tpl) id bareLexText lexFormats in
  defaultFormats T !! "lex"%string = Some "lex-default"%string
  ∧ defaultFormats T !! "word"%string = None
  ∧ _xdTypes T !! "lex-default"%string = Some "lex"%string
  ∧ _xdTypes T !! "text-orig-full"%string = Some "word"%string
  ∧ splitFormat lexApi "lex#{voc}" = ("lex"%string, "{voc}"%string)
  ∧ splitFormat lexApi "{g}" = ("word"%string, "{g}"%string)
  ∧ splitDefaultFormat lexApi "lex-default" = Some "lex"%string
  ∧ splitDefaultFormat lexApi "text-orig-full" = None.
Proof. repeat split; vm_compute; reflexivity. Qed.

(** C1, as stated, fails: for the lexeme, whose type has the default format
    [lex-default] (declared to descend to [lex]), a call with [descend=True]
    and no format applies [text-orig-full] and descends to the words. *)
Lemma text_descend_skips_type_default :
  defaultFormats lexText !! fOtype lexApi 4 = Some "lex-default"%string
  ∧ _xdTypes lexText !! "lex-default"%string = Some "lex"%string
  ∧ pyres_map res_fmt (resolveFormat lexText None (Some true) "lex")
    = Ok "text-orig-full"%string
  ∧ pyres_map res_downType (resolveFormat lexText None (Some true) "lex")
    = Ok "word"%string
  ∧ (text lexText (OneNode 4) None (Some true) None false ∅ []).1
    = Ok "w1 w3 "%string
  ∧ (text lexText (OneNode 4) None None None false ∅ []).1
    = Ok "LEX4"%string.
Proof. repeat split; vm_compute; reflexivity. Qed.

(** C1, amended: with [descend=True] and no format, the format applied to a
    node is the global default format [text-orig-full], and the type to
    descend to is the one declared for that format, whether or not the type
    of the node has a default format of its own. *)
Theorem text_descend_uses_global_default (T : Text) (fmt : option string)
    (nType : string) (repf : repFunc) (downType : string) :
  givenFmt fmt = None →
  _xformats T !! DEFAULT_FORMAT = Some repf →
  _xdTypes T !! DEFAULT_FORMAT = Some downType →
  resolveFormat T fmt (Some true) nType
  = Ok {| res_explicit := false; res_fmt := DEFAULT_FORMAT; res_repf := repf;
          res_downType := downType; res_formatTarget := true |}.
Proof.
  intros Hfmt Hf Hd. unfold resolveFormat, py_getitem.
  rewrite Hfmt. simpl. by rewrite Hf, Hd.
Qed.

Lemma text_descend_uses_global_default_witness :
  resolveFormat lexText None (Some true) "lex"
  = Ok {| res_explicit := false; res_fmt := DEFAULT_FORMAT;
          res_repf := λ n _, Ok ("w" +:+ pretty n +:+ " ");
          res_downType := "word"; res_formatTarget := true |}.
Proof.
  apply (text_descend_uses_global_default lexText None "lex"
           (λ n _, Ok ("w" +:+ pretty n +:+ " ")) "word");
    reflexivity.
Defined.

(** ** One node and the list of that node *)

(** A computation is uniform when its value does not depend on the messages
    sent before, and it only adds messages. *)
Definition uniform {A} (m : M A) : Prop :=
  ∃ r w, ∀ log, m log = (r, log ++ w).

Lemma uniform_ret {A} (a : A) : uniform (mret a).
Proof. exists (Ok a), []. intros log. by rewrite app_nil_r. Qed.

Lemma uniform_lift {A} (r : pyres A) : uniform (lift r).
Proof. exists r, []. intros log. by rewrite app_nil_r. Qed.

Lemma uniform_error (d : diag) : uniform (error d).
Proof. by exists (Ok tt), [d]. Qed.

Lemma uniform_bind {A B} (m : M A) (f : A → M B) :
  uniform m → (∀ a, uniform (f a)) → uniform (m ≫= f).
Proof.
  intros (r & w & Hm) Hf. destruct r as [a|e].
  - destruct (Hf a) as (r' & w' & Hfa). exists r', (w ++ w'). intros log.
    unfold mbind, M_bind. by rewrite Hm, Hfa, app_assoc.
  - exists (Raise e), w. intros log. unfold mbind, M_bind. by rewrite Hm.
Qed.

Lemma uniform_when (b : bool) (m : M unit) : uniform m → uniform (when b m).
Proof. destruct b; [done|]. intros _. apply uniform_ret. Qed.

Lemma uniform_addMaterial A repf kw explain xnodes material :
  uniform (addMaterial A repf kw explain xnodes material).
Proof.
  revert material. induction xnodes as [|n xnodes IH]; intros material; simpl.
  - apply uniform_ret.
  - apply uniform_bind; [apply uniform_lift|]. intros rep.
    apply uniform_bind; [apply uniform_when, uniform_error|]. intros _. apply IH.
Qed.

Lemma uniform_textNode T fmt descend func explain kw node state :
  uniform (textNode T fmt descend func explain kw node state).
Proof.
  unfold textNode. destruct state as [material good].
  apply uniform_bind; [apply uniform_when, uniform_error|]. intros _.
  apply uniform_bind; [apply uniform_lift|]. intros res.
  apply uniform_bind; [apply uniform_when, uniform_error|]. intros _.
  apply uniform_bind; [apply uniform_lift|]. intros xnodes.
  apply uniform_bind; [apply uniform_when, uniform_error|]. intros _.
  destruct func as [f|]; simpl.
  - apply uniform_bind.
    { apply uniform_when, uniform_bind; [apply uniform_error|].
      intros _. apply uniform_error. }
    intros _. apply uniform_bind; [apply uniform_addMaterial|].
    intros m. apply uniform_ret.
  - apply uniform_bind.
    { apply uniform_when, uniform_bind; [apply uniform_error|].
      intros _. apply uniform_error. }
    intros _. apply uniform_bind; [apply uniform_addMaterial|].
    intros m. apply uniform_ret.
Qed.

Lemma uniform_textLoop T fmt descend func explain kw nodes state :
  uniform (textLoop T fmt descend func explain kw nodes state).
Proof.
  revert state. induction nodes as [|node nodes IH]; intros state; simpl.
  - apply uniform_ret.
  - apply uniform_bind; [apply uniform_textNode|]. intros state'. apply IH.
Qed.

(** C10: [text] returns the same string (or raises the same exception) for
    a node passed as an integer and for the list of that one node, whatever
    the other arguments and the messages sent before; and apart from the
    trace of [explain], the messages are the same as well. *)
Theorem text_single_node (T : Text) (n : Z) (fmt : option string)
    (descend : option bool) (func : option repFunc) (explain : bool)
    (kw : kwargs) (log : list diag) :
  (text T (OneNode n) fmt descend func explain kw log).1
  = (text T (Nodes [n]) fmt descend func explain kw log).1
  ∧ (explain = false →
     text T (OneNode n) fmt descend func explain kw log
     = text T (Nodes [n]) fmt descend func explain kw log).
Proof.
  unfold text.
  destruct (match givenFmt fmt with
            | Some f => if _xformats T !! f is None then Some f else None
            | None => None
            end) as [f|]; [done|].
  destruct explain; [|done].
  split; [|done].
  set (rest := λ _ : unit,
         textLoop T fmt descend func true kw [n] ([], true) ≫= _).
  assert (Hrest : uniform (rest tt)).
  { subst rest. cbv beta. apply uniform_bind; [apply uniform_textLoop|].
    intros [material good].
    apply uniform_bind; [apply uniform_when, uniform_error|].
    intros _. apply uniform_ret. }
  destruct Hrest as (r & w & Hrest).
  unfold when, explainCall, lift, error.
  generalize (match givenFmt fmt with
              | Some f => py_getitem (_xdTypes T) f ≫= λ d : string, Ok (Some (f, d))
              | None => Ok None
              end).
  intros [fmtRep|e]; unfold mbind, M_bind; [|done].
  by rewrite !Hrest.
Qed.

(** ** Section tuples that are filled up *)

Lemma py_index_nonneg {A} (l : list A) (i : Z) :
  0 ≤ i → py_index l i = match l !! Z.to_nat i with
                         | Some x => Ok x
                         | None => Raise IndexError
                         end.
Proof. intros Hi. unfold py_index. by repeat case_decide; try lia. Qed.

Lemma py_index_first_or_last {A} (l : list A) (lastSlot : bool) :
  l ≠ [] → ∃ x, py_index l (if lastSlot then -1 else 0) = Ok x.
Proof.
  intros Hne. destruct lastSlot.
  - unfold py_index. destruct l as [|y l]; [done|]. cbv zeta.
    destruct (decide (-1 < 0)) as [_|]; [|lia].
    destruct (decide (-1 + Z.of_nat (length (y :: l)) < 0)) as [Hneg|_];
      [simpl in Hneg; lia|].
    destruct ((y :: l) !! Z.to_nat (-1 + Z.of_nat (length (y :: l)))) as [x|] eqn:Hx;
      [by exists x|].
    apply lookup_ge_None in Hx. simpl in Hx. lia.
  - destruct l as [|y l]; [done|]. by exists y.
Qed.

(** The slots of a node can be read: the node is a slot, or it has an entry
    in [E.oslots.data] with at least one slot in it. *)
Definition hasSlots (A : Api) (n : Z) : Prop :=
  fOtype A n = slotType A
  ∨ ∃ slots, py_index (eoslots A) (n - maxSlot A - 1) = Ok slots ∧ slots ≠ [].

(** The reference slot of lines 181-185 can be read for such a node. *)
Lemma reference_slot (A : Api) (n : Z) (lastSlot : bool) :
  hasSlots A n →
  ∃ r, (if decide (fOtype A n = slotType A) then Ok n
        else py_index (eoslots A) (n - maxSlot A - 1)
             ≫= λ slots, py_index slots (if lastSlot then -1 else 0))
       = Ok r.
Proof.
  intros [Hslot|(slots & Hs & Hne)].
  - rewrite decide_True by done. by exists n.
  - case_decide; [by exists n|]. rewrite Hs. simpl.
    by apply py_index_first_or_last.
Qed.

(** Three section levels over the corpus of [bareApi]; there are no
    chapters and verses in it. *)
Definition threeLevelText : Text := {|
  api := bareApi;
  sectionTypes := ["book"; "chapter"; "verse"]%string;
  structureTypeSet := ∅;
  hdFromNd := None;
  ndFromHd := None;
  hdMult := None;
  hdTop := None;
  hdUp := None;
  hdDown := None;
  defaultFormats := ∅;
  _xformats := ∅;
  _xdTypes := ∅;
|}.

Example sectionTuple_of_word :
  sectionTuple threeLevelText 1 false true = Ok [SecNode 4; SecEmpty; SecEmpty]
  ∧ sectionTuple threeLevelText 1 false false = Ok [SecNode 4; SecEmpty; SecEmpty]
  ∧ sectionTuple threeLevelText 4 true true = Ok [SecNode 4; SecEmpty; SecEmpty]
  ∧ sectionTuple threeLevelText 4 true false = Ok [SecNode 4].
Proof. repeat split; vm_compute; reflexivity. Qed.

(** A [Text] with the single section level [book] over the corpus of
    [bareApi], where node 4 is the book. *)
Definition oneLevelText : Text := {|
  api := bareApi;
  sectionTypes := ["book"%string];
  structureTypeSet := ∅;
  hdFromNd := None;
  ndFromHd := None;
  hdMult := None;
  hdTop := None;
  hdUp := None;
  hdDown := None;
  defaultFormats := ∅;
  _xformats := ∅;
  _xdTypes := ∅;
|}.




(** ** Headings and their nodes *)

Lemma buildHeadingIndex_snoc (nodes : list (Z * heading)) (item : Z * heading) :
  buildHeadingIndex (nodes ++ [item])
  = headingIndexStep (buildHeadingIndex nodes) item.
Proof. unfold buildHeadingIndex. by rewrite foldl_app. Qed.

(** Every node gets its heading. *)
Lemma buildHeadingIndex_hdFromNd (nodes : list (Z * heading)) (x : Z) (h : heading) :
  NoDup nodes.*1 → (x, h) ∈ nodes →
  ix_hdFromNd (buildHeadingIndex nodes) !! x = Some h.
Proof.
  induction nodes as [|[n hd] nodes IH] using rev_ind; intros Hdup Hin.
  - by apply elem_of_nil in Hin.
  - rewrite buildHeadingIndex_snoc. simpl.
    rewrite fmap_app in Hdup. apply NoDup_app in Hdup as (Hdup & Hfresh & _).
    apply elem_of_app in Hin as [Hin|Hin].
    + assert (x ≠ n).
      { intros ->. apply (Hfresh n); [|simpl; left].
        apply list_elem_of_fmap. by exists (n, h). }
      rewrite lookup_insert_ne by done. by apply IH.
    + apply list_elem_of_singleton in Hin. simplify_eq.
      by rewrite lookup_insert_eq.
Qed.

(** A heading leads to the node that carries it and comes last. *)
Lemma buildHeadingIndex_ndFromHd (nodes : list (Z * heading)) (x : Z) (h : heading) :
  (x, h) ∈ nodes →
  ∃ m i, ix_ndFromHd (buildHeadingIndex nodes) !! h = Some m
         ∧ nodes !! i = Some (m, h)
         ∧ ∀ j m', nodes !! j = Some (m', h) → (j ≤ i)%nat.
Proof.
  induction nodes as [|[n hd] nodes IH] using rev_ind; intros Hin.
  - by apply elem_of_nil in Hin.
  - rewrite buildHeadingIndex_snoc. simpl.
    destruct (decide (hd = h)) as [->|Hne].
    + exists n, (length nodes). rewrite lookup_insert_eq.
      split; [done|]. split.
      * by rewrite lookup_app_r, Nat.sub_diag.
      * intros j m' Hj. apply lookup_lt_Some in Hj.
        rewrite length_app in Hj. simpl in Hj. lia.
    + apply elem_of_app in Hin as [Hin|Hin];
        [|apply list_elem_of_singleton in Hin; by simplify_eq].
      destruct (IH Hin) as (m & i & Hm & Hi & Hlast).
      exists m, i. rewrite lookup_insert_ne by done.
      split; [done|]. split.
      * rewrite lookup_app_l; [done|]. by eapply lookup_lt_Some.
      * intros j m' Hj.
        destruct (decide (j < length nodes)%nat) as [Hlt|Hge].
        -- rewrite lookup_app_l in Hj by done. by eapply Hlast.
        -- rewrite lookup_app_r in Hj by lia.
           destruct (j - length nodes)%nat; simplify_eq/=.
Qed.

Lemma StronglySorted_lookup_le {A} (R : relation A) (l : list A) (i j : nat) (a b : A) :
  StronglySorted R l → l !! i = Some a → l !! j = Some b → (i < j)%nat → R a b.
Proof.
  intros Hsorted. revert i j.
  induction Hsorted as [|c l Hsorted IH Hall]; intros i j Hi Hj Hlt; [done|].
  destruct j as [|j]; [lia|]. simpl in Hj.
  destruct i as [|i]; simplify_eq/=.
  - eapply Forall_forall; [done|]. by eapply list_elem_of_lookup_2.
  - eapply (IH i j); [done..|lia].
Qed.

(** C8: for a structural node [x] with heading [h], in a [Text] whose
    heading maps are built from the structural nodes in corpus order,
    [headingFromNode] gives [h], and [nodeFromHeading] of [h] gives the last
    node in corpus order that carries [h], which is the node with the
    largest identifier when corpus order is the order of the identifiers,
    and which is [x] itself when no other node carries [h]; no message is
    sent. *)
Theorem heading_round_trip (T : Text) (nodes : list (Z * heading)) (x : Z)
    (h : heading) (log : list diag) :
  NoDup nodes.*1 →
  (x, h) ∈ nodes →
  fOtype (api T) x ∈ structureTypeSet T →
  headingFromNode (withHeadingIndex T (buildHeadingIndex nodes)) x log
  = (Ok (Some h), log)
  ∧ ∃ m i,
      nodeFromHeading (withHeadingIndex T (buildHeadingIndex nodes)) h log
      = (Ok (Some m), log)
      ∧ nodes !! i = Some (m, h)
      ∧ (∀ j m', nodes !! j = Some (m', h) → (j ≤ i)%nat)
      ∧ (StronglySorted (λ a b, a.1 < b.1) nodes →
         ∀ m', (m', h) ∈ nodes → m' ≤ m)
      ∧ ((∀ m', (m', h) ∈ nodes → m' = x) → m = x).
Proof.
  intros Hdup Hin Htype. split.
  - unfold headingFromNode. simpl. rewrite decide_True by done.
    by rewrite (buildHeadingIndex_hdFromNd nodes x h).
  - destruct (buildHeadingIndex_ndFromHd nodes x h Hin) as (m & i & Hm & Hi & Hlast).
    exists m, i. split; [|split; [done|split; [done|split]]].
    + unfold nodeFromHeading. simpl. by rewrite Hm.
    + intros Hsorted m' Hm'.
      apply list_elem_of_lookup_1 in Hm' as [j Hj].
      pose proof (Hlast j m' Hj) as Hle.
      destruct (decide (j = i)) as [->|Hne]; [by simplify_eq|].
      pose proof (StronglySorted_lookup_le _ _ j i _ _ Hsorted Hj Hi) as Hlt.
      simpl in Hlt. lia.
    + intros Huniq. apply Huniq. by eapply list_elem_of_lookup_2.
Qed.

(** Two books with the same heading and one between them. *)
Definition bookHeadings : list (Z * heading) :=
  [(4, [("book"%string, inr "A"%string)]);
   (5, [("book"%string, inr "B"%string)]);
   (6, [("book"%string, inr "A"%string)])].

Definition bookText : Text := {|
  api := bareApi;
  sectionTypes := [];
  structureTypeSet := {[ "book"%string ]};
  hdFromNd := None;
  ndFromHd := None;
  hdMult := None;
  hdTop := None;
  hdUp := None;
  hdDown := None;
  defaultFormats := ∅;
  _xformats := ∅;
  _xdTypes := ∅;
|}.

Example heading_last_wins :
  nodeFromHeading (withHeadingIndex bookText (buildHeadingIndex bookHeadings))
    [("book"%string, inr "A"%string)] []
  = (Ok (Some 6), [])
  ∧ ix_hdMult (buildHeadingIndex bookHeadings) !! [("book"%string, inr "A"%string)]
    = Some [4; 6].
Proof. split; vm_compute; reflexivity. Qed.

Lemma heading_round_trip_witness :
  headingFromNode (withHeadingIndex bookText (buildHeadingIndex bookHeadings)) 4 []
  = (Ok (Some [("book"%string, inr "A"%string)]), [])
  ∧ ∃ m i,
      nodeFromHeading (withHeadingIndex bookText (buildHeadingIndex bookHeadings))
        [("book"%string, inr "A"%string)] []
      = (Ok (Some m), [])
      ∧ bookHeadings !! i = Some (m, [("book"%string, inr "A"%string)])
      ∧ (∀ j m', bookHeadings !! j = Some (m', [("book"%string, inr "A"%string)]) →
                 (j ≤ i)%nat)
      ∧ (StronglySorted (λ a b, a.1 < b.1) bookHeadings →
         ∀ m', (m', [("book"%string, inr "A"%string)]) ∈ bookHeadings → m' ≤ m)
      ∧ ((∀ m', (m', [("book"%string, inr "A"%string)]) ∈ bookHeadings → m' = 4) →
         m = 4).
Proof.
  apply (heading_round_trip bookText bookHeadings 4
           [("book"%string, inr "A"%string)] []).
  - apply (bool_decide_unpack _). vm_compute. exact I.
  - apply (bool_decide_unpack _). vm_compute. exact I.
  - apply (bool_decide_unpack _). vm_compute. exact I.
Defined.

(** ** The rows that the service merges *)

Lemma py_sorted_set_elem (s : gset Z) (n : Z) : n ∈ py_sorted_set s ↔ n ∈ s.
Proof.
  unfold py_sorted_set. by rewrite merge_sort_Permutation, elem_of_elements.
Qed.

Lemma StronglySorted_le_lt (l : list Z) :
  StronglySorted Z.le l → NoDup l → StronglySorted Z.lt l.
Proof.
  intros Hsorted.
  induction Hsorted as [|x l Hsorted IH Hall]; intros Hdup; [constructor|].
  apply NoDup_cons in Hdup as [Hx Hdup]. constructor; [by apply IH|].
  rewrite Forall_forall in Hall |- *. intros y Hy.
  specialize (Hall y Hy). assert (x ≠ y) by (by intros ->). lia.
Qed.

Lemma py_sorted_set_ascending (s : gset Z) : StronglySorted Z.lt (py_sorted_set s).
Proof.
  apply StronglySorted_le_lt.
  - apply StronglySorted_merge_sort; apply _.
  - unfold py_sorted_set. rewrite merge_sort_Permutation. apply NoDup_elements.
Qed.

(** A list is sorted when its members are in the relation in the order of
    their places. *)
Lemma StronglySorted_by_lookup {A} (R : relation A) (l : list A) :
  (∀ i j a b, l !! i = Some a → l !! j = Some b → (i < j)%nat → R a b) →
  StronglySorted R l.
Proof.
  induction l as [|x l IH]; intros Hl; [constructor|].
  constructor.
  - apply IH. intros i j a b Hi Hj Hlt. apply (Hl (S i) (S j)); [done..|lia].
  - apply Forall_forall. intros y Hy.
    apply list_elem_of_lookup_1 in Hy as [j Hj].
    apply (Hl 0%nat (S j)); [done..|lia].
Qed.

(** The rows of kept-open positions, when every position has a result. *)
Lemma lookupRows_Ok (queryResults : list (list Z)) (ns : list Z) :
  Forall (λ n, 1 ≤ n ≤ Z.of_nat (length queryResults)) ns →
  ∃ rows, lookupRows queryResults ns = Ok rows
          ∧ rows.*1 = ns
          ∧ Forall (λ row, queryResults !! Z.to_nat (row.1 - 1) = Some row.2) rows.
Proof.
  intros Hns.
  induction Hns as [|n ns Hn Hns (rows & Hrows & Hfst & Hall)]; simpl.
  - by exists [].
  - rewrite py_index_nonneg by lia.
    destruct (queryResults !! Z.to_nat (n - 1)) as [r|] eqn:Hr.
    + rewrite Hrows. simpl. exists ((n, r) :: rows).
      split; [done|]. split; [by rewrite fmap_cons, Hfst|]. by constructor.
    + apply lookup_ge_None in Hr. lia.
Qed.

Lemma lookupRows_elem (queryResults : list (list Z)) (rows : list resultRow)
    (n : Z) (r : list Z) :
  Forall (λ row, queryResults !! Z.to_nat (row.1 - 1) = Some row.2) rows →
  (n, r) ∈ rows ↔ n ∈ rows.*1 ∧ queryResults !! Z.to_nat (n - 1) = Some r.
Proof.
  intros Hall. rewrite Forall_forall in Hall. split.
  - intros Hin. split; [|by apply (Hall (n, r))].
    apply list_elem_of_fmap. by exists (n, r).
  - intros [Hn Hr]. apply list_elem_of_fmap in Hn as ([n' r'] & -> & Hin).
    simpl in Hr. specialize (Hall _ Hin). simpl in Hall. by simplify_eq.
Qed.

Lemma py_slice_lookup {A} (l : list A) (lo hi : Z) (k : nat) (x : A) :
  0 ≤ lo → 0 ≤ hi →
  py_slice l lo hi !! k = Some x
  ↔ lo + Z.of_nat k < hi ∧ l !! (Z.to_nat lo + k)%nat = Some x.
Proof.
  intros Hlo Hhi. unfold py_slice, py_slice_bound.
  rewrite !decide_False by lia.
  rewrite lookup_take_Some, lookup_drop. split.
  - intros [Hx Hk]. pose proof (lookup_lt_Some _ _ _ Hx) as Hlen.
    split; [lia|]. by replace (Z.to_nat lo) with
      (Z.to_nat (Z.min lo (Z.of_nat (length l)))) by lia.
  - intros [Hk Hx]. pose proof (lookup_lt_Some _ _ _ Hx) as Hlen.
    split; [|lia]. by replace (Z.to_nat (Z.min lo (Z.of_nat (length l))))
      with (Z.to_nat lo) by lia.
Qed.

(** The rows of the window: the slice, numbered from [start]. *)
Lemma window_rows_lookup (slice : list (list Z)) (start : Z) (k : nat)
    (row : resultRow) :
  map (λ '(i, r), (i + start, r)) (py_enumerate slice) !! k = Some row
  ↔ row.1 = Z.of_nat k + start ∧ slice !! k = Some row.2.
Proof.
  unfold py_enumerate. change (map ?f ?l) with (f <$> l).
  rewrite list_lookup_fmap, list_lookup_imap.
  destruct row as [n r']. destruct (slice !! k) as [r|]; simpl.
  - split; [by intros [= <- <-]|by intros [-> [= ->]]].
  - split; [done|by intros [_ ?]].
Qed.

(** The indices of the literal tuples are negative. *)
Lemma parseTupleLines_negative (py_int : string → string + Z)
    (py_strip : string → string) (its : list (Z * string)) (rows : list resultRow) :
  Forall (λ it, 0 ≤ it.1) its →
  parseTupleLines py_int py_strip its = inr rows →
  Forall (λ row, row.1 < 0) rows.
Proof.
  intros Hits. revert rows.
  induction Hits as [|[i t] its Hi Hits IH]; intros rows Hrows; simpl in Hrows.
  - by simplify_eq.
  - destruct (str_truthy t); [|by apply IH].
    destruct (parseTupleLine py_int py_strip t) as [msg|ns]; [done|].
    destruct (parseTupleLines py_int py_strip its) as [msg|rows']; [done|].
    simplify_eq. constructor; [simpl in *; lia|by apply IH].
Qed.

Lemma literalTuples_negative (py_int : string → string + Z)
    (py_strip : string → string) (tuples : string) :
  Forall (λ row, row.1 < 0) (literalTuples py_int py_strip tuples).1.
Proof.
  unfold literalTuples. destruct (str_truthy tuples); [|by constructor].
  destruct (parseTupleLines _ _ _) as [msg|rows] eqn:Hrows; [by constructor|].
  simpl. eapply parseTupleLines_negative; [|done].
  apply Forall_forall. intros [i t] Hin. unfold py_enumerate in Hin.
  apply elem_of_lookup_imap in Hin as (k & t' & ? & _). simplify_eq/=. lia.
Qed.

(** The merged rows, for any literal rows and results of the query. *)
Lemma assembleResults_rows (tupleResults : list resultRow)
    (queryResults : list (list Z)) (opened : gset Z) (position batch : Z) :
  let total := Z.of_nat (length tupleResults) + Z.of_nat (length queryResults) in
  let start := (batchAround total position batch).1 in
  let end_ := (batchAround total position batch).2 in
  0 < batch →
  (∀ n, n ∈ opened → 0 < n < start → n ≤ Z.of_nat (length queryResults)) →
  ∃ before window after,
    assembleResults tupleResults queryResults opened position batch
    = Ok (tupleResults ++ before ++ window ++ after, start, total)
    ∧ (∀ n r, (n, r) ∈ before
              ↔ n ∈ opened ∧ 0 < n < start
                ∧ queryResults !! Z.to_nat (n - 1) = Some r)
    ∧ (∀ n r, (n, r) ∈ window
              ↔ start ≤ n ≤ end_ ∧ queryResults !! Z.to_nat (n - 1) = Some r)
    ∧ (∀ n r, (n, r) ∈ after
              ↔ n ∈ opened ∧ end_ < n ≤ Z.of_nat (length queryResults)
                ∧ queryResults !! Z.to_nat (n - 1) = Some r)
    ∧ StronglySorted Z.lt (before ++ window ++ after).*1.
Proof.
  intros total start end_ Hbatch Hopened.
  assert (Hwin : (total = 0 ∧ start = 0 ∧ end_ = 0)
                 ∨ (1 ≤ start ∧ start ≤ end_ ∧ end_ ≤ total)).
  { subst start end_. rewrite batchAround_closed_form. simpl. lia. }
  unfold assembleResults. fold total.
  destruct (batchAround total position batch) as [start' end'] eqn:Hba.
  simpl in start, end_. subst start end_.
  set (beforeSet := filter (λ n, n > 0 ∧ n < start') opened).
  set (afterSet :=
         filter (λ n, n > end' ∧ n ≤ Z.of_nat (length queryResults)) opened).
  destruct (lookupRows_Ok queryResults (py_sorted_set beforeSet))
    as (before & Hbefore & Hbfst & Hball).
  { apply Forall_forall. intros n Hn.
    apply py_sorted_set_elem, elem_of_filter in Hn as [[? ?] Hn].
    specialize (Hopened n Hn). lia. }
  destruct (lookupRows_Ok queryResults (py_sorted_set afterSet))
    as (after & Hafter & Hafst & Haall).
  { apply Forall_forall. intros n Hn.
    apply py_sorted_set_elem, elem_of_filter in Hn as [[? ?] Hn]. lia. }
  set (window := map (λ '(i, r), (i + start', r))
                   (py_enumerate (py_slice queryResults (start' - 1) end'))).
  exists before, window, after. rewrite Hbefore, Hafter. simpl.
  assert (Hb : ∀ n r, (n, r) ∈ before
                      ↔ n ∈ opened ∧ 0 < n < start'
                        ∧ queryResults !! Z.to_nat (n - 1) = Some r).
  { intros n r. rewrite (lookupRows_elem queryResults) by done.
    rewrite Hbfst, py_sorted_set_elem. unfold beforeSet.
    rewrite elem_of_filter. intuition lia. }
  assert (Ha : ∀ n r, (n, r) ∈ after
                      ↔ n ∈ opened ∧ end' < n ≤ Z.of_nat (length queryResults)
                        ∧ queryResults !! Z.to_nat (n - 1) = Some r).
  { intros n r. rewrite (lookupRows_elem queryResults) by done.
    rewrite Hafst, py_sorted_set_elem. unfold afterSet.
    rewrite elem_of_filter. intuition lia. }
  assert (Hw : ∀ k row, window !! k = Some row
                        ↔ row.1 = Z.of_nat k + start'
                          ∧ row.1 ≤ end'
                          ∧ 1 ≤ start'
                          ∧ queryResults !! Z.to_nat (row.1 - 1) = Some row.2).
  { intros k row. unfold window. rewrite window_rows_lookup.
    destruct Hwin as [(Htot & -> & ->)|(? & ? & ?)].
    - assert (queryResults = []) as -> by (apply length_zero_iff_nil; lia).
      unfold py_slice. simpl. rewrite lookup_nil. intuition (try done; lia).
    - rewrite py_slice_lookup by lia. split.
      + intros (Hk & ? & Hr). rewrite Hk.
        replace (Z.to_nat (Z.of_nat k + start' - 1))
          with (Z.to_nat (start' - 1) + k)%nat by lia.
        repeat split; [lia..|done].
      + intros (Hk & ? & ? & Hr). rewrite Hk in Hr.
        replace (Z.to_nat (Z.of_nat k + start' - 1))
          with (Z.to_nat (start' - 1) + k)%nat in Hr by lia.
        repeat split; [done|lia|done]. }
  split; [done|]. split; [done|]. split; [|split; [done|]].
  - intros n r. rewrite list_elem_of_lookup. split.
    + intros [k Hk]. apply Hw in Hk. simpl in Hk. intuition lia.
    + intros ([? ?] & Hr).
      destruct Hwin as [(Htot & -> & ->)|(? & ? & ?)].
      * assert (queryResults = []) as -> by (apply length_zero_iff_nil; lia).
        by rewrite lookup_nil in Hr.
      * exists (Z.to_nat (n - start')). apply Hw. simpl.
        repeat split; [lia..|done].
  - rewrite !fmap_app. apply StronglySorted_app_2; [|by rewrite Hbfst;
      apply py_sorted_set_ascending|apply StronglySorted_app_2].
    + intros n1 n2 Hn1 Hn2.
      apply list_elem_of_fmap in Hn1 as ([n1' r1] & -> & Hn1).
      apply Hb in Hn1 as (_ & ? & _). simpl.
      apply elem_of_app in Hn2 as [Hn2|Hn2];
        apply list_elem_of_fmap in Hn2 as ([n2' r2] & -> & Hn2); simpl.
      * apply list_elem_of_lookup_1 in Hn2 as [k Hk]. apply Hw in Hk.
        simpl in Hk. lia.
      * apply Ha in Hn2. lia.
    + intros n1 n2 Hn1 Hn2.
      apply list_elem_of_fmap in Hn1 as ([n1' r1] & -> & Hn1).
      apply list_elem_of_fmap in Hn2 as ([n2' r2] & -> & Hn2).
      apply list_elem_of_lookup_1 in Hn1 as [k Hk]. apply Hw in Hk.
      apply Ha in Hn2. simpl in *. lia.
    + apply StronglySorted_by_lookup. intros i j a b Hi Hj Hlt.
      rewrite list_lookup_fmap in Hi, Hj.
      destruct (window !! i) as [rowi|] eqn:Hrowi; [|done].
      destruct (window !! j) as [rowj|] eqn:Hrowj; [|done].
      apply Hw in Hrowi. apply Hw in Hrowj. simplify_eq/=. lia.
    + rewrite Hafst. apply py_sorted_set_ascending.
Qed.

(** Without literal tuples, every kept-open position before the window has
    a result. *)
Lemma kept_open_before_window (queryResults : list (list Z)) (position batch n : Z) :
  0 < n < (batchAround (0 + Z.of_nat (length queryResults)) position batch).1 →
  n ≤ Z.of_nat (length queryResults).
Proof. rewrite batchAround_closed_form. simpl. lia. Qed.

(** With literal tuples the window is computed over more rows than the query
    has results, and a kept-open position before the window may have no
    result: the service raises [IndexError] then. *)
Example assembleResults_beyond_results :
  assembleResults [(-1, [7]); (-2, [8]); (-3, [9])] [[1]] {[ 2 ]} 4 1
  = Raise IndexError.
Proof. vm_compute. reflexivity. Qed.

(** C7, amended: for a positive batch size, and when no kept-open index
    lies beyond the results of the query and before the window (where the
    service raises [IndexError]), [exposed_search] hands to [compose] the
    literal tuples, which have negative indices, then the rows [before],
    [window] and [after], where [before] holds exactly the kept-open indices
    [n] with [0 < n < start], [window] the positions from the start to the
    end of the window, and [after] the kept-open indices [n] with
    [end < n <= len(queryResults)], every row with the result at its
    position (counted from 1); the indices of these three parts together
    are strictly ascending; every kept-open index that is the position of a
    result of the query and lies outside the window has its row, whatever
    the size of the window; and no other kept-open index has a row: all
    rows are at positions of results of the query. *)
Theorem exposed_search_rows {Cache Table Options : Type}
    (py_int : string → string + Z) (py_strip : string → string)
    (search : string → Cache → (list (list Z) * string) * Cache)
    (searchCondensed : string → Cache → string → (list (list Z) * string) * Cache)
    (compose : list resultRow → Z → Z → gset Z → bool → string → Options → Table)
    (query tuples : string) (condensed : bool) (condenseType : string)
    (batch position : Z) (opened : gset Z) (options : Options) (cache : Cache) :
  let literals := (literalTuples py_int py_strip tuples).1 in
  let queryResults :=
    (queryPart search searchCondensed query condensed condenseType cache).1.1 in
  let total := Z.of_nat (length literals) + Z.of_nat (length queryResults) in
  let start := (batchAround total position batch).1 in
  let end_ := (batchAround total position batch).2 in
  0 < batch →
  (∀ n, n ∈ opened → 0 < n < start → n ≤ Z.of_nat (length queryResults)) →
  ∃ before window after,
    (exposed_search py_int py_strip search searchCondensed compose query tuples
       condensed condenseType batch position opened options cache).1
    = Ok (compose (literals ++ before ++ window ++ after) start position opened
            condensed condenseType options,
          (literalTuples py_int py_strip tuples).2,
          (queryPart search searchCondensed query condensed condenseType cache).1.2,
          start, total)
    ∧ Forall (λ row, row.1 < 0) literals
    ∧ (∀ n r, (n, r) ∈ before
              ↔ n ∈ opened ∧ 0 < n < start
                ∧ queryResults !! Z.to_nat (n - 1) = Some r)
    ∧ (∀ n r, (n, r) ∈ window
              ↔ start ≤ n ≤ end_ ∧ queryResults !! Z.to_nat (n - 1) = Some r)
    ∧ (∀ n r, (n, r) ∈ after
              ↔ n ∈ opened ∧ end_ < n
                ∧ queryResults !! Z.to_nat (n - 1) = Some r)
    ∧ StronglySorted Z.lt (before ++ window ++ after).*1
    ∧ (∀ n, n ∈ opened → 1 ≤ n ≤ Z.of_nat (length queryResults) →
            n < start ∨ end_ < n →
            ∃ r, queryResults !! Z.to_nat (n - 1) = Some r
                 ∧ (n, r) ∈ before ++ after)
    ∧ (∀ n r, (n, r) ∈ before ++ window ++ after →
              1 ≤ n ≤ Z.of_nat (length queryResults)).
Proof.
  intros literals queryResults total start end_ Hbatch Hopened.
  destruct (assembleResults_rows literals queryResults opened position batch Hbatch)
    as (before & window & after & Hrows & Hb & Hw & Ha & Hsorted); [done|].
  fold total start end_ in Hrows, Hb, Hw, Ha.
  assert (Hwin : (total = 0 ∧ start = 0 ∧ end_ = 0)
                 ∨ (1 ≤ start ∧ start ≤ end_ ∧ end_ ≤ total)).
  { subst start end_. rewrite batchAround_closed_form. simpl. lia. }
  exists before, window, after.
  split; [|split; [apply literalTuples_negative|]].
  { unfold exposed_search. subst start total literals queryResults.
    destruct (literalTuples py_int py_strip tuples) as [lits tupleMessages].
    destruct (queryPart search searchCondensed query condensed condenseType cache)
      as [[qr queryMessages] cache'].
    simpl in *. by rewrite Hrows. }
  assert (Ha' : ∀ n r, (n, r) ∈ after
                       ↔ n ∈ opened ∧ end_ < n
                         ∧ queryResults !! Z.to_nat (n - 1) = Some r).
  { intros n r. rewrite Ha. split; [intuition lia|].
    intros (Hn & Hend & Hr). split; [done|]. split; [|done].
    apply lookup_lt_Some in Hr. lia. }
  split; [exact Hb|]. split; [exact Hw|]. split; [exact Ha'|].
  split; [exact Hsorted|]. split.
  - intros n Hn Hvalid Hout.
    destruct (lookup_lt_is_Some_2 queryResults (Z.to_nat (n - 1))) as [r Hr]; [lia|].
    exists r. split; [done|]. apply elem_of_app.
    destruct Hout; [left; apply Hb|right; apply Ha']; (split; [done|]);
      (split; [lia|done]).
  - intros n r Hin. rewrite !elem_of_app in Hin.
    destruct Hin as [Hin|[Hin|Hin]].
    + apply Hb in Hin as (_ & Hn & Hr). apply lookup_lt_Some in Hr. lia.
    + apply Hw in Hin as (Hn & Hr). apply lookup_lt_Some in Hr. lia.
    + apply Ha in Hin as (_ & Hn & Hr). lia.
Qed.

(** A stand-in for [int] on strings of decimal digits. *)
Fixpoint digitsValue (acc : Z) (s : string) : option Z :=
  match s with
  | EmptyString => Some acc
  | String c s' =>
      let d := Z.of_nat (nat_of_ascii c) - 48 in
      if decide (0 ≤ d ≤ 9) then digitsValue (10 * acc + d) s' else None
  end.

Definition decimalInt (s : string) : string + Z :=
  match s, digitsValue 0 s with
  | String _ _, Some z => inr z
  | _, _ => inl "invalid literal for int()"%string
  end.

(** A search that yields eight results, whatever the query. *)
Definition eightResults (query : string) (cache : unit)
    : (list (list Z) * string) * unit :=
  (([[10]; [11]; [12]; [13]; [14]; [15]; [16]; [17]], EmptyString), cache).

Definition rowsOnly (rows : list resultRow) (start position : Z) (opened : gset Z)
    (condensed : bool) (condenseType : string) (options : unit) : list resultRow :=
  rows.

(** Two lines of literal tuples. *)
Definition twoTupleLines : string := "7,8" +:+ String "010"%char "9".

Example exposed_search_example :
  (exposed_search decimalInt id eightResults (λ q c _, eightResults q c) rowsOnly
     "word" twoTupleLines false EmptyString 2 5 {[ 1; 5; 8; 20 ]} () ()).1
  = Ok ([(-1, [7; 8]); (-2, [9]); (1, [10]); (4, [13]); (5, [14]); (8, [17])],
        EmptyString, EmptyString, 4, 10).
Proof. vm_compute. reflexivity. Qed.

(** C7, as stated, fails: with two literal tuples and eight results the
    total is 10 and, at position 5 with batch size 2, the window is
    [(4, 5)]; the kept-open index 9 lies outside the window and within the
    total, and yet no row 9 is listed: the rows are the two literal tuples
    and the window. *)
Lemma exposed_search_leaves_out_kept_open :
  batchAround 10 5 2 = (4, 5)
  ∧ 9 ∈ ({[ 9 ]} : gset Z)
  ∧ (exposed_search decimalInt id eightResults (λ q c _, eightResults q c) rowsOnly
       "word" twoTupleLines false EmptyString 2 5 {[ 9 ]} () ()).1
    = Ok ([(-1, [7; 8]); (-2, [9]); (4, [13]); (5, [14])],
          EmptyString, EmptyString, 4, 10).
Proof.
  split; [reflexivity|]. split; [by apply elem_of_singleton|].
  vm_compute. reflexivity.
Qed.

Lemma exposed_search_rows_witness :
  ∃ before window after,
    (exposed_search decimalInt id eightResults (λ q c _, eightResults q c) rowsOnly
       "word" twoTupleLines false EmptyString 2 5 {[ 0; 1; 5; 8; 9; 20 ]} () ()).1
    = Ok (rowsOnly ([(-1, [7; 8]); (-2, [9])] ++ before ++ window ++ after)
            4 5 {[ 0; 1; 5; 8; 9; 20 ]} false EmptyString (),
          EmptyString, EmptyString, 4, 10)
    ∧ Forall (λ row, row.1 < 0) [(-1, [7; 8]); (-2, [9])]
    ∧ (∀ n r, (n, r) ∈ before
              ↔ n ∈ ({[ 0; 1; 5; 8; 9; 20 ]} : gset Z) ∧ 0 < n < 4
                ∧ (eightResults "word" ()).1.1 !! Z.to_nat (n - 1) = Some r)
    ∧ (∀ n r, (n, r) ∈ window
              ↔ 4 ≤ n ≤ 5 ∧ (eightResults "word" ()).1.1 !! Z.to_nat (n - 1) = Some r)
    ∧ (∀ n r, (n, r) ∈ after
              ↔ n ∈ ({[ 0; 1; 5; 8; 9; 20 ]} : gset Z) ∧ 5 < n
                ∧ (eightResults "word" ()).1.1 !! Z.to_nat (n - 1) = Some r)
    ∧ StronglySorted Z.lt (before ++ window ++ after).*1
    ∧ (∀ n, n ∈ ({[ 0; 1; 5; 8; 9; 20 ]} : gset Z) → 1 ≤ n ≤ 8 →
            n < 4 ∨ 5 < n →
            ∃ r, (eightResults "word" ()).1.1 !! Z.to_nat (n - 1) = Some r
                 ∧ (n, r) ∈ before ++ after)
    ∧ (∀ n r, (n, r) ∈ before ++ window ++ after → 1 ≤ n ≤ 8).
Proof.
  apply (exposed_search_rows decimalInt id eightResults (λ q c _, eightResults q c)
           rowsOnly "word" twoTupleLines false EmptyString 2 5
           {[ 0; 1; 5; 8; 9; 20 ]} () ()).
  - lia.
  - intros n _ Hn. change (0 < n < 4) in Hn. change (n ≤ 8). lia.
Defined.

(** * Further properties *)

(** ** More on the window *)

Lemma halfBatchOf_bounds (b : Z) : 2 ≤ b → 1 ≤ halfBatchOf b ≤ b - 1.
Proof.
  intros Hb. unfold halfBatchOf. rewrite Z.quot_div_nonneg by lia.
  pose proof (Z.div_mod (b + 1) 2 ltac:(lia)).
  pose proof (Z.mod_pos_bound (b + 1) 2 ltac:(lia)). lia.
Qed.

(** X1: for a batch size of at least 2 and a position among the results,
    the window of [batchAround] contains the position. *)
Theorem batchAround_contains_position (n p b : Z) :
  2 ≤ b → 1 ≤ p ≤ n →
  (batchAround n p b).1 ≤ p ≤ (batchAround n p b).2.
Proof.
  intros Hb Hp. pose proof (halfBatchOf_bounds b Hb).
  rewrite batchAround_closed_form. simpl. lia.
Qed.

Lemma batchAround_contains_position_witness :
  (batchAround 37 20 10).1 ≤ 20 ≤ (batchAround 37 20 10).2.
Proof. apply (batchAround_contains_position 37 20 10); lia. Defined.

(** X2: with batch size 1 the window is the single position before the
    requested one (for a position from 2 on, at most one past the last
    result): the requested position itself is not in it. *)
Theorem batchAround_batch_one (n p : Z) :
  2 ≤ p ≤ n + 1 → batchAround n p 1 = (p - 1, p - 1).
Proof.
  intros Hp. rewrite batchAround_closed_form.
  change (halfBatchOf 1) with 1. f_equal; lia.
Qed.

Lemma batchAround_batch_one_witness : batchAround 37 5 1 = (5 - 1, 5 - 1).
Proof. apply (batchAround_batch_one 37 5). lia. Defined.

(** ** Literal tuples *)

Section LiteralTuples.
Variable py_int : string → string + Z.
Variable py_strip : string → string.

(** When the lines parse, there is a row for every line that is not empty,
    in the order of the lines. *)
Lemma parseTupleLines_inr (its : list (Z * string)) (rows : list resultRow) :
  parseTupleLines py_int py_strip its = inr rows →
  Forall2 (λ it row, row.1 = - it.1 - 1
                     ∧ parseTupleLine py_int py_strip it.2 = inr row.2)
    (filter (λ it, str_truthy it.2 = true) its) rows.
Proof.
  revert rows. induction its as [|[i t] its IH]; intros rows Hrows; simpl in Hrows.
  - simplify_eq. constructor.
  - destruct (str_truthy t) eqn:Ht.
    + rewrite filter_cons_True by done.
      destruct (parseTupleLine py_int py_strip t) as [msg|ns] eqn:Hns; [done|].
      destruct (parseTupleLines py_int py_strip its) as [msg|rows']; [done|].
      simplify_eq. constructor; [done|by apply IH].
    + rewrite filter_cons_False by (simpl; congruence). by apply IH.
Qed.

(** When a line fails to parse, the message is that of the first such
    line. *)
Lemma parseTupleLines_inl (its : list (Z * string)) (msg : string) :
  parseTupleLines py_int py_strip its = inl msg →
  ∃ k it, its !! k = Some it ∧ str_truthy it.2 = true
          ∧ parseTupleLine py_int py_strip it.2 = inl msg
          ∧ ∀ j it', (j < k)%nat → its !! j = Some it' → str_truthy it'.2 = true →
                     ∃ ns, parseTupleLine py_int py_strip it'.2 = inr ns.
Proof.
  induction its as [|[i t] its IH]; intros Hmsg; simpl in Hmsg; [done|].
  destruct (str_truthy t) eqn:Ht.
  - destruct (parseTupleLine py_int py_strip t) as [msg'|ns] eqn:Hns.
    + simplify_eq. exists 0%nat, (i, t). repeat split; try done. lia.
    + destruct (parseTupleLines py_int py_strip its) as [msg'|rows'] eqn:Hrest;
        [|done].
      simplify_eq. destruct (IH eq_refl) as (k & it & Hk & Hit & Hfail & Hfirst).
      exists (S k), it. repeat split; try done.
      intros [|j] it' Hj Hit' Htruthy; simplify_eq/=; [by exists ns|].
      apply (Hfirst j); [lia|done..].
  - destruct (IH Hmsg) as (k & it & Hk & Hit & Hfail & Hfirst).
    exists (S k), it. repeat split; try done.
    intros [|j] it' Hj Hit' Htruthy; simplify_eq/=; [congruence|].
    apply (Hfirst j); [lia|done..].
Qed.

Lemma StronglySorted_filter {A} (R : relation A) (P : A → Prop)
    `{!∀ x, Decision (P x)} (l : list A) :
  StronglySorted R l → StronglySorted R (filter P l).
Proof.
  intros Hsorted. induction Hsorted as [|x l Hsorted IH Hall]; [constructor|].
  destruct (decide (P x)).
  - rewrite filter_cons_True by done. constructor; [done|].
    rewrite Forall_forall in Hall |- *.
    intros y [_ Hy]%list_elem_of_filter. by apply Hall.
  - by rewrite filter_cons_False.
Qed.

Lemma rows_descending {B} (P : B → resultRow → Prop) (its : list (Z * B))
    (rows : list resultRow) :
  Forall2 (λ it row, row.1 = - it.1 - 1 ∧ P it.2 row) its rows →
  StronglySorted (λ a b, a.1 < b.1) its →
  StronglySorted (λ a b, b < a) rows.*1.
Proof.
  intros Hrows. induction Hrows as [|it row its rows [Hidx _] Hrows IH];
    intros Hsorted; [constructor|].
  apply StronglySorted_cons in Hsorted as [Hall Hsorted].
  rewrite fmap_cons. constructor; [by apply IH|].
  apply Forall_fmap, Forall_forall. intros row' Hrow'.
  apply list_elem_of_lookup_1 in Hrow' as [k Hk].
  destruct (Forall2_lookup_r _ _ _ _ _ Hrows Hk) as (it' & Hit' & Hidx' & _).
  rewrite Forall_forall in Hall.
  specialize (Hall it' (list_elem_of_lookup_2 _ _ _ Hit')). simpl. lia.
Qed.

Lemma py_enumerate_lookup {A} (l : list A) (k : nat) (it : Z * A) :
  py_enumerate l !! k = Some it ↔ it.1 = Z.of_nat k ∧ l !! k = Some it.2.
Proof.
  unfold py_enumerate. rewrite list_lookup_imap.
  destruct it as [i x]. destruct (l !! k) as [y|]; simpl.
  - split; [by intros [= <- <-]|by intros [-> [= ->]]].
  - split; [done|by intros [_ ?]].
Qed.

(** X3: when every line of the literal tuples that is not empty parses,
    there is no message and the rows are exactly these lines: line [i]
    (counted from 0, the empty lines counted too) gets the index [-i - 1]
    and the integers of the line; the indices go down along the rows. *)
Theorem literalTuples_rows (tuples : string) :
  (∀ t, t ∈ py_split "010"%char tuples → str_truthy t = true →
        ∃ ns, parseTupleLine py_int py_strip t = inr ns) →
  (literalTuples py_int py_strip tuples).2 = EmptyString
  ∧ (∀ idx ns, (idx, ns) ∈ (literalTuples py_int py_strip tuples).1
               ↔ ∃ i t, idx = - Z.of_nat i - 1
                        ∧ py_split "010"%char tuples !! i = Some t
                        ∧ str_truthy t = true
                        ∧ parseTupleLine py_int py_strip t = inr ns)
  ∧ StronglySorted (λ a b, b < a) (literalTuples py_int py_strip tuples).1.*1.
Proof.
  intros Hparse. unfold literalTuples.
  destruct (str_truthy tuples) eqn:Htuples.
  - set (lines := py_split "010"%char tuples) in *.
    destruct (parseTupleLines py_int py_strip (py_enumerate lines))
      as [msg|rows] eqn:Hrows.
    { apply parseTupleLines_inl in Hrows as (k & [i t] & Hk & Ht & Hfail & _).
      apply py_enumerate_lookup in Hk as [_ Hk]. simpl in *.
      destruct (Hparse t) as [ns Hns]; [by eapply list_elem_of_lookup_2|done|].
      congruence. }
    apply parseTupleLines_inr in Hrows. simpl.
    split; [done|]. split.
    + intros idx ns. split.
      * intros Hin. apply list_elem_of_lookup_1 in Hin as [k Hk].
        destruct (Forall2_lookup_r _ _ _ _ _ Hrows Hk) as ([i t] & Hit & Hidx & Hns).
        apply list_elem_of_lookup_2, list_elem_of_filter in Hit as [Ht Hit].
        apply list_elem_of_lookup_1 in Hit as [j Hj].
        apply py_enumerate_lookup in Hj as [Hi Hj]. simpl in *.
        exists j, t. repeat split; try done. lia.
      * intros (i & t & -> & Hi & Ht & Hns).
        assert (Hin : (Z.of_nat i, t)
                      ∈ filter (λ it, str_truthy it.2 = true) (py_enumerate lines)).
        { apply list_elem_of_filter. split; [done|].
          apply (list_elem_of_lookup_2 _ i). by apply py_enumerate_lookup. }
        apply list_elem_of_lookup_1 in Hin as [k Hk].
        destruct (Forall2_lookup_l _ _ _ _ _ Hrows Hk) as ([idx ns'] & Hrow & Hidx & Hns').
        simpl in *. simplify_eq. rewrite Hns in Hns'. simplify_eq.
        by eapply list_elem_of_lookup_2.
    + assert (Hsorted : StronglySorted (λ a b : Z * string, a.1 < b.1)
                          (filter (λ it, str_truthy it.2 = true) (py_enumerate lines))).
      { apply StronglySorted_filter, StronglySorted_by_lookup.
        intros i j a b Hi%py_enumerate_lookup Hj%py_enumerate_lookup Hlt. lia. }
      exact (rows_descending (λ t row, parseTupleLine py_int py_strip t = inr row.2)
               _ _ Hrows Hsorted).
  - simpl. split; [done|]. split; [|constructor].
    intros idx ns. split; [by intros ?%elem_of_nil|].
    intros (i & t & _ & Hi & Ht & _).
    assert (tuples = EmptyString) as ->.
    { unfold str_truthy in Htuples. by destruct (decide (tuples = EmptyString));
        [|rewrite bool_decide_eq_false_2 in Htuples]. }
    simpl in Hi. destruct i; simplify_eq/=.
Qed.

Lemma parseTupleLines_fails (its : list (Z * string)) (k : nat)
    (it : Z * string) (msg : string) :
  its !! k = Some it → str_truthy it.2 = true →
  parseTupleLine py_int py_strip it.2 = inl msg →
  (∀ j it', (j < k)%nat → its !! j = Some it' → str_truthy it'.2 = true →
            ∃ ns, parseTupleLine py_int py_strip it'.2 = inr ns) →
  parseTupleLines py_int py_strip its = inl msg.
Proof.
  revert k. induction its as [|[i t] its IH]; intros k Hk Ht Hfail Hfirst; [done|].
  simpl. destruct k as [|k]; simplify_eq/=.
  - by rewrite Ht, Hfail.
  - assert (Hrest : parseTupleLines py_int py_strip its = inl msg).
    { apply (IH k); try done. intros j it' Hj. apply (Hfirst (S j)). lia. }
    rewrite Hrest. destruct (str_truthy t) eqn:Htt; [|done].
    destruct (Hfirst 0%nat (i, t)) as [ns Hns]; [lia|done|done|].
    simpl in Hns. by rewrite Hns.
Qed.

(** X4: when a line of the literal tuples fails to parse, and the lines
    before it that are not empty parse, there are no rows at all, also not
    for the lines that parse, and the message is that of this line. *)
Theorem literalTuples_failure (tuples : string) (k : nat) (t msg : string) :
  py_split "010"%char tuples !! k = Some t →
  str_truthy t = true →
  parseTupleLine py_int py_strip t = inl msg →
  (∀ j t', (j < k)%nat → py_split "010"%char tuples !! j = Some t' →
           str_truthy t' = true →
           ∃ ns, parseTupleLine py_int py_strip t' = inr ns) →
  literalTuples py_int py_strip tuples = ([], msg).
Proof.
  intros Hk Ht Hfail Hfirst. unfold literalTuples.
  destruct (str_truthy tuples) eqn:Htuples.
  - rewrite (parseTupleLines_fails _ k (Z.of_nat k, t) msg); try done.
    + by apply py_enumerate_lookup.
    + intros j [i t'] Hj [_ Hit']%py_enumerate_lookup Htruthy.
      by apply (Hfirst j).
  - assert (tuples = EmptyString) as ->.
    { unfold str_truthy in Htuples. by destruct (decide (tuples = EmptyString));
        [|rewrite bool_decide_eq_false_2 in Htuples]. }
    destruct k; simplify_eq/=.
Qed.
End LiteralTuples.

Lemma literalTuples_rows_witness :
  (literalTuples decimalInt id twoTupleLines).2 = EmptyString
  ∧ (∀ idx ns, (idx, ns) ∈ (literalTuples decimalInt id twoTupleLines).1
               ↔ ∃ i t, idx = - Z.of_nat i - 1
                        ∧ py_split "010"%char twoTupleLines !! i = Some t
                        ∧ str_truthy t = true
                        ∧ parseTupleLine decimalInt id t = inr ns)
  ∧ StronglySorted (λ a b, b < a) (literalTuples decimalInt id twoTupleLines).1.*1.
Proof.
  apply (literalTuples_rows decimalInt id twoTupleLines).
  intros t Ht _. change (t ∈ ["7,8"; "9"]%string) in Ht.
  rewrite !elem_of_cons in Ht.
  destruct Ht as [->|[->|Ht]]; [by eexists..|by apply elem_of_nil in Ht].
Defined.

(** Three lines, the second of which is no tuple of integers. *)
Definition brokenTupleLines : string :=
  "7,8" +:+ String "010"%char ("x" +:+ String "010"%char "9").

Lemma literalTuples_failure_witness :
  literalTuples decimalInt id brokenTupleLines
  = ([], "invalid literal for int()"%string).
Proof.
  apply (literalTuples_failure decimalInt id brokenTupleLines 1 "x").
  - reflexivity.
  - reflexivity.
  - reflexivity.
  - intros [|j] t' Hj Ht' _; [|lia].
    change (Some "7,8"%string = Some t') in Ht'. simplify_eq. by eexists.
Defined.

(** ** When the merging of the rows fails *)

(** A kept-open position that is beyond the results makes the lookup
    raise. *)
Lemma lookupRows_Raise (queryResults : list (list Z)) (ns : list Z) (n : Z) :
  Forall (λ n, 1 ≤ n) ns →
  n ∈ ns → Z.of_nat (length queryResults) < n →
  lookupRows queryResults ns = Raise IndexError.
Proof.
  intros Hns. revert n.
  induction Hns as [|m ns Hm Hns IH]; intros n Hn Hlen; [by apply elem_of_nil in Hn|].
  simpl. rewrite py_index_nonneg by lia.
  destruct (queryResults !! Z.to_nat (m - 1)) as [r|] eqn:Hr; [|done].
  simpl. apply elem_of_cons in Hn as [->|Hn].
  - apply lookup_lt_Some in Hr. lia.
  - by rewrite (IH n).
Qed.

(** The rows are merged, or the lookup of a kept-open position before the
    window raises. *)
Lemma assembleResults_Raise (tupleResults : list resultRow)
    (queryResults : list (list Z)) (opened : gset Z) (position batch : Z) :
  0 < batch →
  assembleResults tupleResults queryResults opened position batch
  = Raise IndexError
  ↔ ∃ n, n ∈ opened
         ∧ Z.of_nat (length queryResults) < n
           < (batchAround (Z.of_nat (length tupleResults)
                           + Z.of_nat (length queryResults)) position batch).1.
Proof.
  intros Hbatch. split.
  - intros Hraise.
    set (start := (batchAround (Z.of_nat (length tupleResults)
                                + Z.of_nat (length queryResults)) position batch).1).
    destruct (decide (set_Exists
                        (λ n, Z.of_nat (length queryResults) < n < start) opened))
      as [(n & Hn & Hout)|Hnone]; [by exists n|].
    destruct (assembleResults_rows tupleResults queryResults opened position batch
                Hbatch) as (before & window & after & Hrows & _).
    + intros n Hn Hstart.
      destruct (decide (n ≤ Z.of_nat (length queryResults))); [done|].
      destruct Hnone. exists n. fold start in Hstart. split; [done|lia].
    + congruence.
  - intros (n & Hn & Hlen & Hstart). unfold assembleResults.
    destruct (batchAround _ position batch) as [start end_]. simpl in Hstart.
    rewrite (lookupRows_Raise queryResults _ n); [done| | |done].
    + apply Forall_forall.
      intros m [[? ?] _]%py_sorted_set_elem%elem_of_filter. lia.
    + apply py_sorted_set_elem, elem_of_filter. split; [lia|done].
Qed.

Section ServiceFailure.
Context {Cache Table Options : Type}.
Variable py_int : string → string + Z.
Variable py_strip : string → string.
Variable search : string → Cache → (list (list Z) * string) * Cache.
Variable searchCondensed :
  string → Cache → string → (list (list Z) * string) * Cache.
Variable compose :
  list resultRow → Z → Z → gset Z → bool → string → Options → Table.

Lemma exposed_search_unfold (query tuples : string) (condensed : bool)
    (condenseType : string) (batch position : Z) (opened : gset Z)
    (options : Options) (cache : Cache) :
  (exposed_search py_int py_strip search searchCondensed compose query tuples
     condensed condenseType batch position opened options cache).1
  = pyres_map
      (λ '(allResults, start, total),
         (compose allResults start position opened condensed condenseType options,
          (literalTuples py_int py_strip tuples).2,
          (queryPart search searchCondensed query condensed condenseType cache).1.2,
          start, total))
      (assembleResults (literalTuples py_int py_strip tuples).1
         (queryPart search searchCondensed query condensed condenseType cache).1.1
         opened position batch).
Proof.
  unfold exposed_search.
  destruct (literalTuples py_int py_strip tuples) as [lits tupleMessages].
  by destruct (queryPart search searchCondensed query condensed condenseType cache)
    as [[qr queryMessages] cache'].
Qed.

(** X5: for a positive batch size, [exposed_search] raises [IndexError]
    exactly when some kept-open index lies beyond the results of the query
    and before the start of the window. *)
Theorem exposed_search_IndexError (query tuples : string) (condensed : bool)
    (condenseType : string) (batch position : Z) (opened : gset Z)
    (options : Options) (cache : Cache) :
  0 < batch →
  (exposed_search py_int py_strip search searchCondensed compose query tuples
     condensed condenseType batch position opened options cache).1
  = Raise IndexError
  ↔ ∃ n, n ∈ opened
         ∧ Z.of_nat (length
             (queryPart search searchCondensed query condensed condenseType
                cache).1.1) < n
           < (batchAround
                (Z.of_nat (length (literalTuples py_int py_strip tuples).1)
                 + Z.of_nat (length
                     (queryPart search searchCondensed query condensed condenseType
                        cache).1.1))
                position batch).1.
Proof.
  intros Hbatch. rewrite exposed_search_unfold.
  rewrite <- (assembleResults_Raise _ _ _ _ _ Hbatch).
  destruct (assembleResults _ _ opened position batch) as [[[rows start] total]|e];
    simpl; split; congruence.
Qed.

(** X6: without literal tuples (none given, or none parsed) and for a
    positive batch size, the merging of the rows does not raise, whatever
    the kept-open indices are. *)
Theorem exposed_search_without_literals (query tuples : string)
    (condensed : bool) (condenseType : string) (batch position : Z)
    (opened : gset Z) (options : Options) (cache : Cache) :
  0 < batch →
  (literalTuples py_int py_strip tuples).1 = [] →
  ∃ rows start total,
    (exposed_search py_int py_strip search searchCondensed compose query tuples
       condensed condenseType batch position opened options cache).1
    = Ok (compose rows start position opened condensed condenseType options,
          (literalTuples py_int py_strip tuples).2,
          (queryPart search searchCondensed query condensed condenseType cache).1.2,
          start, total).
Proof.
  intros Hbatch Hlits. rewrite exposed_search_unfold, Hlits.
  destruct (assembleResults_rows []
              (queryPart search searchCondensed query condensed condenseType
                 cache).1.1 opened position batch Hbatch)
    as (before & window & after & -> & _).
  { intros n _ Hn. by eapply kept_open_before_window. }
  simpl. by eexists _, _, _.
Qed.

(** X7: when there are no literal rows and no results of the query (no
    query, no matches, or a query with messages), then for a positive batch
    size no rows are handed to [compose], whatever the kept-open indices
    and the position are; the start of the window is reported as 0, and so
    is the total. *)
Theorem exposed_search_nothing (query tuples : string) (condensed : bool)
    (condenseType : string) (batch position : Z) (opened : gset Z)
    (options : Options) (cache : Cache) :
  0 < batch →
  (literalTuples py_int py_strip tuples).1 = [] →
  (queryPart search searchCondensed query condensed condenseType cache).1.1 = [] →
  (exposed_search py_int py_strip search searchCondensed compose query tuples
     condensed condenseType batch position opened options cache).1
  = Ok (compose [] 0 position opened condensed condenseType options,
        (literalTuples py_int py_strip tuples).2,
        (queryPart search searchCondensed query condensed condenseType cache).1.2,
        0, 0).
Proof.
  intros Hbatch Hlits Hqr. rewrite exposed_search_unfold, Hlits, Hqr.
  destruct (assembleResults_rows [] [] opened position batch Hbatch)
    as (before & window & after & -> & Hb & Hw & Ha & _).
  { intros n _ Hn. by eapply (kept_open_before_window []). }
  assert (before = []) as ->.
  { apply elem_of_nil_inv. intros [n r] (_ & _ & Hr)%Hb. by rewrite lookup_nil in Hr. }
  assert (window = []) as ->.
  { apply elem_of_nil_inv. intros [n r] (_ & Hr)%Hw. by rewrite lookup_nil in Hr. }
  assert (after = []) as ->.
  { apply elem_of_nil_inv. intros [n r] (_ & _ & Hr)%Ha. by rewrite lookup_nil in Hr. }
  simpl. change (Z.of_nat 0 + Z.of_nat 0) with 0.
  by replace (Z.min (Z.max (position - halfBatchOf batch) 1) 0) with 0 by lia.
Qed.
End ServiceFailure.

(** Three lines of literal tuples. *)
Definition brokenLessTupleLines : string :=
  "7" +:+ String "010"%char ("8" +:+ String "010"%char "9").

(** A search with results that reports a message. *)
Definition failingSearch (query : string) (cache : unit)
    : (list (list Z) * string) * unit :=
  (([[1]; [2]], "bad syntax"%string), cache).

Lemma exposed_search_IndexError_witness :
  (exposed_search decimalInt id
     (λ q c, (([[1]], EmptyString), c)) (λ q c _, (([[1]], EmptyString), c))
     rowsOnly "word" brokenLessTupleLines false EmptyString 1 4 {[ 1; 2 ]} () ()).1
  = Raise IndexError
  ↔ ∃ n, n ∈ ({[ 1; 2 ]} : gset Z) ∧ 1 < n < 3.
Proof.
  apply (exposed_search_IndexError decimalInt id
           (λ q c, (([[1]], EmptyString), c)) (λ q c _, (([[1]], EmptyString), c))
           rowsOnly "word" brokenLessTupleLines false EmptyString 1 4 {[ 1; 2 ]} () ()).
  lia.
Defined.

Lemma exposed_search_without_literals_witness :
  ∃ rows start total,
    (exposed_search decimalInt id eightResults (λ q c _, eightResults q c) rowsOnly
       "word" EmptyString false EmptyString 2 5 {[ 1; 5; 8; 20 ]} () ()).1
    = Ok (rowsOnly rows start 5 {[ 1; 5; 8; 20 ]} false EmptyString (),
          EmptyString, EmptyString, start, total).
Proof.
  apply (exposed_search_without_literals decimalInt id eightResults
           (λ q c _, eightResults q c) rowsOnly "word" EmptyString false EmptyString
           2 5 {[ 1; 5; 8; 20 ]} () ()).
  - lia.
  - reflexivity.
Defined.

Lemma exposed_search_nothing_witness :
  (exposed_search decimalInt id failingSearch (λ q c _, failingSearch q c) rowsOnly
     "word" EmptyString false EmptyString 10 1 {[ 3 ]} () ()).1
  = Ok (rowsOnly [] 0 1 {[ 3 ]} false EmptyString (),
        EmptyString, "bad syntax"%string, 0, 0).
Proof.
  apply (exposed_search_nothing decimalInt id failingSearch
           (λ q c _, failingSearch q c) rowsOnly "word" EmptyString false EmptyString
           10 1 {[ 3 ]} () ()).
  - lia.
  - reflexivity.
  - reflexivity.
Defined.

(** ** More on the cache of the searches *)

Lemma tuple_leb_total (a b : list Z) : tuple_leb a b = true ∨ tuple_leb b a = true.
Proof.
  revert b. induction a as [|x a IH]; intros [|y b]; simpl; auto.
  repeat case_decide; auto; lia.
Qed.

Lemma tuple_leb_trans (a b c : list Z) :
  tuple_leb a b = true → tuple_leb b c = true → tuple_leb a c = true.
Proof.
  revert b c. induction a as [|x a IH]; intros [|y b] [|z c]; simpl; try done.
  repeat case_decide; try done; try lia. subst. apply IH.
Qed.

#[global] Instance tuple_le_total : Total tuple_le.
Proof.
  intros a b. unfold tuple_le.
  destruct (tuple_leb_total a b) as [->| ->]; [by left|by right].
Qed.

#[global] Instance tuple_le_trans : Transitive tuple_le.
Proof.
  intros a b c. unfold tuple_le.
  rewrite !Is_true_true. apply tuple_leb_trans.
Qed.

(** The results under the keys of plain searches are in ascending order. *)
Definition plainEntriesSorted (c : gmap cacheKey cacheValue) : Prop :=
  ∀ query v, c !! (query, false, None) = Some v → StronglySorted tuple_le v.1.1.

Section CacheProperties.
Context {Sets : Type}.
Variable condense : list (list Z) → string → list (list Z).

(** X8: [runSearch] and [runSearchCondensed] keep every entry that is in
    the cache as it is, and leave alone the keys of all other queries. *)
Theorem cache_entries_kept (app : App Sets) (query condenseType : string)
    (st : SearchState) (k : cacheKey) :
  (∀ v, cache st !! k = Some v →
        cache (runSearch app query st).2 !! k = Some v
        ∧ cache (runSearchCondensed condense app query st condenseType).2 !! k
          = Some v)
  ∧ (k.1.1 ≠ query →
     cache (runSearch app query st).2 !! k = cache st !! k
     ∧ cache (runSearchCondensed condense app query st condenseType).2 !! k
       = cache st !! k).
Proof.
  assert (Hplain : ∀ st' : SearchState,
            (∀ v, cache st' !! k = Some v →
                  cache (runSearch app query st').2 !! k = Some v)
            ∧ (k.1.1 ≠ query → cache (runSearch app query st').2 !! k = cache st' !! k)).
  { intros st'. unfold runSearch.
    destruct (cache st' !! (query, false, None)) as [v'|] eqn:Hhit; [done|].
    destruct (plainSearch app query (sets app)) as [[rs msgs] exe]. simpl.
    split.
    - intros v Hv. rewrite lookup_insert_ne; [done|]. congruence.
    - intros Hk. rewrite lookup_insert_ne; [done|]. intros <-. done. }
  destruct (Hplain st) as [Hkeep Hother].
  assert (Hcond : (∀ v, cache st !! k = Some v →
                        cache (runSearchCondensed condense app query st condenseType).2
                          !! k = Some v)
                  ∧ (k.1.1 ≠ query →
                     cache (runSearchCondensed condense app query st condenseType).2
                       !! k = cache st !! k)).
  { unfold runSearchCondensed.
    destruct (cache st !! (query, true, Some condenseType)) as [v'|] eqn:Hhit; [done|].
    destruct (runSearch app query st) as [[[rs msgs] features] st'] eqn:Hrun.
    simpl in *. split.
    - intros v Hv. rewrite lookup_insert_ne; [by apply Hkeep|]. congruence.
    - intros Hk. rewrite lookup_insert_ne; [by apply Hother|]. intros <-. done. }
  destruct Hcond as [Hkeep' Hother']. split; [intros v Hv|intros Hk]; split; auto.
Qed.

(** X9: when the results stored for plain searches are in ascending order
    of tuples, as they are in the empty cache, [runSearch] returns results
    in ascending order and the cache stays so, also after
    [runSearchCondensed]; and on a miss the results are those of the engine,
    rearranged. *)
Theorem runSearch_ascending (app : App Sets) (query condenseType : string)
    (st : SearchState) :
  plainEntriesSorted (cache st) →
  StronglySorted tuple_le (runSearch app query st).1.1.1
  ∧ plainEntriesSorted (cache (runSearch app query st).2)
  ∧ plainEntriesSorted
      (cache (runSearchCondensed condense app query st condenseType).2)
  ∧ (cache st !! (query, false, None) = None →
     (runSearch app query st).1.1.1 ≡ₚ (plainSearch app query (sets app)).1.1).
Proof.
  intros Hsorted.
  assert (Hplain : StronglySorted tuple_le (runSearch app query st).1.1.1
                   ∧ plainEntriesSorted (cache (runSearch app query st).2)).
  { unfold runSearch.
    destruct (cache st !! (query, false, None)) as [v|] eqn:Hhit.
    - split; [by eapply Hsorted|done].
    - destruct (plainSearch app query (sets app)) as [[rs msgs] exe]. simpl.
      split; [apply StronglySorted_merge_sort; apply _|].
      intros q v. destruct (decide (q = query)) as [->|Hne].
      + rewrite lookup_insert_eq. intros [= <-]. simpl.
        apply StronglySorted_merge_sort; apply _.
      + rewrite lookup_insert_ne by congruence. apply Hsorted. }
  destruct Hplain as [Hres Hcache]. split; [done|]. split; [done|]. split.
  - unfold runSearchCondensed.
    destruct (cache st !! (query, true, Some condenseType)) as [v|]; [done|].
    destruct (runSearch app query st) as [[[rs msgs] features] st']. simpl in *.
    intros q v. rewrite lookup_insert_ne by congruence. apply Hcache.
  - intros Hmiss. unfold runSearch. rewrite Hmiss.
    destruct (plainSearch app query (sets app)) as [[rs msgs] exe]. simpl.
    apply merge_sort_Permutation.
Qed.

(** X10: a second call of [runSearchCondensed] gives the value of the first
    and changes nothing; a call makes the engine run at most once; and
    after a call that did not find its key, a plain [runSearch] for the same
    query is answered from the cache, with the messages and features that
    the condensed result came with. *)
Theorem runSearchCondensed_then (app : App Sets) (query condenseType : string)
    (st : SearchState) :
  let first := runSearchCondensed condense app query st condenseType in
  runSearchCondensed condense app query first.2 condenseType = first
  ∧ (engineCalls first.2 = engineCalls st
     ∨ engineCalls first.2 = engineCalls st ++ [query])
  ∧ (cache st !! (query, true, Some condenseType) = None →
     (runSearch app query first.2).2 = first.2
     ∧ (runSearch app query first.2).1 = (runSearch app query st).1
     ∧ first.1.1.1 = condense (runSearch app query st).1.1.1 condenseType
     ∧ first.1.1.2 = (runSearch app query st).1.1.2
     ∧ first.1.2 = (runSearch app query st).1.2).
Proof.
  intros first. subst first.
  destruct (cache st !! (query, true, Some condenseType)) as [v|] eqn:Hhit.
  - assert (Hfirst : runSearchCondensed condense app query st condenseType = (v, st))
      by (unfold runSearchCondensed; by rewrite Hhit).
    rewrite Hfirst. simpl. split; [done|]. split; [by left|done].
  - assert (Hcalls : engineCalls (runSearch app query st).2 = engineCalls st
                     ∨ engineCalls (runSearch app query st).2
                       = engineCalls st ++ [query]).
    { unfold runSearch. destruct (cache st !! (query, false, None)); [by left|].
      destruct (plainSearch app query (sets app)) as [[rs msgs] exe]. by right. }
    assert (Hplain : cache (runSearch app query st).2 !! (query, false, None)
                     = Some (runSearch app query st).1).
    { unfold runSearch. destruct (cache st !! (query, false, None)) as [v|] eqn:Hp.
      - done.
      - destruct (plainSearch app query (sets app)) as [[rs msgs] exe]. simpl.
        by rewrite lookup_insert_eq. }
    destruct (runSearch app query st) as [[[rs msgs] features] st'] eqn:Hrun.
    simpl in *.
    assert (Hfirst : runSearchCondensed condense app query st condenseType
                     = ((condense rs condenseType, msgs, features),
                        {| cache := <[(query, true, Some condenseType)
                                       := (condense rs condenseType, msgs, features)]>
                                      (cache st');
                           engineCalls := engineCalls st' |}))
      by (unfold runSearchCondensed; by rewrite Hhit, Hrun).
    rewrite Hfirst. simpl. split; [|split; [done|]].
    + unfold runSearchCondensed. simpl. by rewrite lookup_insert_eq.
    + intros _. unfold runSearch. simpl.
      rewrite lookup_insert_ne by congruence. by rewrite Hplain.
Qed.

(** X11: the key of the cache is the query alone: once a query is in the
    cache, any app, with other custom sets or another engine, gets the
    stored value for it, and the engine is not asked. *)
Theorem runSearch_ignores_app (app app' : App Sets) (query : string)
    (st : SearchState) :
  runSearch app' query (runSearch app query st).2
  = ((runSearch app query st).1, (runSearch app query st).2).
Proof.
  unfold runSearch at 2 3 4.
  destruct (cache st !! (query, false, None)) as [v|] eqn:Hhit.
  - simpl. unfold runSearch. by rewrite Hhit.
  - destruct (plainSearch app query (sets app)) as [[rs msgs] exe].
    unfold runSearch. simpl. by rewrite lookup_insert_eq.
Qed.
End CacheProperties.

Lemma plainEntriesSorted_empty : plainEntriesSorted ∅.
Proof. intros q v Hv. by rewrite lookup_empty in Hv. Qed.

Lemma runSearch_ascending_witness :
  StronglySorted tuple_le (runSearch complainingApp "word" emptySearchState).1.1.1
  ∧ plainEntriesSorted (cache (runSearch complainingApp "word" emptySearchState).2)
  ∧ plainEntriesSorted
      (cache (runSearchCondensed (λ rs _, rs) complainingApp "word"
                emptySearchState "book").2)
  ∧ (cache emptySearchState !! ("word"%string, false, None) = None →
     (runSearch complainingApp "word" emptySearchState).1.1.1
     ≡ₚ (plainSearch complainingApp "word" (sets complainingApp)).1.1).
Proof.
  apply (runSearch_ascending (λ rs _, rs) complainingApp "word" "book"
           emptySearchState).
  apply plainEntriesSorted_empty.
Defined.

(** ** The features of a query *)

#[global] Instance string_le_trans : Transitive string_le.
Proof. change (Transitive String.le). apply _. Qed.

#[global] Instance string_le_total : Total string_le.
Proof. change (Total String.le). apply _. Qed.

(** X12: [featuresOf] gives nothing when there is no executed query, and
    otherwise one entry for every query node, numbered from 0: the names of
    the features in the conditions of the node together with those that
    [nodeMap] of [S.exe] has for its number, every name once, in ascending
    order. *)
Theorem featuresOf_entries (e : SearchExe) (sExe : option SearchExe) :
  featuresOf None sExe = []
  ∧ length (featuresOf (Some e) sExe) = length (qnodes e)
  ∧ ∀ i q, qnodes e !! i = Some q →
      ∃ fs, featuresOf (Some e) sExe !! i = Some (Z.of_nat i, fs)
            ∧ StronglySorted string_le fs
            ∧ NoDup fs
            ∧ ∀ f, f ∈ fs
                   ↔ f ∈ dom q.2
                     ∨ f ∈ default ∅ (from_option nodeMap ∅ sExe !! Z.of_nat i).
Proof.
  split; [done|]. split.
  - unfold featuresOf, py_enumerate. by rewrite length_map, length_imap.
  - intros i q Hq. unfold featuresOf, py_enumerate.
    change (map ?f ?l) with (f <$> l).
    rewrite list_lookup_fmap, list_lookup_imap, Hq. simpl.
    eexists. split; [done|]. split; [|split].
    + apply StronglySorted_merge_sort; apply _.
    + rewrite merge_sort_Permutation. apply NoDup_elements.
    + intros f. rewrite merge_sort_Permutation, elem_of_elements, elem_of_union.
      done.
Qed.

(** ** The function [search] *)

Section StableSort.
Context {A : Type} (R : relation A) `{!RelDecision R}.

Lemma insertSorted_Permutation (x : A) (l : list A) :
  insertSorted R x l ≡ₚ x :: l.
Proof.
  induction l as [|y l IH]; [done|]. simpl. case_decide; [done|].
  rewrite IH. apply Permutation_swap.
Qed.

Lemma stableSort_Permutation (l : list A) : stableSort R l ≡ₚ l.
Proof.
  induction l as [|x l IH]; [done|]. cbn [stableSort foldr].
  fold (stableSort R l). by rewrite insertSorted_Permutation, IH.
Qed.

Lemma insertSorted_sorted `{!Transitive R, !Total R} (x : A) (l : list A) :
  StronglySorted R l → StronglySorted R (insertSorted R x l).
Proof.
  intros Hsorted. induction Hsorted as [|y l Hsorted IH Hall]; simpl.
  - repeat constructor.
  - case_decide as Hxy.
    + constructor; [by constructor|]. constructor; [done|].
      eapply Forall_impl; [exact Hall|]. intros z Hz. by transitivity y.
    + constructor; [done|]. rewrite insertSorted_Permutation.
      constructor; [|done]. by destruct (total R x y).
Qed.

Lemma StronglySorted_stableSort `{!Transitive R, !Total R} (l : list A) :
  StronglySorted R (stableSort R l).
Proof.
  induction l as [|x l IH]; [constructor|]. cbn [stableSort foldr].
  by apply insertSorted_sorted.
Qed.

(** The sort is stable: the items that compare equal to a given one come
    out in the order in which they went in. *)
Lemma stableSort_stable `{!Transitive R} (x : A) (l : list A) :
  filter (λ y, R x y ∧ R y x) (stableSort R l) = filter (λ y, R x y ∧ R y x) l.
Proof.
  induction l as [|a l IH]; [done|]. cbn [stableSort foldr].
  fold (stableSort R l). rewrite filter_cons, <- IH. clear IH.
  induction (stableSort R l) as [|y s IHs]; [done|]. simpl.
  destruct (decide (R a y)) as [Hay|Hay]; [by rewrite filter_cons|].
  rewrite !filter_cons, IHs.
  destruct (decide (R x a ∧ R a x)) as [[Hxa Hax]|Ha]; [|done].
  destruct (decide (R x y ∧ R y x)) as [[Hxy Hyx]|Hy]; [|done].
  destruct Hay. by transitivity x.
Qed.
End StableSort.

Example sortByKey_keeps_ties :
  sortByKey Z.le [(1, "b"%string); (0, "c"%string); (1, "a"%string)]
  = ["c"; "b"; "a"]%string.
Proof. reflexivity. Qed.

Section SearchProperties.
Context {Sets K : Type}.
Variable le : relation K.
Context `{!RelDecision le, !Transitive le, !Total le}.
Variable S_search :
  string → option Sets → nat → pyIterable (list Z) * option SearchExe.
Variable sortKeyTuple : list Z → K.

#[local] Instance byKey_trans {A} : Transitive (byKey (A:=A) le).
Proof. intros a b c. unfold byKey. apply transitivity. Qed.

#[local] Instance byKey_total {A} : Total (byKey (A:=A) le).
Proof. intros a b. unfold byKey. apply total, _. Qed.

Lemma StronglySorted_keys {A} (key : A → K) (ps : list (K * A)) :
  StronglySorted (byKey le) ps → Forall (λ p, p.1 = key p.2) ps →
  StronglySorted (λ a b, le (key a) (key b)) ps.*2.
Proof.
  intros Hsorted. induction Hsorted as [|p ps Hsorted IH Hall]; intros Hkeys;
    [constructor|].
  apply Forall_cons in Hkeys as [Hp Hps]. rewrite fmap_cons.
  constructor; [by apply IH|].
  apply Forall_fmap, Forall_forall. intros q Hq.
  rewrite Forall_forall in Hall, Hps.
  specialize (Hall q Hq). specialize (Hps q Hq). unfold byKey in Hall.
  simpl. by rewrite <- Hp, <- Hps.
Qed.

(** The items come out of the sort as they went in, in the order of their
    keys. *)
Lemma sortByKey_sorted {A} (key : A → K) (l : list A) :
  sortByKey le ((λ x, (key x, x)) <$> l) ≡ₚ l
  ∧ StronglySorted (λ a b, le (key a) (key b))
      (sortByKey le ((λ x, (key x, x)) <$> l)).
Proof.
  unfold sortByKey.
  pose proof (stableSort_Permutation (byKey le) ((λ x, (key x, x)) <$> l)) as Hperm.
  split.
  - rewrite Hperm, <- list_fmap_compose. by rewrite list_fmap_id.
  - apply StronglySorted_keys.
    + apply StronglySorted_stableSort; apply _.
    + rewrite Hperm. apply Forall_fmap, Forall_forall. by intros x _.
Qed.

Lemma keyed_Raise {A} (key : A → pyres K) (l : list A) (x : A) (e : pyExn) :
  x ∈ l → key x = Raise e → ∃ e', keyed key l = Raise e'.
Proof.
  induction l as [|y l IH]; intros Hx He; [by apply elem_of_nil in Hx|].
  simpl. destruct (key y) as [k|e'] eqn:Hy; [|by exists e'].
  apply elem_of_cons in Hx as [->|Hx]; [congruence|].
  destruct (IH Hx He) as [e' ->]. by exists e'.
Qed.

(** X13: in a search that is not shallow, with a sort key that raises for
    one of the results, a warning is written, and the results returned are
    what is left in what the engine gave: all results in the order of the
    engine when that is a list, and none when it is a generator, which the
    attempt to sort has used up; the number reported is then 0. *)
Theorem search_sort_key_raises (query : string) (silent : bool)
    (sets : option Sets) (key : list Z → pyres K) (wasSilent : bool)
    (l : list (list Z)) (t : list Z) (e : pyExn) :
  t ∈ l → key t = Raise e →
  ((S_search query sets 0%nat).1 = GeneratorOf l →
   search le S_search sortKeyTuple query silent sets 0 (SortKey key) wasSilent
   = (Ok (Collection []),
      {| warned := true;
         displayed := if (S_search query sets 0%nat).2 is Some _
                      then Some (featuresOf (S_search query sets 0%nat).2
                                   (S_search query sets 0%nat).2)
                      else None;
         reported := if silent then None else Some "0 results"%string;
         silentAfter := wasSilent |}))
  ∧ ((S_search query sets 0%nat).1 = Collection l →
     (search le S_search sortKeyTuple query silent sets 0 (SortKey key) wasSilent).1
     = Ok (Collection l)
     ∧ warned (search le S_search sortKeyTuple query silent sets 0 (SortKey key)
                 wasSilent).2 = true).
Proof.
  intros Ht He. destruct (keyed_Raise key l t e Ht He) as [e' Hkeyed].
  unfold search. destruct (S_search query sets 0%nat) as [results exe]. simpl.
  split; intros ->; unfold py_sorted_key; simpl; rewrite Hkeyed; simpl.
  - by destruct exe, silent.
  - done.
Qed.

(** X14: in a search that is not shallow, the results are those of the
    engine: in the order of the engine when [sort] is false, and in the
    order of the keys of [sortKeyTuple] when [sort] is [True]; the number
    reported is the number of results, with [result] in the singular for
    exactly one. *)
Theorem search_results (query : string) (sets : option Sets)
    (wasSilent : bool) (sort : sortArg K) :
  let l := (py_list (S_search query sets 0%nat).1).1 in
  let out := search le S_search sortKeyTuple query false sets 0 sort wasSilent in
  (sort = SortOff → out.1 = Ok (Collection l))
  ∧ (sort = SortCanonical →
     ∃ rs, out.1 = Ok (Collection rs)
           ∧ rs ≡ₚ l
           ∧ StronglySorted (λ a b, le (sortKeyTuple a) (sortKeyTuple b)) rs)
  ∧ (sort = SortOff ∨ sort = SortCanonical →
     reported out.2
     = Some (pretty (length l) +:+ " result"
             +:+ (if decide (length l = 1%nat) then EmptyString else "s"%string))).
Proof.
  intros l out. subst l out. unfold search.
  destruct (S_search query sets 0%nat) as [results exe]. simpl.
  destruct (sortByKey_sorted sortKeyTuple (py_list results).1) as [Hperm Hsorted].
  split; [by intros ->|]. split.
  - intros ->. simpl. by eexists.
  - intros [-> | ->]; simpl; [done|].
    by rewrite (Permutation_length Hperm).
Qed.
End SearchProperties.

(** An engine that yields two results from a generator, or gives them as a
    list when asked for sets [true]. *)
Definition twoResults (query : string) (sets : option bool) (shallow : nat)
    : pyIterable (list Z) * option SearchExe :=
  (if sets is Some true then Collection [[3]; [1; 2]] else GeneratorOf [[3]; [1; 2]],
   None).

Lemma search_sort_key_raises_witness :
  ((twoResults "word" None 0%nat).1 = GeneratorOf [[3]; [1; 2]] →
   search Z.le twoResults (λ t, default 0 (head t)) "word" false None 0
     (SortKey (λ t, if decide (length t = 1%nat) then Ok 0 else Raise TypeError))
     false
   = (Ok (Collection []),
      {| warned := true;
         displayed := if (twoResults "word" None 0%nat).2 is Some _
                      then Some (featuresOf (twoResults "word" None 0%nat).2
                                   (twoResults "word" None 0%nat).2)
                      else None;
         reported := Some "0 results"%string;
         silentAfter := false |}))
  ∧ ((twoResults "word" None 0%nat).1 = Collection [[3]; [1; 2]] →
     (search Z.le twoResults (λ t, default 0 (head t)) "word" false None 0
        (SortKey (λ t, if decide (length t = 1%nat) then Ok 0 else Raise TypeError))
        false).1
     = Ok (Collection [[3]; [1; 2]])
     ∧ warned (search Z.le twoResults (λ t, default 0 (head t)) "word" false None 0
                 (SortKey (λ t, if decide (length t = 1%nat) then Ok 0
                                else Raise TypeError))
                 false).2 = true).
Proof.
  apply (search_sort_key_raises Z.le twoResults (λ t, default 0 (head t)) "word"
           false None
           (λ t, if decide (length t = 1%nat) then Ok 0 else Raise TypeError)
           false [[3]; [1; 2]] [1; 2] TypeError).
  - apply (bool_decide_unpack _). vm_compute. exact I.
  - reflexivity.
Defined.

Lemma search_results_witness :
  (@SortCanonical Z = SortOff →
   (search Z.le twoResults (λ t, default 0 (head t)) "word" false None 0
      SortCanonical false).1
   = Ok (Collection (py_list (twoResults "word" None 0%nat).1).1))
  ∧ (@SortCanonical Z = SortCanonical →
     ∃ rs, (search Z.le twoResults (λ t, default 0 (head t)) "word" false None 0
              SortCanonical false).1 = Ok (Collection rs)
           ∧ rs ≡ₚ (py_list (twoResults "word" None 0%nat).1).1
           ∧ StronglySorted
               (λ a b, default 0 (head a) ≤ default 0 (head b)) rs)
  ∧ (@SortCanonical Z = SortOff ∨ @SortCanonical Z = SortCanonical →
     reported (search Z.le twoResults (λ t, default 0 (head t)) "word" false None 0
                 SortCanonical false).2
     = Some (pretty (length (py_list (twoResults "word" None 0%nat).1).1)
             +:+ " result"
             +:+ (if decide (length (py_list (twoResults "word" None 0%nat).1).1
                             = 1%nat)
                  then EmptyString else "s"%string))).
Proof.
  apply (search_results Z.le twoResults (λ t, default 0 (head t)) "word" None false
           SortCanonical).
Defined.

Example search_sorts :
  (search Z.le twoResults (λ t, default 0 (head t)) "word" false None 0
     SortCanonical false)
  = (Ok (Collection [[1; 2]; [3]]),
     {| warned := false; displayed := None;
        reported := Some "2 results"%string; silentAfter := false |}).
Proof. vm_compute. reflexivity. Qed.

(** ** The names and the targets of formats *)

(** Whether a character occurs in a string. *)
Fixpoint hasChar (c : Ascii.ascii) (s : string) : bool :=
  match s with
  | EmptyString => false
  | String c' s' => bool_decide (c' = c) || hasChar c s'
  end.

Lemma string_app_nil (s : string) : EmptyString +:+ s = s.
Proof. reflexivity. Qed.

Lemma string_app_cons (c : Ascii.ascii) (a s : string) :
  String c a +:+ s = String c (a +:+ s).
Proof. reflexivity. Qed.

Lemma py_rsplit1_None (sep : Ascii.ascii) (s : string) :
  py_rsplit1 sep s = None ↔ hasChar sep s = false.
Proof.
  induction s as [|c s IH]; simpl; [done|].
  destruct (py_rsplit1 sep s) as [[a b]|].
  - split; [done|]. intros [_ Hs]%orb_false_iff. apply IH in Hs. done.
  - destruct IH as [IH _]. rewrite (IH eq_refl), orb_false_r.
    case_decide.
    + by rewrite bool_decide_eq_true_2.
    + by rewrite bool_decide_eq_false_2.
Qed.

Lemma hasChar_app (sep : Ascii.ascii) (a b : string) :
  hasChar sep (a +:+ String sep b) = true.
Proof.
  induction a as [|c a IH]; rewrite ?string_app_nil, ?string_app_cons; simpl.
  - by rewrite bool_decide_eq_true_2.
  - by rewrite IH, orb_true_r.
Qed.

Lemma py_rsplit1_Some (sep : Ascii.ascii) (s a b : string) :
  py_rsplit1 sep s = Some (a, b)
  ↔ s = a +:+ String sep b ∧ hasChar sep b = false.
Proof.
  revert a. induction s as [|c s IH]; intros a; simpl.
  - split; [done|]. intros [Heq _]. by destruct a.
  - destruct (py_rsplit1 sep s) as [[a' b']|] eqn:Hs.
    + split.
      * intros [= <- <-]. destruct (proj1 (IH a') eq_refl) as [Heq Hb].
        by rewrite string_app_cons, <- Heq.
      * intros [Heq Hb]. destruct a as [|c' a].
        -- rewrite string_app_nil in Heq. injection Heq as -> ->.
           apply py_rsplit1_None in Hb. congruence.
        -- rewrite string_app_cons in Heq. injection Heq as -> Heq.
           pose proof (proj2 (IH a) (conj Heq Hb)). by simplify_eq.
    + apply py_rsplit1_None in Hs. case_decide as Hc.
      * subst c. split.
        -- by intros [= <- <-].
        -- intros [Heq Hb]. destruct a as [|c' a].
           ++ rewrite string_app_nil in Heq. by injection Heq as ->.
           ++ rewrite string_app_cons in Heq. injection Heq as -> ->.
              by rewrite hasChar_app in Hs.
      * split; [done|]. intros [Heq Hb]. destruct a as [|c' a].
        -- rewrite string_app_nil in Heq. by injection Heq as -> ->.
        -- rewrite string_app_cons in Heq. injection Heq as -> ->.
           by rewrite hasChar_app in Hs.
Qed.

Lemma py_split1_Some (sep : Ascii.ascii) (s a b : string) :
  py_split1 sep s = Some (a, b)
  ↔ s = a +:+ String sep b ∧ hasChar sep a = false.
Proof.
  revert a. induction s as [|c s IH]; intros a; simpl.
  - split; [done|]. intros [Heq _]. by destruct a.
  - case_decide as Hc.
    + subst c. split.
      * by intros [= <- <-].
      * intros [Heq Ha]. destruct a as [|c' a].
        -- rewrite string_app_nil in Heq. by injection Heq as ->.
        -- rewrite string_app_cons in Heq. injection Heq as -> ->.
           simpl in Ha. by rewrite bool_decide_eq_true_2 in Ha.
    + destruct (py_split1 sep s) as [[a' b']|] eqn:Hs; simpl.
      * split.
        -- intros [= <- <-]. destruct (proj1 (IH a') eq_refl) as [Heq Ha].
           rewrite string_app_cons, <- Heq. simpl.
           by rewrite bool_decide_eq_false_2.
        -- intros [Heq Ha]. destruct a as [|c' a].
           ++ rewrite string_app_nil in Heq. by injection Heq as -> ->.
           ++ rewrite string_app_cons in Heq. injection Heq as -> Heq.
              simpl in Ha. apply orb_false_iff in Ha as [_ Ha].
              pose proof (proj2 (IH a) (conj Heq Ha)). by simplify_eq.
      * split; [done|]. intros [Heq Ha]. destruct a as [|c' a].
        -- rewrite string_app_nil in Heq. by injection Heq as -> ->.
        -- rewrite string_app_cons in Heq. injection Heq as -> Heq.
           simpl in Ha. apply orb_false_iff in Ha as [_ Ha].
           by pose proof (proj2 (IH a) (conj Heq Ha)).
Qed.

(** The name of a default format, its type, and the target type of a
    template. *)
Lemma splitDefaultFormat_type (A : Api) (fmt tp : string) :
  splitDefaultFormat A fmt = Some tp → tp ∈ otypeAll A.
Proof.
  unfold splitDefaultFormat.
  destruct (py_rsplit1 SEP fmt) as [[a b]|]; [|done].
  case_decide as Hd; [|done]. destruct Hd as [_ Ha]. by intros [= <-].
Qed.

Lemma splitDefaultFormat_name (A : Api) (fmt tp : string) :
  splitDefaultFormat A fmt = Some tp → fmt = tp +:+ "-default".
Proof.
  unfold splitDefaultFormat.
  destruct (py_rsplit1 SEP fmt) as [[a b]|] eqn:Hsplit; [|done].
  apply py_rsplit1_Some in Hsplit as [-> _]. case_decide as Hd; [|done].
  destruct Hd as [-> _]. by intros [= <-].
Qed.

Lemma splitFormat_target (A : Api) (tpl : string) :
  (splitFormat A tpl).1 = slotType A ∨ (splitFormat A tpl).1 ∈ otypeAll A.
Proof.
  unfold splitFormat.
  destruct (py_split1 TYPE_FMT_SEP tpl) as [[d rest]|]; [|by left].
  case_decide; [by right|by left].
Qed.

(** X15: [splitDefaultFormat] gives a type for exactly the format names
    that are the name of a node type followed by [-default]; the type may
    itself contain hyphens. *)
Theorem splitDefaultFormat_Some (A : Api) (fmt tp : string) :
  splitDefaultFormat A fmt = Some tp
  ↔ fmt = tp +:+ "-default" ∧ tp ∈ otypeAll A.
Proof.
  unfold splitDefaultFormat.
  destruct (py_rsplit1 SEP fmt) as [[a b]|] eqn:Hsplit.
  - apply py_rsplit1_Some in Hsplit as [-> Hb]. case_decide as Hd.
    + destruct Hd as [-> Ha]. split; [by intros [= <-]|].
      intros [Heq _]. f_equal.
      assert (Hsplit : py_rsplit1 SEP (tp +:+ "-default") = Some (a, "default"%string))
        by (rewrite <- Heq; by apply py_rsplit1_Some).
      apply py_rsplit1_Some in Hsplit as [Heq' _].
      assert (Htp : py_rsplit1 SEP (tp +:+ "-default") = Some (tp, "default"%string))
        by (by apply py_rsplit1_Some).
      assert (Ha' : py_rsplit1 SEP (tp +:+ "-default") = Some (a, "default"%string))
        by (rewrite <- Heq; by apply py_rsplit1_Some).
      congruence.
    + split; [done|]. intros [Heq Htp]. destruct Hd.
      assert (Htp' : py_rsplit1 SEP (tp +:+ "-default") = Some (tp, "default"%string))
        by (by apply py_rsplit1_Some).
      assert (Ha' : py_rsplit1 SEP (tp +:+ "-default") = Some (a, b))
        by (rewrite <- Heq; by apply py_rsplit1_Some).
      by simplify_eq.
  - split; [done|]. intros [-> _].
    assert (Htp : py_rsplit1 SEP (tp +:+ "-default") = Some (tp, "default"%string))
      by (by apply py_rsplit1_Some).
    congruence.
Qed.

(** X16: [splitFormat] takes a target type off a template exactly when
    the text before the first [#] is a node type; then the template is the
    type, [#] and the rest. Otherwise the target is the slot type and the
    template is left whole, with any [#] in it. *)
Theorem splitFormat_cases (A : Api) (tpl : string) :
  (∃ d rest, tpl = d +:+ String TYPE_FMT_SEP rest
             ∧ hasChar TYPE_FMT_SEP d = false
             ∧ d ∈ otypeAll A
             ∧ splitFormat A tpl = (d, rest))
  ∨ ((∀ d rest, tpl = d +:+ String TYPE_FMT_SEP rest →
                hasChar TYPE_FMT_SEP d = false → d ∉ otypeAll A)
     ∧ splitFormat A tpl = (slotType A, tpl)).
Proof.
  unfold splitFormat.
  destruct (py_split1 TYPE_FMT_SEP tpl) as [[d rest]|] eqn:Hsplit.
  - pose proof Hsplit as [Heq Hd]%py_split1_Some. case_decide as Hin.
    + left. by exists d, rest.
    + right. split; [|done]. intros d' rest' Heq' Hd'.
      assert (py_split1 TYPE_FMT_SEP tpl = Some (d', rest'))
        by (by apply py_split1_Some).
      by simplify_eq.
  - right. split; [|done]. intros d rest Heq Hd.
    assert (py_split1 TYPE_FMT_SEP tpl = Some (d, rest))
      by (by apply py_split1_Some).
    congruence.
Qed.

(** ** The tables of the compiled formats *)

Section CompiledFormats.
Variable py_format : string → list featureValue → pyres string.
Variable unescape : string → string.

Abbreviation step := (compileStep py_format unescape).

Lemma compileStep_api (T0 : Text) (item : string * (string * list featureRef)) :
  api (step T0 item) = api T0.
Proof.
  destruct item as [f [rtpl feats]]. unfold compileStep.
  by destruct (splitFormat (api T0) rtpl).
Qed.

Lemma compile_api (T0 : Text) (items : list (string * (string * list featureRef))) :
  api (foldl step T0 items) = api T0.
Proof.
  revert T0. induction items as [|[fmt [rtpl feats]] items IH]; intros T0; [done|].
  simpl. rewrite IH. unfold compileStep.
  by destruct (splitFormat (api T0) rtpl).
Qed.

Lemma compile_xformats (T0 : Text)
    (items : list (string * (string * list featureRef))) (fmt : string) :
  is_Some (_xformats (foldl step T0 items) !! fmt)
  ↔ is_Some (_xformats T0 !! fmt) ∨ fmt ∈ items.*1.
Proof.
  revert T0. induction items as [|[f [rtpl feats]] items IH]; intros T0; simpl.
  - rewrite elem_of_nil. tauto.
  - rewrite IH, elem_of_cons. unfold compileStep.
    destruct (splitFormat (api T0) rtpl). simpl.
    rewrite lookup_insert_is_Some. destruct (decide (f = fmt)) as [->|Hne]; [intuition auto|intuition congruence].
Qed.

Lemma compile_xdTypes_dom (T0 : Text)
    (items : list (string * (string * list featureRef))) (fmt : string) :
  is_Some (_xdTypes (foldl step T0 items) !! fmt)
  ↔ is_Some (_xdTypes T0 !! fmt) ∨ fmt ∈ items.*1.
Proof.
  revert T0. induction items as [|[f [rtpl feats]] items IH]; intros T0; simpl.
  - rewrite elem_of_nil. tauto.
  - rewrite IH, elem_of_cons. unfold compileStep.
    destruct (splitFormat (api T0) rtpl). simpl.
    rewrite lookup_insert_is_Some. destruct (decide (f = fmt)) as [->|Hne]; [intuition auto|intuition congruence].
Qed.

Lemma compile_xdTypes (T0 : Text)
    (items : list (string * (string * list featureRef))) (fmt d : string) :
  _xdTypes (foldl step T0 items) !! fmt = Some d →
  _xdTypes T0 !! fmt = Some d
  ∨ ∃ rtpl, rtpl ∈ items.*2.*1 ∧ d = (splitFormat (api T0) rtpl).1.
Proof.
  revert T0. induction items as [|[f [rtpl feats]] items IH]; intros T0 Hd; simpl in *.
  - by left.
  - apply IH in Hd as [Hd|(rtpl' & Hin & Hd)].
    + unfold compileStep in Hd.
      destruct (splitFormat (api T0) rtpl) as [d' rest] eqn:Hsplit. simpl in Hd.
      destruct (decide (f = fmt)) as [->|Hne].
      * rewrite lookup_insert_eq in Hd. simplify_eq. right. exists rtpl.
        split; [left|by rewrite Hsplit].
      * rewrite lookup_insert_ne in Hd by done. by left.
    + right. exists rtpl'. split; [by right|].
      rewrite Hd. f_equal. unfold compileStep.
      by destruct (splitFormat (api T0) rtpl).
Qed.

Lemma compile_defaultFormats_1 (T0 : Text)
    (items : list (string * (string * list featureRef))) (tp fmt : string) :
  defaultFormats (foldl step T0 items) !! tp = Some fmt →
  defaultFormats T0 !! tp = Some fmt
  ∨ (fmt ∈ items.*1 ∧ splitDefaultFormat (api T0) fmt = Some tp
     ∧ str_truthy tp = true).
Proof.
  revert T0. induction items as [|[f [rtpl feats]] items IH]; intros T0 Hd; simpl in *.
  - by left.
  - apply IH in Hd as [Hd|(Hin & Hd & Htp)].
    + unfold compileStep in Hd. destruct (splitFormat (api T0) rtpl). simpl in Hd.
      destruct (splitDefaultFormat (api T0) f) as [tp'|] eqn:Hf; [|by left].
      destruct (str_truthy tp') eqn:Htp'; [|by left].
      destruct (decide (tp' = tp)) as [->|Hne].
      * rewrite lookup_insert_eq in Hd. simplify_eq. right. split; [left|done].
      * rewrite lookup_insert_ne in Hd by done. by left.
    + right. split; [by right|].
      by rewrite <- (compileStep_api T0 (f, (rtpl, feats))).
Qed.

(** The empty name of a type gets no default format. *)
Lemma compile_defaultFormats_empty (T0 : Text)
    (items : list (string * (string * list featureRef))) :
  defaultFormats (foldl step T0 items) !! EmptyString
  = defaultFormats T0 !! EmptyString.
Proof.
  revert T0. induction items as [|[f [rtpl feats]] items IH]; intros T0; [done|].
  cbn [foldl]. rewrite IH. unfold compileStep.
  destruct (splitFormat (api T0) rtpl). simpl.
  destruct (splitDefaultFormat (api T0) f) as [tp'|]; [|done].
  destruct (str_truthy tp') eqn:Htp'; [|done].
  rewrite lookup_insert_ne; [done|]. by intros ->.
Qed.

Lemma compile_defaultFormats_2 (T0 : Text)
    (items : list (string * (string * list featureRef))) (tp fmt : string) :
  splitDefaultFormat (api T0) fmt = Some tp →
  str_truthy tp = true →
  defaultFormats T0 !! tp = Some fmt ∨ fmt ∈ items.*1 →
  defaultFormats (foldl step T0 items) !! tp = Some fmt.
Proof.
  revert T0.
  induction items as [|[f [rtpl feats]] items IH]; intros T0 Hsplit Htp Hin;
    simpl in *.
  - destruct Hin as [Hin|Hin]; [done|by apply elem_of_nil in Hin].
  - apply IH;
      [by rewrite <- (compileStep_api T0 (f, (rtpl, feats))) in Hsplit|done|].
    destruct (decide (fmt ∈ items.*1)) as [|Hnotin]; [by right|]. left.
    unfold compileStep. destruct (splitFormat (api T0) rtpl). simpl.
    destruct (splitDefaultFormat (api T0) f) as [tp'|] eqn:Hf.
    + destruct (str_truthy tp') eqn:Htp'.
      * destruct (decide (tp' = tp)) as [->|Hne].
        -- rewrite lookup_insert_eq. f_equal.
           apply splitDefaultFormat_name in Hf as ->.
           by apply splitDefaultFormat_name in Hsplit as ->.
        -- rewrite lookup_insert_ne by done.
           destruct Hin as [Hin|Hin]; [done|].
           apply elem_of_cons in Hin as [->|Hin]; [congruence|done].
      * destruct Hin as [Hin|Hin]; [done|].
        apply elem_of_cons in Hin as [->|Hin]; [congruence|done].
    + destruct Hin as [Hin|Hin]; [done|].
      apply elem_of_cons in Hin as [->|Hin]; [congruence|done].
Qed.

Lemma sortedItems_keys {V} (d : gmap string V) (fmt : string) :
  fmt ∈ (sortedItems d).*1 ↔ is_Some (d !! fmt).
Proof.
  unfold sortedItems. rewrite merge_sort_Permutation.
  rewrite list_elem_of_fmap. split.
  - intros ([k v] & -> & Hin). apply elem_of_map_to_list in Hin. by exists v.
  - intros [v Hv]. exists (fmt, v). split; [done|]. by apply elem_of_map_to_list.
Qed.

(** X17: after [_compileFormats], the tables [_xformats] and [_xdTypes]
    have an entry for exactly the declared formats; every target type in
    [_xdTypes] is the slot type or a node type; every declared format that
    is named after a node type with [-default] is the default format of
    that type, unless the name of the type is empty: the empty name gets
    no default format; and when [defaultFormats] was empty before, as
    [__init__] leaves it, every default format is a format with an entry in
    [_xformats], named after its type, a node type with a name that is not
    empty. *)
Theorem compileFormats_tables (T : Text)
    (cformats : gmap string (string * list featureRef)) :
  let T' := _compileFormats py_format unescape T cformats in
  api T' = api T
  ∧ (∀ fmt, is_Some (_xformats T' !! fmt) ↔ is_Some (cformats !! fmt))
  ∧ (∀ fmt, is_Some (_xdTypes T' !! fmt) ↔ is_Some (cformats !! fmt))
  ∧ (∀ fmt d, _xdTypes T' !! fmt = Some d →
              d = slotType (api T) ∨ d ∈ otypeAll (api T))
  ∧ (∀ tp fmt, splitDefaultFormat (api T) fmt = Some tp →
               str_truthy tp = true →
               is_Some (cformats !! fmt) →
               defaultFormats T' !! tp = Some fmt)
  ∧ defaultFormats T' !! EmptyString = defaultFormats T !! EmptyString
  ∧ (defaultFormats T = ∅ →
     ∀ tp fmt, defaultFormats T' !! tp = Some fmt →
               fmt = tp +:+ "-default" ∧ tp ∈ otypeAll (api T)
               ∧ str_truthy tp = true ∧ is_Some (_xformats T' !! fmt)).
Proof.
  intros T'. subst T'. unfold _compileFormats.
  set (T0 := {| api := api T; sectionTypes := sectionTypes T;
                structureTypeSet := structureTypeSet T; hdFromNd := hdFromNd T;
                ndFromHd := ndFromHd T; hdMult := hdMult T; hdTop := hdTop T;
                hdUp := hdUp T; hdDown := hdDown T;
                defaultFormats := defaultFormats T; _xformats := ∅;
                _xdTypes := ∅ |}).
  split; [by rewrite compile_api|].
  split.
  { intros fmt. rewrite compile_xformats, sortedItems_keys. simpl.
    rewrite lookup_empty. split; [intros [[? ?]|]|]; by auto. }
  split.
  { intros fmt. rewrite compile_xdTypes_dom, sortedItems_keys. simpl.
    rewrite lookup_empty. split; [intros [[? ?]|]|]; by auto. }
  split.
  { intros fmt d [Hd|(rtpl & _ & ->)]%compile_xdTypes; [by simpl in Hd|].
    simpl. apply splitFormat_target. }
  split.
  { intros tp fmt Hsplit Htp Hdecl. apply compile_defaultFormats_2; [done..|].
    right. by apply sortedItems_keys. }
  split; [by rewrite compile_defaultFormats_empty|].
  intros Hempty tp fmt [Hd|(Hin & Hsplit & Htp)]%compile_defaultFormats_1.
  - simpl in Hd. by rewrite Hempty, lookup_empty in Hd.
  - simpl in Hsplit. split; [by apply splitDefaultFormat_name in Hsplit as ->|].
    split; [by apply splitDefaultFormat_type in Hsplit|]. split; [done|].
    apply compile_xformats. by right.
Qed.

(** The formats that can be looked up after [_compileFormats]. *)
Lemma compileFormats_lookups (T : Text)
    (cformats : gmap string (string * list featureRef)) :
  let T' := _compileFormats py_format unescape T cformats in
  (∀ fmt, is_Some (_xformats T' !! fmt) ↔ is_Some (cformats !! fmt))
  ∧ (∀ fmt, is_Some (_xdTypes T' !! fmt) ↔ is_Some (cformats !! fmt))
  ∧ (defaultFormats T = ∅ →
     ∀ tp fmt, defaultFormats T' !! tp = Some fmt →
               is_Some (_xformats T' !! fmt)).
Proof.
  intros T'. subst T'. unfold _compileFormats.
  split.
  { intros fmt. rewrite compile_xformats, sortedItems_keys. simpl.
    rewrite lookup_empty. split; [intros [[? ?]|]|]; by auto. }
  split.
  { intros fmt. rewrite compile_xdTypes_dom, sortedItems_keys. simpl.
    rewrite lookup_empty. split; [intros [[? ?]|]|]; by auto. }
  intros Hempty tp fmt [Hd|[Hin Hsplit]]%compile_defaultFormats_1.
  - simpl in Hd. by rewrite Hempty, lookup_empty in Hd.
  - apply compile_xformats. by right.
Qed.

(** X18: when the formats are compiled from declarations that include
    [text-orig-full], then for every node type, every value of [descend]
    and every format that is not given or is declared, the format of a node
    and its target type are found, and so is what the head of the trace
    needs: no key is missing. *)
Theorem resolveFormat_compiled (T : Text)
    (cformats : gmap string (string * list featureRef)) (fmt : option string)
    (descend : option bool) (nType : string) (single : bool) (nodes : list Z)
    (func : option repFunc) (log : list diag) :
  defaultFormats T = ∅ →
  is_Some (cformats !! DEFAULT_FORMAT) →
  (∀ f, givenFmt fmt = Some f → is_Some (cformats !! f)) →
  let T' := _compileFormats py_format unescape T cformats in
  (∃ r, resolveFormat T' fmt descend nType = Ok r
        ∧ is_Some (cformats !! res_fmt r))
  ∧ ∃ line, explainCall T' single nodes fmt descend func log
            = (Ok tt, log ++ [Explain line]).
Proof.
  intros Hempty Hdefault Hfmt T'.
  destruct (compileFormats_lookups T cformats) as (Hxf & Hxd & Hdf).
  fold T' in Hxf, Hxd, Hdf.
  specialize (Hdf Hempty).
  assert (Hget : ∀ f, is_Some (cformats !! f) →
            (∃ g, py_getitem (_xformats T') f = Ok g)
            ∧ ∃ d, py_getitem (_xdTypes T') f = Ok d).
  { intros f Hf. unfold py_getitem.
    destruct (proj2 (Hxf f) Hf) as [g ->]. destruct (proj2 (Hxd f) Hf) as [d ->].
    eauto. }
  split.
  - unfold resolveFormat.
    destruct (givenFmt fmt) as [f|] eqn:Hgiven.
    + destruct (Hget f (Hfmt f eq_refl)) as [[g ->] [d ->]].
      destruct descend as [[|]|]; simpl; eexists; (split; [done|]); simpl;
        by apply Hfmt.
    + destruct (Hget _ Hdefault) as [[g Hg] [d Hd]].
      destruct descend as [[|]|]; simpl.
      * rewrite Hg, Hd. simpl. eexists; split; done.
      * destruct (defaultFormats T' !! nType) as [dfmt|] eqn:Hdfmt.
        -- destruct (Hdf _ _ Hdfmt) as [g' Hg'].
           unfold py_getitem at 1. rewrite Hg'. simpl. eexists; split; [done|].
           simpl. apply Hxf. by rewrite Hg'.
        -- rewrite Hg. simpl. eexists; split; done.
      * destruct (defaultFormats T' !! nType) as [dfmt|] eqn:Hdfmt.
        -- destruct (Hdf _ _ Hdfmt) as [g' Hg'].
           unfold py_getitem at 1. rewrite Hg'. simpl. eexists; split; [done|].
           simpl. apply Hxf. by rewrite Hg'.
        -- rewrite Hg, Hd. simpl. eexists; split; done.
  - unfold explainCall. destruct (givenFmt fmt) as [f|] eqn:Hgiven.
    + destruct (Hget f (Hfmt f eq_refl)) as [_ [d Hd]].
      eexists. unfold mbind, M_bind, lift. rewrite Hd. simpl. done.
    + eexists. done.
Qed.
End CompiledFormats.

(** A corpus in which the books have the empty string as the name of their
    type. The format [-default] is declared and is named after that type,
    but it does not become its default format: the name of the type counts
    as false at line 938. *)
Definition namelessApi : Api := {|
  fOtype := λ n, if decide (n ≤ 3) then "word"%string else EmptyString;
  slotType := "word";
  maxSlot := 3;
  otypeAll := [EmptyString; "word"%string];
  eoslots := [[1; 2; 3]];
  L_u := λ _ _, [];
  L_d := λ _ _, [];
  Fs := λ _, ∅;
|}.

Definition namelessText : Text := {|
  api := namelessApi;
  sectionTypes := [];
  structureTypeSet := ∅;
  hdFromNd := None;
  ndFromHd := None;
  hdMult := None;
  hdTop := None;
  hdUp := None;
  hdDown := None;
  defaultFormats := ∅;
  _xformats := ∅;
  _xdTypes := ∅;
|}.

Example compiled_nameless_type :
  let T := _compileFormats (λ tpl _, Ok tpl) id namelessText
             {[ "-default"%string := ("{g}"%string, [(["g"%string], EmptyString)]) ]} in
  splitDefaultFormat namelessApi "-default" = Some EmptyString
  ∧ defaultFormats T !! EmptyString = None
  ∧ _xdTypes T !! "-default"%string = Some "word"%string.
Proof. repeat split; vm_compute; reflexivity. Qed.

Lemma resolveFormat_compiled_witness :
  (∃ r, resolveFormat (_compileFormats (λ tpl _, Ok tpl) id bareLexText lexFormats)
          (Some "lex-default"%string) None "lex" = Ok r
        ∧ is_Some (lexFormats !! res_fmt r))
  ∧ ∃ line, explainCall (_compileFormats (λ tpl _, Ok tpl) id bareLexText lexFormats)
              true [4] (Some "lex-default"%string) None None []
            = (Ok tt, [] ++ [Explain line]).
Proof.
  apply (resolveFormat_compiled (λ tpl _, Ok tpl) id bareLexText lexFormats
           (Some "lex-default"%string) None "lex" true [4] None []).
  - reflexivity.
  - apply (bool_decide_unpack _). vm_compute. exact I.
  - intros f Hf. injection Hf as <-. apply (bool_decide_unpack _). vm_compute.
    exact I.
Defined.

(** ** The value of [text] and its messages *)

(** The strings that the loop of [text] adds for one node: the format is
    looked up, the node is expanded, and every node of the expansion is
    formatted. *)
Fixpoint formatAll (repf : repFunc) (kw : kwargs) (xnodes : list Z)
    : pyres (list string) :=
  match xnodes with
  | [] => Ok []
  | n :: xnodes' =>
      rep ← repf n kw; reps ← formatAll repf kw xnodes'; Ok (rep :: reps)
  end.

Definition nodePieces (T : Text) (fmt : option string) (descend : option bool)
    (func : option repFunc) (kw : kwargs) (node : Z) : pyres (list string) :=
  let nType := fOtype (api T) node in
  res ← resolveFormat T fmt descend nType;
  xnodes ← expand T node (ownTypeToNone nType (res_downType res));
  formatAll (default (res_repf res) func) kw xnodes.

Fixpoint allPieces (T : Text) (fmt : option string) (descend : option bool)
    (func : option repFunc) (kw : kwargs) (nodes : list Z) : pyres (list string) :=
  match nodes with
  | [] => Ok []
  | node :: nodes' =>
      ps ← nodePieces T fmt descend func kw node;
      qs ← allPieces T fmt descend func kw nodes';
      Ok (ps ++ qs)
  end.

(** A computation [yields] a value when it gives that value whatever the
    messages sent before, and adds nothing but lines of the trace, and none
    at all when the trace is off. *)
Definition isExplain (d : diag) : Prop := ∃ line, d = Explain line.

Definition yields {A} (m : M A) (explain : bool) (r : pyres A) : Prop :=
  ∀ log, ∃ w, m log = (r, log ++ w)
              ∧ Forall isExplain w ∧ (explain = false → w = []).

Lemma yields_ret {A} (a : A) (explain : bool) : yields (mret a) explain (Ok a).
Proof. intros log. exists []. by rewrite app_nil_r. Qed.

Lemma yields_lift {A} (r : pyres A) (explain : bool) : yields (lift r) explain r.
Proof. intros log. exists []. by rewrite app_nil_r. Qed.

Lemma yields_trace (explain : bool) (line : explainLine) :
  yields (when explain (error (Explain line))) explain (Ok tt).
Proof.
  intros log. destruct explain; simpl.
  - exists [Explain line]. repeat split; [|done].
    apply Forall_singleton. by exists line.
  - exists []. by rewrite app_nil_r.
Qed.

Lemma yields_bind {A B} (m : M A) (f : A → M B) (explain : bool)
    (r : pyres A) (g : A → pyres B) :
  yields m explain r → (∀ a, r = Ok a → yields (f a) explain (g a)) →
  yields (m ≫= f) explain (r ≫= g).
Proof.
  intros Hm Hf log. destruct (Hm log) as (w & Heq & Hw & Hoff).
  unfold mbind at 1, M_bind. rewrite Heq. destruct r as [a|e].
  - destruct (Hf a eq_refl (log ++ w)) as (w' & Heq' & Hw' & Hoff').
    exists (w ++ w'). rewrite Heq', app_assoc. repeat split.
    + by apply Forall_app.
    + intros Hex. by rewrite Hoff, Hoff'.
  - by exists w.
Qed.

Lemma yields_addMaterial (A : Api) (repf : repFunc) (kw : kwargs)
    (explain : bool) (xnodes : list Z) (material : list string) :
  yields (addMaterial A repf kw explain xnodes material) explain
    (reps ← formatAll repf kw xnodes; Ok (material ++ reps)).
Proof.
  revert material. induction xnodes as [|n xnodes IH]; intros material.
  - simpl. rewrite app_nil_r. apply yields_ret.
  - cbn [addMaterial formatAll].
    replace (_ ≫= _ : pyres (list string))
      with (repf n kw ≫= λ rep,
              (Ok tt : pyres unit) ≫= λ _,
                reps ← formatAll repf kw xnodes; Ok ((material ++ [rep]) ++ reps)).
    2:{ destruct (repf n kw) as [rep|e]; [|done]. simpl.
        destruct (formatAll repf kw xnodes) as [reps|e]; [|done]. simpl.
        by rewrite <- app_assoc. }
    apply yields_bind; [apply yields_lift|]. intros rep _.
    apply yields_bind; [apply yields_trace|]. intros _ _. apply IH.
Qed.

Lemma yields_textNode (T : Text) (fmt : option string) (descend : option bool)
    (func : option repFunc) (explain : bool) (kw : kwargs) (node : Z)
    (material : list string) (good : bool) :
  yields (textNode T fmt descend func explain kw node (material, good)) explain
    (ps ← nodePieces T fmt descend func kw node; Ok (material ++ ps, good)).
Proof.
  unfold textNode, nodePieces. cbv zeta.
  set (nType := fOtype (api T) node).
  replace (_ ≫= _ : pyres (list string * bool))
    with ((Ok tt : pyres unit) ≫= λ _,
          resolveFormat T fmt descend nType ≫= λ res,
          (Ok tt : pyres unit) ≫= λ _,
          expand T node (ownTypeToNone nType (res_downType res)) ≫= λ xnodes,
          (Ok tt : pyres unit) ≫= λ _,
          (Ok tt : pyres unit) ≫= λ _,
          (reps ← formatAll (default (res_repf res) func) kw xnodes;
           Ok (material ++ reps)) ≫= λ material',
          Ok (material', good)).
  2:{ simpl. destruct (resolveFormat T fmt descend nType) as [res|e]; [|done].
      simpl. destruct (expand T node _) as [xnodes|e]; [|done]. simpl.
      by destruct (formatAll _ kw xnodes). }
  apply yields_bind; [apply yields_trace|]. intros _ _.
  apply yields_bind; [apply yields_lift|]. intros res _.
  apply yields_bind; [apply yields_trace|]. intros _ _.
  apply yields_bind; [apply yields_lift|]. intros xnodes _.
  apply yields_bind; [apply yields_trace|]. intros _ _.
  destruct func as [f|]; cbv beta iota zeta delta [default from_option id].
  - apply yields_bind.
    { destruct explain; [|apply yields_ret].
      apply (yields_bind _ _ true (Ok tt) (λ _, Ok tt));
        [apply (yields_trace true)|]. intros _ _. apply (yields_trace true). }
    intros _ _. apply yields_bind; [apply yields_addMaterial|].
    intros material' _. apply yields_ret.
  - apply yields_bind.
    { destruct explain; [|apply yields_ret].
      apply (yields_bind _ _ true (Ok tt) (λ _, Ok tt));
        [apply (yields_trace true)|]. intros _ _. apply (yields_trace true). }
    intros _ _. apply yields_bind; [apply yields_addMaterial|].
    intros material' _. apply yields_ret.
Qed.

Lemma yields_textLoop (T : Text) (fmt : option string) (descend : option bool)
    (func : option repFunc) (explain : bool) (kw : kwargs) (nodes : list Z)
    (material : list string) (good : bool) :
  yields (textLoop T fmt descend func explain kw nodes (material, good)) explain
    (ps ← allPieces T fmt descend func kw nodes; Ok (material ++ ps, good)).
Proof.
  revert material good.
  induction nodes as [|node nodes IH]; intros material good.
  - simpl. rewrite app_nil_r. apply yields_ret.
  - cbn [textLoop allPieces].
    replace (_ ≫= _ : pyres (list string * bool))
      with ((ps ← nodePieces T fmt descend func kw node; Ok (material ++ ps, good))
            ≫= λ state,
              qs ← allPieces T fmt descend func kw nodes; Ok (state.1 ++ qs, state.2)).
    2:{ destruct (nodePieces T fmt descend func kw node) as [ps|e]; [|done]. simpl.
        destruct (allPieces T fmt descend func kw nodes) as [qs|e]; [|done]. simpl.
        by rewrite <- app_assoc. }
    apply yields_bind; [apply yields_textNode|]. intros [material' good'] _.
    apply IH.
Qed.

(** The nodes as the loop of [text] meets them. *)
Definition nodeList (nodes : nodesArg) : list Z :=
  match nodes with
  | OneNode n => [n]
  | Nodes l => l
  end.

(** The format that is asked for and is not in [_xformats]. *)
Definition undefinedFormat (T : Text) (fmt : option string) : option string :=
  match givenFmt fmt with
  | Some f => if _xformats T !! f is None then Some f else None
  | None => None
  end.

(** What the head of the trace needs: the target type of a given format. *)
Definition traceHead (T : Text) (fmt : option string) (explain : bool)
    : pyres unit :=
  if explain then
    match givenFmt fmt with
    | Some f => _ ← py_getitem (_xdTypes T) f; Ok tt
    | None => Ok tt
    end
  else Ok tt.

Lemma text_undefined (T : Text) (nodes : nodesArg) (fmt : option string)
    (descend : option bool) (func : option repFunc) (explain : bool)
    (kw : kwargs) (f : string) (log : list diag) :
  undefinedFormat T fmt = Some f →
  text T nodes fmt descend func explain kw log
  = (Ok EmptyString, log ++ [UndefinedFormat f]).
Proof. unfold undefinedFormat, text. by intros ->. Qed.

Lemma text_yields (T : Text) (nodes : nodesArg) (fmt : option string)
    (descend : option bool) (func : option repFunc) (explain : bool)
    (kw : kwargs) :
  undefinedFormat T fmt = None →
  yields (text T nodes fmt descend func explain kw) explain
    (_ ← traceHead T fmt explain;
     ps ← allPieces T fmt descend func kw (nodeList nodes);
     Ok (String.concat EmptyString ps)).
Proof.
  unfold undefinedFormat, text. intros ->. fold (nodeList nodes).
  apply yields_bind.
  { unfold traceHead, explainCall. destruct explain; [|apply yields_ret].
    replace (match givenFmt fmt with
             | Some f => py_getitem (_xdTypes T) f ≫= λ _, Ok tt
             | None => Ok tt
             end)
      with ((match givenFmt fmt with
             | Some f => d ← py_getitem (_xdTypes T) f; Ok (Some (f, d))
             | None => Ok None
             end) ≫= λ _, Ok tt : pyres unit).
    2:{ destruct (givenFmt fmt) as [f|]; [|done].
        by destruct (py_getitem (_xdTypes T) f). }
    apply (yields_bind _ _ true); [apply yields_lift|]. intros fmtRep _.
    apply (yields_trace true). }
  intros _ _.
  replace (_ ≫= _ : pyres string)
    with ((ps ← allPieces T fmt descend func kw (nodeList nodes); Ok ([] ++ ps, true))
          ≫= λ state,
            (Ok tt : pyres unit) ≫= λ _, Ok (String.concat EmptyString state.1)).
  2:{ by destruct (allPieces T fmt descend func kw (nodeList nodes)). }
  apply yields_bind; [apply yields_textLoop|]. intros [material good] Hgood.
  assert (good = true) as ->.
  { destruct (allPieces T fmt descend func kw (nodeList nodes)); by simplify_eq/=. }
  apply yields_bind; [apply yields_ret|]. intros _ _. apply yields_ret.
Qed.

Lemma allPieces_app (T : Text) (fmt : option string) (descend : option bool)
    (func : option repFunc) (kw : kwargs) (l1 l2 : list Z) :
  allPieces T fmt descend func kw (l1 ++ l2)
  = ps ← allPieces T fmt descend func kw l1;
    qs ← allPieces T fmt descend func kw l2;
    Ok (ps ++ qs).
Proof.
  induction l1 as [|n l1 IH]; simpl.
  - by destruct (allPieces T fmt descend func kw l2).
  - rewrite IH. destruct (nodePieces T fmt descend func kw n) as [ps|e]; [|done].
    simpl. destruct (allPieces T fmt descend func kw l1) as [ps1|e]; [|done].
    simpl. destruct (allPieces T fmt descend func kw l2) as [ps2|e]; [|done].
    simpl. by rewrite app_assoc.
Qed.

Lemma string_app_nil_r (s : string) : s +:+ EmptyString = s.
Proof.
  induction s as [|c s IH]; [done|]. by rewrite string_app_cons, IH.
Qed.

Lemma string_app_assoc (a b c : string) : (a +:+ b) +:+ c = a +:+ (b +:+ c).
Proof.
  induction a as [|x a IH]; [done|]. by rewrite !string_app_cons, IH.
Qed.

Lemma concat_cons (x : string) (xs : list string) :
  String.concat EmptyString (x :: xs) = x +:+ String.concat EmptyString xs.
Proof.
  destruct xs as [|y xs]; [|done]. simpl. by rewrite string_app_nil_r.
Qed.

Lemma concat_app (xs ys : list string) :
  String.concat EmptyString (xs ++ ys)
  = String.concat EmptyString xs +:+ String.concat EmptyString ys.
Proof.
  induction xs as [|x xs IH]; [done|].
  rewrite <- app_comm_cons, !concat_cons, IH. by rewrite string_app_assoc.
Qed.


(** X20: the messages of [text]. Earlier messages are kept. The message
    that the default format is not defined is never sent. Without
    [explain], [text] sends nothing, except for a format that is asked for
    and not known: then it sends that one message and returns the empty
    string. *)
Theorem text_messages (T : Text) (nodes : nodesArg) (fmt : option string)
    (descend : option bool) (func : option repFunc) (explain : bool)
    (kw : kwargs) (log : list diag) :
  ∃ w, (text T nodes fmt descend func explain kw log).2 = log ++ w
       ∧ (DefaultFormatNotDefined ∉ w)
       ∧ (explain = false →
          w = []
          ∨ ∃ f, fmt = Some f ∧ _xformats T !! f = None
                 ∧ w = [UndefinedFormat f]
                 ∧ (text T nodes fmt descend func explain kw log).1
                   = Ok EmptyString).
Proof.
  destruct (undefinedFormat T fmt) as [f|] eqn:Hundefined.
  - rewrite (text_undefined _ _ _ _ _ _ _ f) by done.
    exists [UndefinedFormat f]. split; [done|]. split.
    { by intros ?%list_elem_of_singleton. }
    intros _. right. exists f. unfold undefinedFormat, givenFmt in Hundefined.
    destruct fmt as [f'|]; [|done]. destruct (str_truthy f'); [|done].
    destruct (_xformats T !! f') eqn:Hf'; by simplify_eq.
  - destruct (text_yields T nodes fmt descend func explain kw Hundefined log)
      as (w & -> & Hw & Hoff).
    exists w. split; [done|]. split; [|by left; auto].
    intros Hin. rewrite Forall_forall in Hw. by destruct (Hw _ Hin).
Qed.

(** X21: when no format is given and the default format [text-orig-full]
    is needed but not there, [text] raises [KeyError] at the first node,
    with [explain], with [func] or without them. The default format is
    needed when [descend] is true, or when the type of the node has no
    default format of its own. *)
Theorem text_missing_default_raises (T : Text) (n : Z) (rest : list Z)
    (fmt : option string) (descend : option bool) (func : option repFunc)
    (explain : bool) (kw : kwargs) (log : list diag) :
  givenFmt fmt = None →
  _xformats T !! DEFAULT_FORMAT = None →
  descend = Some true ∨ defaultFormats T !! fOtype (api T) n = None →
  (text T (Nodes (n :: rest)) fmt descend func explain kw log).1 = Raise KeyError.
Proof.
  intros Hfmt Hdefault Hneeded.
  assert (Hundefined : undefinedFormat T fmt = None)
    by (unfold undefinedFormat; by rewrite Hfmt).
  destruct (text_yields T (Nodes (n :: rest)) fmt descend func explain kw
              Hundefined log) as (w & -> & _).
  simpl. unfold traceHead. rewrite Hfmt.
  assert (nodePieces T fmt descend func kw n = Raise KeyError) as ->.
  { unfold nodePieces, resolveFormat. rewrite Hfmt. unfold py_getitem.
    destruct Hneeded as [->|Hnone].
    - by rewrite Hdefault.
    - rewrite Hnone, Hdefault. by destruct descend as [[|]|]. }
  by destruct explain.
Qed.

Lemma text_missing_default_raises_witness :
  (text bareText (Nodes [4; 1]) None None (Some (λ n _, Ok (pretty n))) false ∅ []).1
  = Raise KeyError.
Proof.
  apply (text_missing_default_raises bareText 4 [1] None None
           (Some (λ n _, Ok (pretty n))) false ∅ []).
  - reflexivity.
  - reflexivity.
  - right. reflexivity.
Defined.

(** X22: the text of two lists of nodes, one after the other, is the text
    of the first followed by the text of the second; when one of them
    raises, so does the text of the whole, the first one first. *)
Theorem text_app (T : Text) (l1 l2 : list Z) (fmt : option string)
    (descend : option bool) (func : option repFunc) (explain : bool)
    (kw : kwargs) (log : list diag) :
  (text T (Nodes (l1 ++ l2)) fmt descend func explain kw log).1
  = s1 ← (text T (Nodes l1) fmt descend func explain kw log).1;
    s2 ← (text T (Nodes l2) fmt descend func explain kw log).1;
    Ok (s1 +:+ s2).
Proof.
  destruct (undefinedFormat T fmt) as [f|] eqn:Hundefined.
  - by rewrite !(text_undefined _ _ _ _ _ _ _ f).
  - destruct (text_yields T (Nodes (l1 ++ l2)) fmt descend func explain kw
                Hundefined log) as (w & -> & _).
    destruct (text_yields T (Nodes l1) fmt descend func explain kw
                Hundefined log) as (w1 & -> & _).
    destruct (text_yields T (Nodes l2) fmt descend func explain kw
                Hundefined log) as (w2 & -> & _).
    simpl. rewrite allPieces_app.
    destruct (traceHead T fmt explain) as [[]|e]; [|done]. simpl.
    destruct (allPieces T fmt descend func kw l1) as [ps|e]; [|done]. simpl.
    destruct (allPieces T fmt descend func kw l2) as [qs|e]; [|done]. simpl.
    by rewrite concat_app.
Qed.


(** ** The value of a feature reference *)

(** The first value that the features of a reference have for a node. *)
Definition firstValue (A : Api) (feat : list string) (n : Z)
    : option featureValue :=
  head (omap (λ ft, Fs A ft !! n) feat).

Lemma list_find_is_Some {X V} (f : X → option V) (l : list X) :
  match list_find is_Some (f <$> l) with
  | Some (_, Some v) => head (omap f l) = Some v
  | Some (_, None) => False
  | None => head (omap f l) = None
  end.
Proof.
  induction l as [|x l IH]; [done|]. simpl in *.
  destruct (f x) as [v|] eqn:Hx.
  - by destruct (decide (is_Some (Some v))) as [_|[]].
  - destruct (decide (is_Some (@None V))) as [[? ?]|_]; [done|].
    by destruct (list_find _ _) as [[k [v|]]|].
Qed.

(** X23: the function that [_makeFunc] makes for the features of a
    reference gives the value of the first feature that has a value for the
    node, and the default when there is none. The three ways in which it is
    made differ in one point: for three or more features a value that
    counts as false (the number 0, the empty string) is replaced by the
    default; for one or two features it is kept. *)
Theorem makeFunc_value (A : Api) (feat : list string) (default : string) (n : Z) :
  _makeFunc A feat default n
  = match firstValue A feat n with
    | Some v =>
        if value_truthy v || bool_decide (length feat ≤ 2)%nat then v
        else inr default
    | None => inr default
    end.
Proof.
  unfold firstValue. destruct feat as [|ft1 [|ft2 [|ft3 feat]]].
  - done.
  - simpl. destruct (Fs A ft1 !! n) as [v|]; [|done]. simpl.
    by rewrite orb_true_r.
  - simpl. destruct (Fs A ft1 !! n) as [v|]; simpl; [by rewrite orb_true_r|].
    destruct (Fs A ft2 !! n) as [v|]; [|done]. simpl. by rewrite orb_true_r.
  - set (fs := ft1 :: ft2 :: ft3 :: feat).
    assert (Hlong : bool_decide (length fs ≤ 2)%nat = false)
      by (apply bool_decide_eq_false_2; simpl; lia).
    rewrite Hlong. change (_makeFunc A fs default n)
      with (match list_find is_Some ((λ ft, Fs A ft !! n) <$> fs) with
            | Some (_, Some v) => if value_truthy v then v else inr default
            | _ => inr default
            end).
    pose proof (list_find_is_Some (λ ft, Fs A ft !! n) fs) as Hfind.
    destruct (list_find is_Some ((λ ft, Fs A ft !! n) <$> fs)) as [[k [v|]]|];
      [|done|]; rewrite Hfind; [|done]. by rewrite orb_false_r.
Qed.

(** ** A section node in its own tuple *)

(** X24: the tuple of a section node has the node itself at the position
    of its level, and without [fillup] the tuple ends there. The level of a
    node is the first of the (at most three) section levels that has the
    type of the node. *)
Theorem sectionTuple_own_level (T : Text) (n : Z) (lastSlot fillup : bool)
    (i : nat) (t : list secVal) :
  (i < 3)%nat →
  sectionTypes T !! i = Some (fOtype (api T) n) →
  (∀ j, (j < i)%nat → sectionTypes T !! j ≠ Some (fOtype (api T) n)) →
  sectionTuple T n lastSlot fillup = Ok t →
  t !! i = Some (SecNode n) ∧ (fillup = false → length t = S i).
Proof.
  intros Hi Hlevel Hfirst. unfold sectionTuple. destruct fillup;
  destruct (sectionTypes T) as [|s0 [|s1 [|s2 sTypes]]] eqn:HsT;
    [done|..];
    (destruct (if decide (fOtype (api T) n = slotType (api T)) then Ok n else _)
       as [r|e]; [|done]);
    destruct i as [|[|[|i]]]; try lia; simplify_eq/=;
    try (pose proof (Hfirst 0%nat ltac:(lia)) as H0; simpl in H0);
    try (pose proof (Hfirst 1%nat ltac:(lia)) as H1; simpl in H1);
    repeat (case_decide || case_match); simplify_eq/=; try lia;
    try congruence; intros; simplify_eq/=; done.
Qed.

Lemma sectionTuple_own_level_witness :
  [SecNode 4] !! 0%nat = Some (SecNode 4)
  ∧ (false = false → length [SecNode 4] = 1%nat).
Proof.
  apply (sectionTuple_own_level threeLevelText 4 true false 0 [SecNode 4]).
  - lia.
  - reflexivity.
  - intros j Hj. lia.
  - vm_compute. reflexivity.
Defined.

(** X25: [fillup] only adds members: whenever [sectionTuple] returns a
    tuple with [fillup], it returns one without as well, and that one is
    the beginning of the other. *)
Theorem sectionTuple_fillup_extends (T : Text) (n : Z) (lastSlot : bool)
    (t' : list secVal) :
  sectionTuple T n lastSlot true = Ok t' →
  ∃ t, sectionTuple T n lastSlot false = Ok t ∧ t `prefix_of` t'.
Proof.
  unfold sectionTuple.
  destruct (sectionTypes T) as [|s0 [|s1 [|s2 sTypes]]] eqn:HsT; simpl;
    try (intros [= <-]; by exists []);
    (destruct (if decide (fOtype (api T) n = slotType (api T)) then Ok n else _)
       as [r|e]; [|done]); simpl;
    repeat (case_decide || case_match); simplify_eq/=; try lia;
    intros; simplify_eq/=;
    eexists; (split; [reflexivity|]);
    try reflexivity;
    try (by eexists [_]); try (by eexists [_; _]).
Qed.

Lemma sectionTuple_fillup_extends_witness :
  ∃ t, sectionTuple threeLevelText 4 true false = Ok t
       ∧ t `prefix_of` [SecNode 4; SecEmpty; SecEmpty].
Proof.
  apply (sectionTuple_fillup_extends threeLevelText 4 true
           [SecNode 4; SecEmpty; SecEmpty]).
  vm_compute. reflexivity.
Defined.

(** ** The names of the sections of the first level *)

Section SectionNames.
Variable A : Api.

Abbreviation nameStep :=
  (λ (d : gmap (string * featureValue) Z) '(node, name),
     <[(fOtype A node, name) := node]> d).

Lemma namesToNodes_snoc (items : list (Z * featureValue)) (node : Z)
    (name : featureValue) :
  namesToNodes A (items ++ [(node, name)])
  = <[(fOtype A node, name) := node]> (namesToNodes A items).
Proof. unfold namesToNodes. by rewrite foldl_app. Qed.

(** A name that one node of a type has, and no other node of that type,
    leads to that node. *)
Lemma namesToNodes_unique (items : list (Z * featureValue)) (n : Z)
    (name : featureValue) :
  (n, name) ∈ items →
  (∀ m, (m, name) ∈ items → fOtype A m = fOtype A n → m = n) →
  namesToNodes A items !! (fOtype A n, name) = Some n.
Proof.
  induction items as [|[m nm] items IH] using rev_ind; intros Hin Hunique.
  - by apply elem_of_nil in Hin.
  - rewrite namesToNodes_snoc.
    destruct (decide ((fOtype A m, nm) = (fOtype A n, name))) as [Heq|Hne].
    + injection Heq as Htp ->. rewrite Htp, lookup_insert_eq. f_equal.
      apply Hunique; [|done]. apply elem_of_app. right. by left.
    + rewrite lookup_insert_ne by done. apply IH.
      * apply elem_of_app in Hin as [Hin|Hin]; [done|].
        apply list_elem_of_singleton in Hin. by simplify_eq.
      * intros m' Hm'. apply Hunique, elem_of_app. by left.
Qed.

Lemma languageStep_other (S : SectionData)
    (feats : list (string * list (Z * featureValue))) (code : string) :
  code ∉ feats.*1 →
  nameFromNode (foldl (languageStep A) S feats) !! code = nameFromNode S !! code
  ∧ nodeFromName (foldl (languageStep A) S feats) !! code = nodeFromName S !! code.
Proof.
  revert S. induction feats as [|[c items] feats IH]; intros S Hnotin; [done|].
  apply not_elem_of_cons in Hnotin as [Hne Hnotin]. cbn [foldl].
  destruct (IH (languageStep A S (c, items)) Hnotin) as [-> ->]. simpl.
  by rewrite !lookup_insert_ne.
Qed.

Lemma languageStep_lookup (S : SectionData)
    (feats : list (string * list (Z * featureValue))) (code : string)
    (items : list (Z * featureValue)) :
  NoDup feats.*1 → (code, items) ∈ feats →
  nameFromNode (foldl (languageStep A) S feats) !! code
  = Some (list_to_map items)
  ∧ nodeFromName (foldl (languageStep A) S feats) !! code
    = Some (namesToNodes A items).
Proof.
  revert S. induction feats as [|[c its] feats IH]; intros S Hnodup Hin.
  - by apply elem_of_nil in Hin.
  - simpl in Hnodup. apply NoDup_cons in Hnodup as [Hnotin Hnodup].
    apply elem_of_cons in Hin as [Heq|Hin].
    + injection Heq as <- <-. cbn [foldl].
      destruct (languageStep_other (languageStep A S (code, items)) feats code
                  Hnotin) as [-> ->].
      simpl. by rewrite !lookup_insert_eq.
    + cbn [foldl]. by apply IH.
Qed.

Lemma languageStep_codes (S : SectionData)
    (feats : list (string * list (Z * featureValue))) (code : string) :
  (code ∈ languages (foldl (languageStep A) S feats)
   ↔ code ∈ languages S ∨ code ∈ feats.*1)
  ∧ (is_Some (nodeFromName (foldl (languageStep A) S feats) !! code)
     ↔ is_Some (nodeFromName S !! code) ∨ code ∈ feats.*1)
  ∧ (is_Some (nameFromNode (foldl (languageStep A) S feats) !! code)
     ↔ is_Some (nameFromNode S !! code) ∨ code ∈ feats.*1).
Proof.
  revert S. induction feats as [|[c items] feats IH]; intros S.
  - simpl. rewrite elem_of_nil. tauto.
  - cbn [foldl]. destruct (IH (languageStep A S (c, items))) as (-> & -> & ->).
    simpl. rewrite !lookup_insert_is_Some, elem_of_union, elem_of_singleton,
      elem_of_cons.
    destruct (decide (c = code)) as [->|Hne]; [intuition auto|intuition congruence].
Qed.
End SectionNames.

Section InitSections.
Variable T : Text.
Variable featsWithLanguage : list (string * list (Z * featureValue)).
Variable sectionFeats : list string.
Variable data1 : gmap Z (gmap featureValue Z).
Variable data2 : gmap Z (gmap featureValue (gmap featureValue Z)).

Abbreviation theSections :=
  (initSections T featsWithLanguage sectionFeats data1 data2).

Lemma initSections_set_up :
  sectionTypes T ≠ [] → sectionFeats ≠ [] →
  languages theSections
  = languages (foldl (languageStep (api T))
                 {| languages := ∅; nameFromNode := ∅; nodeFromName := ∅;
                    sectionFeatures := []; sec1 := data1; sec2 := data2 |}
                 featsWithLanguage)
  ∧ nameFromNode theSections
    = nameFromNode (foldl (languageStep (api T))
                 {| languages := ∅; nameFromNode := ∅; nodeFromName := ∅;
                    sectionFeatures := []; sec1 := data1; sec2 := data2 |}
                 featsWithLanguage)
  ∧ nodeFromName theSections
    = nodeFromName (foldl (languageStep (api T))
                 {| languages := ∅; nameFromNode := ∅; nodeFromName := ∅;
                    sectionFeatures := []; sec1 := data1; sec2 := data2 |}
                 featsWithLanguage).
Proof.
  intros HsT HsF. unfold initSections.
  rewrite !bool_decide_eq_true_2; [done|..].
  - by destruct (sectionTypes T).
  - by destruct sectionFeats.
Qed.

(** X26: names and nodes of the first section level go back and forth.
    When sections are set up by [__init__] and the feature with language
    code [code] gives the node [n] of the first level a name that no other
    node of that level has, then [_sec0Name] gives that name for [n],
    [_sec0Node] gives [n] for that name, the section of [n] is that name
    alone, and [nodeFromSection] leads from it back to [n]. *)
Theorem sec0_round_trip (code : string) (items : list (Z * featureValue))
    (n : Z) (name : featureValue) (lastSlot : bool) :
  sectionTypes T !! 0%nat = Some (fOtype (api T) n) →
  sectionFeats ≠ [] →
  NoDup featsWithLanguage.*1 → (code, items) ∈ featsWithLanguage →
  NoDup items.*1 → (n, name) ∈ items →
  (∀ m, (m, name) ∈ items → fOtype (api T) m = fOtype (api T) n → m = n) →
  hasSlots (api T) n →
  _sec0Name T theSections n code = Ok name
  ∧ _sec0Node T theSections name code = Ok (Some n)
  ∧ sectionFromNode T theSections n lastSlot code false = Ok [Some name]
  ∧ nodeFromSection T theSections [name] code = Ok (Some n).
Proof.
  intros HsT HsF Hcodes Hcode Hnodes Hname Hunique Hslots.
  destruct (sectionTypes T) as [|sec0T sTypes] eqn:HsTypes; [done|].
  simpl in HsT. injection HsT as ->.
  destruct initSections_set_up as (Hlang & Hnames & Hnodes');
    [by rewrite HsTypes|done|].
  assert (Hkey : languageKey theSections code = code).
  { unfold languageKey. rewrite decide_True; [done|]. rewrite Hlang.
    apply languageStep_codes. right.
    apply list_elem_of_fmap. by exists (code, items). }
  destruct (languageStep_lookup (api T)
              {| languages := ∅; nameFromNode := ∅; nodeFromName := ∅;
                 sectionFeatures := []; sec1 := data1; sec2 := data2 |}
              featsWithLanguage code items Hcodes Hcode) as [Hnm Hnd].
  assert (Hsec0Name : _sec0Name T theSections n code = Ok name).
  { unfold _sec0Name. rewrite HsTypes. simpl. rewrite decide_True by done.
    simpl. rewrite Hkey. unfold py_getitem. rewrite Hnames, Hnm. simpl.
    by rewrite (elem_of_list_to_map_1 items n name). }
  assert (Hsec0Node : _sec0Node T theSections name code = Ok (Some n)).
  { unfold _sec0Node. rewrite HsTypes. simpl. rewrite Hkey. unfold py_getitem.
    rewrite Hnodes', Hnd. simpl. by rewrite namesToNodes_unique. }
  split; [done|]. split; [done|]. split.
  - unfold sectionFromNode, sectionTuple. rewrite HsTypes.
    destruct (reference_slot (api T) n lastSlot Hslots) as [r ->]. simpl.
    rewrite decide_True by done. simpl. by rewrite Hsec0Name.
  - unfold nodeFromSection. rewrite HsTypes. simpl. by rewrite Hsec0Node.
Qed.

(** X27: when [_sec0Node] raises. Without section types it is
    [IndexError]. With section types it is [KeyError], in two cases: no
    section features are declared, or the language is not one of the
    language codes and neither is the empty code, under which the names
    are looked up for a language that is not known. *)
Theorem sec0Node_raises (name : featureValue) (lang : string) (e : pyExn) :
  _sec0Node T theSections name lang = Raise e
  ↔ (sectionTypes T = [] ∧ e = IndexError)
    ∨ (sectionTypes T ≠ [] ∧ e = KeyError
       ∧ (sectionFeats = []
          ∨ ((lang ∉ featsWithLanguage.*1)
             ∧ (EmptyString ∉ featsWithLanguage.*1)))).
Proof.
  unfold _sec0Node.
  destruct (sectionTypes T) as [|sec0T sTypes] eqn:HsTypes.
  { simpl. split; [intros [= <-]; by left|]. by intros [[_ ->]|[? _]]. }
  simpl. destruct sectionFeats as [|sF sFs] eqn:HsF.
  { unfold initSections. simpl. unfold py_getitem. simpl.
    split; [intros [= <-]; right; by auto|]. by intros [[? _]|(_ & -> & _)]. }
  destruct initSections_set_up as (Hlang & _ & Hnodes);
    [by rewrite HsTypes|by rewrite HsF|].
  rewrite <- HsF in *. clear HsF.
  pose proof (languageStep_codes (api T)
                {| languages := ∅; nameFromNode := ∅; nodeFromName := ∅;
                   sectionFeatures := []; sec1 := data1; sec2 := data2 |}
                featsWithLanguage) as Hcodes.
  assert (Hin : ∀ c, c ∈ languages theSections ↔ c ∈ featsWithLanguage.*1).
  { intros c. rewrite Hlang. destruct (Hcodes c) as (-> & _). simpl.
    rewrite elem_of_empty. tauto. }
  assert (Hdom : ∀ c, is_Some (nodeFromName theSections !! c)
                      ↔ c ∈ featsWithLanguage.*1).
  { intros c. rewrite Hnodes. destruct (Hcodes c) as (_ & -> & _). simpl.
    rewrite lookup_empty. split; [intros [[? ?]|]|]; by auto. }
  unfold languageKey, py_getitem.
  destruct (decide (lang ∈ languages theSections)) as [Hlang'|Hlang'].
  - destruct (proj2 (Hdom lang) (proj1 (Hin lang) Hlang')) as [d ->]. simpl.
    split; [done|]. intros [[? _]|(_ & _ & [HsF|[Hnot _]])]; [done|..].
    + by destruct sectionFeats.
    + destruct Hnot. by apply Hin.
  - destruct (nodeFromName theSections !! EmptyString) as [d|] eqn:Hd; simpl.
    + split; [done|]. intros [[? _]|(_ & _ & [HsF|[_ Hnot]])]; [done|..].
      * by destruct sectionFeats.
      * destruct Hnot. apply Hdom. by rewrite Hd.
    + split.
      * intros [= <-]. right. split; [done|]. split; [done|]. right. split.
        -- by rewrite <- Hin.
        -- rewrite <- Hdom, Hd. by intros [? ?].
      * by intros [[? _]|(_ & -> & _)].
Qed.
End InitSections.

Lemma sec0_round_trip_witness :
  let S := initSections oneLevelText [("en"%string, [(4, inr "Genesis"%string)])]
             ["book"%string] ∅ ∅ in
  _sec0Name oneLevelText S 4 "en" = Ok (inr "Genesis"%string)
  ∧ _sec0Node oneLevelText S (inr "Genesis"%string) "en" = Ok (Some 4)
  ∧ sectionFromNode oneLevelText S 4 false "en" false
    = Ok [Some (inr "Genesis"%string)]
  ∧ nodeFromSection oneLevelText S [inr "Genesis"%string] "en" = Ok (Some 4).
Proof.
  apply (sec0_round_trip oneLevelText [("en"%string, [(4, inr "Genesis"%string)])]
           ["book"%string] ∅ ∅ "en" [(4, inr "Genesis"%string)] 4
           (inr "Genesis"%string) false).
  - reflexivity.
  - discriminate.
  - apply NoDup_singleton.
  - left.
  - apply NoDup_singleton.
  - left.
  - intros m Hm _. apply list_elem_of_singleton in Hm. congruence.
  - right. exists [1; 2; 3]. split; [reflexivity|discriminate].
Defined.

(** ** Sections and their labels *)

Lemma sectionLabels_each (T : Text) (S : SectionData) (lang : string)
    (members : list (Z * secVal)) (labels : list (option featureValue)) :
  sectionLabels T S lang members = Ok labels →
  Forall2 (λ m label, sectionLabel T S lang m.1 m.2 = Ok label) members labels.
Proof.
  revert labels. induction members as [|[i member] members IH]; intros labels.
  - intros [= <-]. constructor.
  - simpl. destruct (sectionLabel T S lang i member) as [label|e] eqn:Hl; [|done].
    simpl. destruct (sectionLabels T S lang members) as [ls|e]; [|done].
    intros [= <-]. constructor; [done|]. by apply IH.
Qed.

(** X28: when [sectionFromNode] returns, it gives one label for every
    member of the tuple of [sectionTuple]: the empty string where there is
    no node of the first level, and below the first level the value of the
    feature of that level for the node of the tuple, or [None]. *)
Theorem sectionFromNode_labels (T : Text) (S : SectionData) (n : Z)
    (lastSlot : bool) (lang : string) (fillup : bool)
    (labels : list (option featureValue)) :
  sectionFromNode T S n lastSlot lang fillup = Ok labels →
  ∃ t, sectionTuple T n lastSlot fillup = Ok t
       ∧ length labels = length t
       ∧ (∀ i, t !! i = Some SecNone → labels !! i = Some (Some (inr EmptyString)))
       ∧ (∀ i m, (0 < i)%nat → t !! i = Some (SecNode m) →
                 ∃ sF, sectionFeatures S !! i = Some sF
                       ∧ labels !! i = Some (sF !! m)).
Proof.
  unfold sectionFromNode.
  destruct (sectionTuple T n lastSlot fillup) as [t|e]; [|done]. simpl.
  intros Hlabels. exists t. split; [done|].
  case_decide as Hlen.
  { apply nil_length_inv in Hlen as ->. injection Hlabels as <-.
    repeat split; intros; by simplify_eq/=. }
  apply sectionLabels_each in Hlabels.
  split; [|split].
  - apply Forall2_length in Hlabels. unfold py_enumerate in Hlabels.
    by rewrite length_imap in Hlabels.
  - intros i Hi.
    destruct (Forall2_lookup_l _ _ _ i (Z.of_nat i, SecNone) Hlabels)
      as (label & Hlabel & Heq); [by apply py_enumerate_lookup|].
    simpl in Heq. by simplify_eq.
  - intros i m Hpos Hi.
    destruct (Forall2_lookup_l _ _ _ i (Z.of_nat i, SecNode m) Hlabels)
      as (label & Hlabel & Heq); [by apply py_enumerate_lookup|].
    simpl in Heq. rewrite decide_False in Heq by lia.
    rewrite py_index_nonneg in Heq by lia. rewrite Nat2Z.id in Heq.
    destruct (sectionFeatures S !! i) as [sF|]; [|done]. simpl in Heq.
    exists sF. by simplify_eq.
Qed.

(** X29: a name that is not the name of a node of the first level gives
    [None], whatever labels follow it. *)
Theorem nodeFromSection_unknown_name (T : Text) (S : SectionData)
    (label0 : featureValue) (labels : list featureValue) (lang : string) :
  _sec0Node T S label0 lang = Ok None →
  nodeFromSection T S (label0 :: labels) lang = Ok None.
Proof.
  intros Hnone. unfold nodeFromSection. case_decide; [done|].
  simpl. rewrite Hnone. simpl.
  by destruct labels as [|label1 [|label2 labels]].
Qed.

(** The sections of [oneLevelText] with one English name. *)
Definition genesisSections : SectionData :=
  initSections oneLevelText [("en"%string, [(4, inr "Genesis"%string)])]
    ["book"%string] ∅ ∅.

(** A corpus of three words with a book, a chapter and a verse (the nodes
    4, 5 and 6). Word 1 is in all three; word 2 is in the chapter and the
    verse, and in no book. *)
Definition chapterApi : Api := {|
  fOtype := λ n, if decide (n ≤ 3) then "word"%string
                 else if decide (n = 4) then "book"%string
                 else if decide (n = 5) then "chapter"%string
                 else "verse"%string;
  slotType := "word";
  maxSlot := 3;
  otypeAll := ["book"; "chapter"; "verse"; "word"]%string;
  eoslots := [[1]; [1; 2]; [1; 2]];
  L_u := λ n tp,
    if decide (n = 1 ∧ tp = "book"%string) then [4]
    else if decide ((n = 1 ∨ n = 2) ∧ tp = "chapter"%string) then [5]
    else if decide ((n = 1 ∨ n = 2) ∧ tp = "verse"%string) then [6]
    else [];
  L_d := λ _ _, [];
  Fs := λ ft,
    if decide (ft = "book"%string) then {[ 4 := inr "Genesis"%string ]}
    else if decide (ft = "chapter"%string) then {[ 5 := inl 1 ]}
    else if decide (ft = "verse"%string) then {[ 6 := inl 2 ]}
    else ∅;
|}.

Definition chapterText : Text := {|
  api := chapterApi;
  sectionTypes := ["book"; "chapter"; "verse"]%string;
  structureTypeSet := ∅;
  hdFromNd := None;
  ndFromHd := None;
  hdMult := None;
  hdTop := None;
  hdUp := None;
  hdDown := None;
  defaultFormats := ∅;
  _xformats := ∅;
  _xdTypes := ∅;
|}.

Definition chapterSections : SectionData :=
  initSections chapterText [("en"%string, [(4, inr "Genesis"%string)])]
    ["book"; "chapter"; "verse"]%string ∅ ∅.

(** The section of word 2: no book, chapter 1, verse 2. *)
Example sectionFromNode_without_book :
  sectionTuple chapterText 2 false true = Ok [SecNone; SecNode 5; SecNode 6]
  ∧ sectionFromNode chapterText chapterSections 2 false "en" true
    = Ok [Some (inr EmptyString); Some (inl 1); Some (inl 2)]
  ∧ sectionFromNode chapterText chapterSections 1 false "en" true
    = Ok [Some (inr "Genesis"%string); Some (inl 1); Some (inl 2)].
Proof. repeat split; vm_compute; reflexivity. Qed.

Lemma sectionFromNode_labels_witness :
  ∃ t, sectionTuple chapterText 2 false true = Ok t
       ∧ length [Some (inr EmptyString : featureValue); Some (inl 1); Some (inl 2)]
         = length t
       ∧ (∀ i, t !! i = Some SecNone →
               [Some (inr EmptyString : featureValue); Some (inl 1); Some (inl 2)] !! i
               = Some (Some (inr EmptyString)))
       ∧ (∀ i m, (0 < i)%nat → t !! i = Some (SecNode m) →
                 ∃ sF, sectionFeatures chapterSections !! i = Some sF
                       ∧ [Some (inr EmptyString : featureValue); Some (inl 1);
                          Some (inl 2)] !! i
                         = Some (sF !! m)).
Proof.
  apply (sectionFromNode_labels chapterText chapterSections 2 false "en" true
           [Some (inr EmptyString); Some (inl 1); Some (inl 2)]).
  vm_compute. reflexivity.
Defined.

Lemma nodeFromSection_unknown_name_witness :
  nodeFromSection oneLevelText genesisSections
    [inr "Exodus"%string; inl 1; inl 2] "en" = Ok None.
Proof.
  apply (nodeFromSection_unknown_name oneLevelText genesisSections
           (inr "Exodus"%string) [inl 1; inl 2] "en").
  vm_compute. reflexivity.
Defined.

(** ** The structure below a node *)

(** When every call returns, whatever the messages before it, so does the
    loop over the list, with the values in the order of the list and the
    messages one after the other. *)
Lemma mapM_returns {X Y} (f : X → M Y) (l : list X) (yws : list (Y * list diag)) :
  Forall2 (λ x yw, ∀ log, f x log = (Ok yw.1, log ++ yw.2)) l yws →
  ∀ log, mapM f l log = (Ok yws.*1, log ++ concat yws.*2).
Proof.
  intros Hall. induction Hall as [|x [y w] l yws Hx Hl IH]; intros log.
  - simpl. by rewrite app_nil_r.
  - cbn [mapM]. unfold mbind, M_bind, mret, M_ret.
    rewrite Hx. simpl. rewrite IH. simpl. by rewrite app_assoc.
Qed.

Lemma Forall2_choice {X Y} (P : X → Y → Prop) (l : list X) :
  (∀ x, x ∈ l → ∃ y, P x y) → ∃ ys, Forall2 P l ys.
Proof.
  induction l as [|x l IH]; intros Hall.
  - exists []. constructor.
  - destruct (Hall x ltac:(left)) as [y Hy].
    destruct IH as [ys Hys]; [intros x' Hx'; apply Hall; by right|].
    exists (y :: ys). by constructor.
Qed.

(** X30: [structure] returns for every node when the children of [hdDown]
    are well-founded and enough nested calls are allowed: every node has a
    rank above the ranks of its children, and the depth exceeds the rank of
    the node. The result and the messages do not depend on the depth or on
    the messages sent before, which are kept; nothing is raised. For a node
    that is not of a structure type the result is [None], with the message
    that says so. For a node of a structure type the result is the node
    with the structures of its children, the nodes of [down], in their
    order: each member is what [structure] returns for that child. *)
Theorem structure_returns (T : Text) (tops : list Z) (dn : gmap Z (list Z))
    (rank : Z → nat) (n : Z) :
  hdTop T = Some tops → hdDown T = Some dn →
  (∀ m kids k, dn !! m = Some kids → k ∈ kids → (rank k < rank m)%nat) →
  ∃ s w,
    (∀ depth log, (rank n < depth)%nat →
       structure depth T (Some n) log = (Ok s, log ++ w))
    ∧ (fOtype (api T) n ∉ structureTypeSet T →
       s = StructNone ∧ w = [NotStructureType n (fOtype (api T) n)])
    ∧ (fOtype (api T) n ∈ structureTypeSet T →
       ∃ children,
         s = StructNode n children
         ∧ Forall2 (λ k c, ∀ depth log, (rank k < depth)%nat →
                      (structure depth T (Some k) log).1 = Ok c)
             (default [] (dn !! n)) children).
Proof.
  intros Htop Hdown Hrank.
  remember (rank n) as r eqn:Hr. revert n Hr.
  induction r as [r IH] using lt_wf_ind. intros n ->.
  destruct (decide (fOtype (api T) n ∈ structureTypeSet T)) as [Htype|Htype].
  - set (kids := default [] (dn !! n)).
    assert (Hkids : ∀ k, k ∈ kids →
              ∃ cw : pyStructure * list diag,
                ∀ depth log, (rank k < depth)%nat →
                  structure depth T (Some k) log = (Ok cw.1, log ++ cw.2)).
    { intros k Hk. subst kids. destruct (dn !! n) as [ks|] eqn:Hks;
        [|by apply elem_of_nil in Hk].
      destruct (IH (rank k) (Hrank n ks k Hks Hk) k eq_refl) as (s & w & Hs & _).
      by exists (s, w). }
    apply Forall2_choice in Hkids as [cws Hcws].
    exists (StructNode n cws.*1), (concat cws.*2). split; [|split; [done|]].
    + intros depth log Hdepth. destruct depth as [|depth]; [lia|].
      cbn [structure]. rewrite Htop, decide_True by done.
      unfold down. rewrite Hdown, decide_True by done.
      unfold mbind at 1 2, M_bind, mret, M_ret, py_iter. simpl.
      fold kids.
      rewrite (mapM_returns (λ d, structure depth T (Some d)) kids cws); [done|].
      apply Forall2_same_length_lookup. split; [by eapply Forall2_length|].
      intros i k cw Hk Hcw log'.
      apply (Forall2_lookup_lr _ _ _ _ _ _ Hcws Hk Hcw).
      assert (Hin : k ∈ kids) by (by eapply list_elem_of_lookup_2).
      subst kids. destruct (dn !! n) as [ks|] eqn:Hks;
        [|by apply elem_of_nil in Hin].
      pose proof (Hrank n ks k Hks Hin). lia.
    + intros _. exists cws.*1. split; [done|].
      apply Forall2_fmap_r. eapply Forall2_impl; [exact Hcws|].
      intros k cw Hk depth log Hdepth. by rewrite Hk.
  - exists StructNone, [NotStructureType n (fOtype (api T) n)].
    split; [|split; [done|by intros ?]].
    intros depth log Hdepth. destruct depth as [|depth]; [lia|].
    cbn [structure]. by rewrite Htop, decide_False.
Qed.

(** A book with two parts, over the corpus of [bareApi] extended with the
    nodes 5 and 6. *)
Definition treeText : Text := {|
  api := bareApi;
  sectionTypes := [];
  structureTypeSet := {[ "book"%string ]};
  hdFromNd := None;
  ndFromHd := None;
  hdMult := None;
  hdTop := Some [4];
  hdUp := Some {[ 5 := 4; 6 := 4 ]};
  hdDown := Some {[ 4 := [5; 6] ]};
  defaultFormats := ∅;
  _xformats := ∅;
  _xdTypes := ∅;
|}.

Lemma structure_returns_witness :
  ∃ s w,
    (∀ depth log, ((if decide (4%Z = 4%Z) then 1 else 0) < depth)%nat →
       structure depth treeText (Some 4) log = (Ok s, log ++ w))
    ∧ (fOtype (api treeText) 4 ∉ structureTypeSet treeText →
       s = StructNone ∧ w = [NotStructureType 4 (fOtype (api treeText) 4)])
    ∧ (fOtype (api treeText) 4 ∈ structureTypeSet treeText →
       ∃ children,
         s = StructNode 4 children
         ∧ Forall2 (λ (k : Z) c, ∀ depth log,
                      ((if decide (k = 4%Z) then 1 else 0) < depth)%nat →
                      (structure depth treeText (Some k) log).1 = Ok c)
             (default [] (({[ 4 := [5; 6] ]} : gmap Z (list Z)) !! 4)) children).
Proof.
  apply (structure_returns treeText [4] {[ 4 := [5; 6] ]}
           (λ n, if decide (n = 4) then 1%nat else 0%nat) 4).
  - reflexivity.
  - reflexivity.
  - intros m kids k Hm Hk. apply lookup_singleton_Some in Hm as [<- <-].
    rewrite !elem_of_cons, elem_of_nil in Hk.
    destruct Hk as [->|[->|[]]]; simpl; lia.
Defined.

Example structure_of_tree :
  structure 3 treeText None []
  = (Ok (StructTuple [StructNode 4 [StructNode 5 []; StructNode 6 []]]), []).
Proof. vm_compute. reflexivity. Qed.
